(** * A retry executor with exponential backoff: the [retry] package

    Shallow embedding of [retry/retry.go]: the error classifier
    [IsRetryable], the backoff calculator [calculateBackoff] and the two
    retry loops [Do] and [DoWithNotify], and of the two callers in the
    repository, the HTTP client [RetryableHTTPClient] and the database
    service [OrderService]; followed by the properties the specification
    states about the package, and by further properties of the package
    and of its callers. *)

From Stdlib Require Import ZArith List String Bool Lia.
From Stdlib Require Import PrimFloat FloatOps SpecFloat FloatAxioms.
From Stdlib Require Uint63.
From Stdlib Require Ascii DecimalString.
From Stdlib Require Import Zpower.
Import ListNotations.

Set Warnings "-register-all,-inexact-float".

Local Open Scope string_scope.
Local Open Scope Z_scope.

(** ** Error values *)

Module Errors.

(** A non-nil Go [error] value, as far as the classifier can observe it.
    Each constructor is one dynamic type:
    - [errorString]: a leaf made by [errors.New], or any other type with
      no [Unwrap], [Is], [As], [Timeout] or [Temporary] method;
    - [ctxCanceled], [ctxDeadlineExceeded]: the two sentinels of package
      [context];
    - [RetryableError]: the marker struct of this package;
    - [wrapError]: the value of [fmt.Errorf] with one [%w] operand;
    - [netError]: any type implementing [net.Error], with its message, the
      results of [Temporary()] and [Timeout()], and the error it unwraps
      to, if any;
    - [Errno]: a [syscall.Errno];
    - [joinError]: the value of [errors.Join].
    A marker whose [Err] field is nil is left out: its [Error] method
    panics.  Types with [Is] or [As] methods of their own are left out
    too, [syscall.Errno] apart. *)
Inductive error : Type :=
| errorString (s : string)
| ctxCanceled
| ctxDeadlineExceeded
| RetryableError (Err : error)
| wrapError (msg : string) (err : error)
| netError (msg : string) (temporary timeout : bool) (Err : option error)
| Errno (e : Z)
| joinError (errs : list error).

(** Errno numbers (linux). *)
Definition EINTR : Z := 4.
Definition EAGAIN : Z := 11.
Definition EWOULDBLOCK : Z := EAGAIN.
Definition ENFILE : Z := 23.
Definition EMFILE : Z := 24.
Definition ECONNRESET : Z := 104.
Definition ETIMEDOUT : Z := 110.
Definition ECONNREFUSED : Z := 111.

(** [func (e Errno) Timeout() bool] and [func (e Errno) Temporary() bool]. *)
Definition Errno_Timeout (e : Z) : bool :=
  (e =? EAGAIN) || (e =? EWOULDBLOCK) || (e =? ETIMEDOUT).

Definition Errno_Temporary (e : Z) : bool :=
  (e =? EINTR) || (e =? EMFILE) || (e =? ENFILE) || Errno_Timeout e.

(** The errors one call of [Unwrap] yields: one for [Unwrap() error],
    all of them for [Unwrap() []error], none for a leaf. *)
Definition unwrapped (err : error) : list error :=
  match err with
  | RetryableError e => [e]
  | wrapError _ e => [e]
  | netError _ _ _ (Some e) => [e]
  | joinError es => es
  | _ => []
  end.

(** [err == target] on interface values, for the targets this package
    passes to [errors.Is]: the [context] sentinels and errno constants.
    Any other target is a pointer this package never holds. *)
Definition same_error (err target : error) : bool :=
  match target, err with
  | ctxCanceled, ctxCanceled => true
  | ctxDeadlineExceeded, ctxDeadlineExceeded => true
  | Errno t, Errno e => e =? t
  | _, _ => false
  end.

(** [errors.Is]: depth-first, pre-order walk of the tree under [err]. *)
Fixpoint Is (err target : error) {struct err} : bool :=
  same_error err target ||
  match err with
  | RetryableError e => Is e target
  | wrapError _ e => Is e target
  | netError _ _ _ (Some e) => Is e target
  | joinError es =>
      (fix any (l : list error) : bool :=
         match l with
         | [] => false
         | e :: l' => Is e target || any l'
         end) es
  | _ => false
  end.

(** [errors.As] with a target of type [T]: [sel] tells whether a node is
    assignable to [T] and what it is then; the first hit of the same walk
    is stored in the target. *)
Section As.
Context {T : Type}.
Variable sel : error -> option T.

Fixpoint As (err : error) {struct err} : option T :=
  match sel err with
  | Some x => Some x
  | None =>
      match err with
      | RetryableError e => As e
      | wrapError _ e => As e
      | netError _ _ _ (Some e) => As e
      | joinError es =>
          (fix first (l : list error) : option T :=
             match l with
             | [] => None
             | e :: l' =>
                 match As e with
                 | Some x => Some x
                 | None => first l'
                 end
             end) es
      | _ => None
      end
  end.
End As.

(** [err] is [target] or wraps it: [target] is reachable from [err] by
    calls of [Unwrap]. *)
Inductive Wraps (target : error) : error -> Prop :=
| Wraps_here : Wraps target target
| Wraps_under err e :
    In e (unwrapped err) -> Wraps target e -> Wraps target err.

End Errors.

Import Errors.

(** ** The classifier *)

(** Which nodes the three [errors.As] targets of [IsRetryable] accept. *)
Definition asRetryableError (err : error) : option error :=
  match err with
  | RetryableError e => Some e
  | _ => None
  end.

(** [net.Error] is an interface: [Error], [Timeout], [Temporary].  The
    pair is [(Temporary(), Timeout())] of the node found. *)
Definition asNetError (err : error) : option (bool * bool) :=
  match err with
  | netError _ temporary timeout _ => Some (temporary, timeout)
  | ctxDeadlineExceeded => Some (true, true)
  | Errno e => Some (Errno_Temporary e, Errno_Timeout e)
  | _ => None
  end.

Definition asErrno (err : error) : option Z :=
  match err with
  | Errno e => Some e
  | _ => None
  end.

(** [IsRetryable]: the first rule that applies decides. *)
Definition IsRetryable (err : error) : bool :=
  if Is err ctxCanceled then false
  else
    match As asRetryableError err with
    | Some _ => true
    | None =>
        match As asNetError err with
        | Some (temporary, timeout) => temporary || timeout
        | None =>
            match As asErrno err with
            | Some syscallErr =>
                Is (Errno syscallErr) (Errno ECONNREFUSED) ||
                Is (Errno syscallErr) (Errno ECONNRESET)
            | None => false
            end
        end
    end.

(** [IsRetryableHTTPStatus]: 408, 429, 500, 502, 503, 504. *)
Definition IsRetryableHTTPStatus (statusCode : Z) : bool :=
  match statusCode with
  | 408 | 429 | 500 | 502 | 503 | 504 => true
  | _ => false
  end.

(** ** Numbers: [int], [time.Duration] and [float64] *)

(** [time.Duration] is an [int64] count of nanoseconds. *)
Definition Duration := Z.
Definition Millisecond : Duration := 1000000.
Definition Second : Duration := 1000 * Millisecond.

(** [float64(n)] for an integer [n]: the nearest binary64 value, ties to
    even. *)
Definition float64_of_int (n : Z) : float :=
  SF2Prim (binary_normalize prec emax n 0 false).

(** What the conversion [int64(f)] gives when [f] is a NaN, an infinity
    or out of range.  The language leaves it to the implementation; this
    is the value on amd64. *)
Definition int64_indefinite : Z := - 2 ^ 63.

(** [time.Duration(f)] for a [float64]: the fraction is discarded. *)
Definition int64_of_float64 (f : float) : Z :=
  match Prim2SF f with
  | S754_zero _ => 0
  | S754_finite s m e =>
      let a := match e with
               | Z0 => Zpos m
               | Zpos _ => Z.shiftl (Zpos m) e
               | Zneg p => Z.shiftr (Zpos m) (Zpos p)
               end in
      let v := if s then - a else a in
      if (- 2 ^ 63 <=? v) && (v <? 2 ^ 63) then v else int64_indefinite
  | _ => int64_indefinite
  end.

(** The functions of Go's library whose code is not part of the package:
    [math.Pow], and the message table behind [syscall.Errno.Error]. *)
Record Library : Type := {
  math_Pow : float -> float -> float;
  Errno_Error : Z -> string
}.

(** ** The backoff calculator *)

Record Config : Type := {
  MaxRetries : Z;
  InitialBackoff : Duration;
  MaxBackoff : Duration;
  BackoffFactor : float;
  JitterFactor : float
}.

Definition DefaultConfig : Config := {|
  MaxRetries := 3;
  InitialBackoff := 10 * Millisecond;
  MaxBackoff := 10 * Millisecond;
  BackoffFactor := 1.5;
  JitterFactor := 0.1
|}.

(** [calculateBackoff]; [u] is the value [rand.Float64()] returns.  The
    float operations are rounded one by one. *)
Definition calculateBackoff (lib : Library) (u : float) (attempt : Z)
    (config : Config) : Duration :=
  let backoff :=
    (float64_of_int (InitialBackoff config) *
     math_Pow lib (BackoffFactor config) (float64_of_int attempt))%float in
  let backoff :=
    if (float64_of_int (MaxBackoff config) <? backoff)%float
    then float64_of_int (MaxBackoff config)
    else backoff in
  let jitter := ((u - 0.5) * JitterFactor config * backoff)%float in
  let finalBackoff := (backoff + jitter)%float in
  let finalBackoff :=
    if (finalBackoff <? 0)%float then 0%float else finalBackoff in
  int64_of_float64 finalBackoff.

(** The wait the specification words for a policy without jitter:
    [min(initialWait * growthFactor^attemptIndex, maxWait)], in the
    numbers of the code. *)
Definition float64_min (a b : float) : float :=
  if (b <? a)%float then b else a.

Definition clamped_exponential (lib : Library) (attempt : Z)
    (config : Config) : float :=
  float64_min
    (float64_of_int (InitialBackoff config) *
     math_Pow lib (BackoffFactor config) (float64_of_int attempt))%float
    (float64_of_int (MaxBackoff config)).

(** A float that is neither a NaN nor an infinity. *)
Definition finite64 (f : float) : bool :=
  match Prim2SF f with
  | S754_zero _ | S754_finite _ _ _ => true
  | _ => false
  end.

(** A finite float that is zero or positive. *)
Definition nonneg64 (f : float) : bool :=
  match Prim2SF f with
  | S754_zero _ | S754_finite false _ _ => true
  | _ => false
  end.

(** *** An instance of the library

    [math.Pow] for an integral exponent, the only kind [calculateBackoff]
    passes: the special cases first, then squaring of the mantissa
    [Frexp] gives, the binary exponent kept apart, and [Ldexp] at the
    end.  A fractional exponent is outside this instance. *)
Fixpoint pow_loop (i : positive) (x1 : float) (xe : Z) (a1 : float)
    (ae : Z) : float * Z :=
  if (xe <? - 2 ^ 12) || (2 ^ 12 <? xe) then (a1, ae + xe)
  else
    let '(a1, ae) :=
      match i with
      | xO _ => (a1, ae)
      | _ => ((a1 * x1)%float, ae + xe)
      end in
    let x1 := (x1 * x1)%float in
    let xe := 2 * xe in
    let '(x1, xe) :=
      if (x1 <? 0.5)%float then ((x1 + x1)%float, xe - 1) else (x1, xe) in
    match i with
    | xH => (a1, ae)
    | xO i' | xI i' => pow_loop i' x1 xe a1 ae
    end.

Definition isOddInt (y : float) : bool :=
  match int64_of_float64 (abs y) with
  | Zpos i => Z.odd (Zpos i)
  | _ => false
  end.

Definition Pow_zero (x y : float) : float :=
  if (y <? 0)%float then
    (if get_sign x && isOddInt y then neg_infinity else infinity)
  else
    (if get_sign x && isOddInt y then x else 0%float).

Definition Pow (x y : float) : float :=
  if (y =? 0)%float || (x =? 1)%float then 1%float
  else if (y =? 1)%float then x
  else if is_nan x || is_nan y then nan
  else if (x =? 0)%float then Pow_zero x y
  else if is_infinity y then
    (if (x =? -1)%float then 1%float
     else if Bool.eqb (abs x <? 1)%float (0 <? y)%float then 0%float
     else infinity)
  else if is_infinity x then
    (if (x <? 0)%float then Pow_zero (1 / x)%float (- y)%float
     else if (y <? 0)%float then 0%float else infinity)
  else if (float64_of_int (2 ^ 63) <=? abs y)%float then
    (if (x =? -1)%float then 1%float
     else if Bool.eqb (abs x <? 1)%float (0 <? y)%float then 0%float
     else infinity)
  else
    match int64_of_float64 (abs y) with
    | Zpos i =>
        let '(x1, xe) := Z.frexp x in
        let '(a1, ae) := pow_loop i x1 xe 1%float 0 in
        if (y <? 0)%float then Z.ldexp (1 / a1)%float (- ae)
        else Z.ldexp a1 ae
    | _ => nan
    end.

(** A message table for the instance: the two errnos the classifier
    names, and one text for all the others. *)
Definition Errno_text (e : Z) : string :=
  if e =? ECONNREFUSED then "connection refused"
  else if e =? ECONNRESET then "connection reset by peer"
  else "errno".

Definition golib : Library := {|
  math_Pow := Pow;
  Errno_Error := Errno_text
|}.

(** ** Messages and wrapping *)

Definition newline : string := String (Ascii.ascii_of_nat 10) EmptyString.

(** The [Error()] method of each dynamic type. *)
Fixpoint Error (lib : Library) (err : error) {struct err} : string :=
  match err with
  | errorString s => s
  | ctxCanceled => "context canceled"
  | ctxDeadlineExceeded => "context deadline exceeded"
  | RetryableError e => Error lib e
  | wrapError msg _ => msg
  | netError msg _ _ _ => msg
  | Errno e => Errno_Error lib e
  | joinError es =>
      (fix join (l : list error) : string :=
         match l with
         | [] => EmptyString
         | e :: l' =>
             match l' with
             | [] => Error lib e
             | _ :: _ => String.append (Error lib e) (String.append newline (join l'))
             end
         end) es
  end.

(** [fmt.Errorf(prefix + "%w", a)]: a [wrapError] around a non-nil
    operand, whose message is the prefix followed by the operand's; for a
    nil operand nothing is wrapped and the verb is reported as bad. *)
Definition Errorf (lib : Library) (prefix : string) (a : option error) : error :=
  match a with
  | Some err => wrapError (String.append prefix (Error lib err)) err
  | None => errorString (String.append prefix "%!w(<nil>)")
  end.

(** ** The retry loops *)

(** What a run meets outside the package: the result of each call of
    the operation ([None] is nil), each value of [rand.Float64()], and
    for each [select] whether [ctx.Done()] is received before the timer
    of the given duration fires.  All three are indexed from 0 in the
    order the run asks for them. *)
Record Env : Type := {
  operation : nat -> option error;
  rand_Float64 : nat -> float;
  ctx_Done : nat -> Duration -> bool
}.

(** What a run does that can be seen from outside. *)
Inductive event : Type :=
| Invoke
| Printf (attempt maxRetries : Z) (err : error)
| Notify (err : error) (backoff : Duration)
| Select (backOff : Duration).

Record world : Type := {
  calls : nat;
  draws : nat;
  selects : nat;
  trace : list event
}.

Definition start : world :=
  {| calls := 0; draws := 0; selects := 0; trace := [] |}.

Definition emit (ev : event) (w : world) : world :=
  {| calls := calls w; draws := draws w; selects := selects w;
     trace := trace w ++ [ev] |}.

(** State passing over [world]. *)
Definition M (A : Type) : Type := world -> A * world.

Definition ret {A : Type} (a : A) : M A := fun w => (a, w).

Definition bind {A B : Type} (m : M A) (k : A -> M B) : M B :=
  fun w => let (a, w') := m w in k a w'.

Notation "x <- m ;; k" := (bind m (fun x => k))
  (at level 61, m at next level, right associativity).
Notation "m ;;; k" := (bind m (fun _ => k))
  (at level 61, right associativity).

(** [operation()] *)
Definition call (env : Env) : M (option error) :=
  fun w =>
    (operation env (calls w),
     emit Invoke
       {| calls := S (calls w); draws := draws w; selects := selects w;
          trace := trace w |}).

(** [fmt.Printf("Attempt %d/%d: %v\n", attempt, config.MaxRetries, lastErr)] *)
Definition printf (attempt maxRetries : Z) (err : error) : M unit :=
  fun w => (tt, emit (Printf attempt maxRetries err) w).

(** [calculateBackoff(attempt, config)], with the draw it makes. *)
Definition backoff_for (lib : Library) (env : Env) (attempt : Z)
    (config : Config) : M Duration :=
  fun w =>
    (calculateBackoff lib (rand_Float64 env (draws w)) attempt config,
     {| calls := calls w; draws := S (draws w); selects := selects w;
        trace := trace w |}).

(** [notify(lastErr, backoff)] when [notify] is not nil. *)
Definition call_notify (notify : bool) (err : error) (backoff : Duration)
    : M unit :=
  fun w => (tt, if notify then emit (Notify err backoff) w else w).

(** The [select] on [time.After(backOff)] and [ctx.Done()]: [true] when
    the context's channel is the one received from. *)
Definition select_Done (env : Env) (backOff : Duration) : M bool :=
  fun w =>
    (ctx_Done env (selects w) backOff,
     emit (Select backOff)
       {| calls := calls w; draws := draws w; selects := S (selects w);
          trace := trace w |}).

(** The four [return] statements of a loop. *)
Inductive exit : Type :=
| Success
| NonRetryable
| Cancelled
| Exhausted.

Record result : Type := {
  reason : exit;
  returned : option error
}.

Definition not_retryable (lib : Library) (lastErr : option error) : result :=
  {| reason := NonRetryable;
     returned := Some (Errorf lib "not retryable error: " lastErr) |}.

Definition timed_out (lib : Library) (lastErr : option error) : result :=
  {| reason := Cancelled;
     returned := Some (Errorf lib "timed out: " lastErr) |}.

Definition retries_exceeded (lib : Library) (lastErr : option error) : result :=
  {| reason := Exhausted;
     returned := Some (Errorf lib "retries exceeded: " lastErr) |}.

Definition succeeded : result := {| reason := Success; returned := None |}.

(** How one pass through a loop body ends. *)
Inductive control : Type :=
| Return (r : result)
| Break
| Next.

Section Loops.
Variable lib : Library.
Variable env : Env.
Variable config : Config.

(** The body of the [for] statement of [Do]; the first component is
    [lastErr] as the body leaves it. *)
Definition Do_body (attempt : Z) : M (option error * control) :=
  lastErr <- call env ;;
  match lastErr with
  | None => ret (lastErr, Return succeeded)
  | Some err =>
      printf attempt (MaxRetries config) err ;;;
      if negb (IsRetryable err) then
        ret (lastErr, Return (not_retryable lib lastErr))
      else if attempt =? MaxRetries config then
        ret (lastErr, Break)
      else
        backOff <- backoff_for lib env attempt config ;;
        done <- select_Done env backOff ;;
        if done then ret (lastErr, Return (timed_out lib lastErr))
        else ret (lastErr, Next)
  end.

(** The [for] statement: [attempt] counts up from 0 and the body runs
    while [attempt < config.MaxRetries], that is [config.MaxRetries]
    times unless it returns or breaks; [n] is the number of passes
    still to make.  After the loop comes the last [return]. *)
Fixpoint Do_loop (n : nat) (attempt : Z) (lastErr : option error)
    {struct n} : M result :=
  match n with
  | O => ret (retries_exceeded lib lastErr)
  | S n' =>
      step <- Do_body attempt ;;
      match snd step with
      | Return r => ret r
      | Break => ret (retries_exceeded lib (fst step))
      | Next => Do_loop n' (attempt + 1) (fst step)
      end
  end.

Definition Do : result * world :=
  Do_loop (Z.to_nat (MaxRetries config)) 0 None start.

(** The same for [DoWithNotify]; [notify] tells whether the callback
    is not nil. *)
Variable notify : bool.

Definition DoWithNotify_body (attempt : Z) : M (option error * control) :=
  lastErr <- call env ;;
  match lastErr with
  | None => ret (lastErr, Return succeeded)
  | Some err =>
      if negb (IsRetryable err) then
        ret (lastErr, Return (not_retryable lib lastErr))
      else if attempt =? MaxRetries config then
        ret (lastErr, Break)
      else
        backoff <- backoff_for lib env attempt config ;;
        call_notify notify err backoff ;;;
        done <- select_Done env backoff ;;
        if done then ret (lastErr, Return (timed_out lib lastErr))
        else ret (lastErr, Next)
  end.

Fixpoint DoWithNotify_loop (n : nat) (attempt : Z) (lastErr : option error)
    {struct n} : M result :=
  match n with
  | O => ret (retries_exceeded lib lastErr)
  | S n' =>
      step <- DoWithNotify_body attempt ;;
      match snd step with
      | Return r => ret r
      | Break => ret (retries_exceeded lib (fst step))
      | Next => DoWithNotify_loop n' (attempt + 1) (fst step)
      end
  end.

Definition DoWithNotify : result * world :=
  DoWithNotify_loop (Z.to_nat (MaxRetries config)) 0 None start.
End Loops.

(** ** Notions the properties are stated with *)

(** The retry configuration of the package's own backoff test. *)
Definition table_config : Config := {|
  MaxRetries := 0;
  InitialBackoff := 100 * Millisecond;
  MaxBackoff := 5 * Second;
  BackoffFactor := 2;
  JitterFactor := 0
|}.

(** Inputs after the package's own tests: an operation that always
    fails with a marked error under a context that is never done, or
    that is done during the second wait; an operation that fails with
    an unmarked error; and the configurations of those tests. *)
Definition always_fails : error := RetryableError (errorString "always fails").

Definition failing_env : Env := {|
  operation := fun _ => Some always_fails;
  rand_Float64 := fun _ => 0.5%float;
  ctx_Done := fun _ _ => false
|}.

Definition cancelling_env : Env := {|
  operation := fun _ => Some always_fails;
  rand_Float64 := fun _ => 0.5%float;
  ctx_Done := fun k _ => (k =? 1)%nat
|}.

Definition fatal_env : Env := {|
  operation := fun _ => Some (errorString "fatal");
  rand_Float64 := fun _ => 0.5%float;
  ctx_Done := fun _ _ => false
|}.

Definition exceeded_config : Config := {|
  MaxRetries := 2;
  InitialBackoff := 10 * Millisecond;
  MaxBackoff := 50 * Millisecond;
  BackoffFactor := 2;
  JitterFactor := 0.1
|}.

Definition cancel_config : Config := {|
  MaxRetries := 5;
  InitialBackoff := 10 * Millisecond;
  MaxBackoff := 50 * Millisecond;
  BackoffFactor := 2;
  JitterFactor := 0.1
|}.

(** What a caller can read off the message of a returned error. *)
Definition classify_message (msg : string) : option exit :=
  if String.prefix "not retryable error: " msg then Some NonRetryable
  else if String.prefix "timed out: " msg then Some Cancelled
  else if String.prefix "retries exceeded: " msg then Some Exhausted
  else None.

(** Two error values that differ in the text of their message at most:
    the same dynamic type around the same wrapped error. *)
Definition same_but_message (a b : error) : Prop :=
  match a, b with
  | wrapError _ e1, wrapError _ e2 => e1 = e2
  | errorString _, errorString _ => True
  | _, _ => a = b
  end.

(** The message an [Errorf] value carries after its prefix. *)
Definition operand_text (lib : Library) (a : option error) : string :=
  match a with
  | Some err => Error lib err
  | None => "%!w(<nil>)"
  end.

Definition one_attempt_config : Config := {|
  MaxRetries := 1;
  InitialBackoff := 10 * Millisecond;
  MaxBackoff := 10 * Millisecond;
  BackoffFactor := 1.5;
  JitterFactor := 0.1
|}.

(** A context that is done during the first wait. *)
Definition done_in_first_wait_env : Env := {|
  operation := fun _ => Some always_fails;
  rand_Float64 := fun _ => 0.5%float;
  ctx_Done := fun k _ => (k =? 0)%nat
|}.

(** The error the loop holds after [n] more failed calls. *)
Definition last_error (env : Env) (n : nat) (lastErr : option error)
    (w : world) : option error :=
  match n with
  | O => lastErr
  | S k => operation env (calls w + k)
  end.

(** The results a loop can leave with. *)
Inductive terminal (lib : Library) : result -> Prop :=
| terminal_success : terminal lib succeeded
| terminal_non_retryable lastErr : terminal lib (not_retryable lib lastErr)
| terminal_cancelled lastErr : terminal lib (timed_out lib lastErr)
| terminal_exhausted lastErr : terminal lib (retries_exceeded lib lastErr).

(** A trace with its [Printf] events taken out. *)
Definition is_Printf (ev : event) : bool :=
  match ev with
  | Printf _ _ _ => true
  | _ => false
  end.

Definition without_Printf (t : list event) : list event :=
  filter (fun ev => negb (is_Printf ev)) t.

Definition quiet (w : world) : world :=
  {| calls := calls w; draws := draws w; selects := selects w;
     trace := without_Printf (trace w) |}.

(** The events [DoWithNotify] may leave in a trace: a call of the
    operation, a call of the callback when there is one, a wait. *)
Definition allowed (notify : bool) (ev : event) : bool :=
  match ev with
  | Invoke | Select _ => true
  | Notify _ _ => notify
  | Printf _ _ _ => false
  end.

(** How many lines a trace prints. *)
Definition printed (t : list event) : nat :=
  List.length (filter is_Printf t).

(** How many calls of a run failed: all but the one that succeeded. *)
Definition failed_calls (r : result) (w : world) : nat :=
  match reason r with
  | Success => pred (calls w)
  | _ => calls w
  end.

(** *** Values of floats

    To compare floats the properties below count them in units of
    [2^-scale], small enough for every binary64 product to be a whole
    number of units. *)
Definition scale : Z := 2200.

(** The exponent of the spacing of the subnormal floats, [2^-1074], in
    those units. *)
Definition min_grid : Z := 1126.

(** What the positive infinity counts for: [2^1024]. *)
Definition overflow : Z := 2 ^ (1024 + scale).

(** The spacing of the floats around [v], as an exponent. *)
Definition grid_exp (v : Z) : Z := Z.max (Z.log2 v + 1 - 53) min_grid.

(** [v] rounded to the nearest float, ties to the even mantissa. *)
Definition rne (v : Z) : Z :=
  let g := 2 ^ grid_exp v in
  let q := v / g in
  let r := v mod g in
  if (g <? 2 * r) || ((g =? 2 * r) && Z.odd q) then (q + 1) * g else q * g.

(** The mantissa [M] after [n] shifts to the right, with the last bit
    shifted out and whether any bit before it was set. *)
Definition shifted (M : Z) (n : Z) : shr_record :=
  {| shr_m := M / 2 ^ n;
     shr_r := Z.odd (M / 2 ^ (n - 1));
     shr_s := negb (M mod 2 ^ (n - 1) =? 0) |}.

(** The exponent binary64 gives a number of magnitude [2^x]. *)
Definition fexp64 (x : Z) : Z := Z.max (x - 53) (-1074).

(** The value of a float that is not negative, in units of [2^-scale],
    with [overflow] for the infinity. *)
Definition xv (f : spec_float) : Z :=
  match f with
  | S754_zero _ => 0
  | S754_finite false m e => Zpos m * 2 ^ (e + scale)
  | S754_infinity false => overflow
  | _ => -1
  end.

(** [R] is what the rounded value [v] is stored as. *)
Definition rounds_to (R : spec_float) (v : Z) : Prop :=
  match R with
  | S754_zero false => v = 0
  | S754_finite false m e => -1074 <= e /\ Zpos m * 2 ^ (e + scale) = v
  | S754_infinity false => overflow <= v
  | _ => False
  end.

(** Zero, a positive finite float or the positive infinity. *)
Definition nonneg_ext (f : spec_float) : bool :=
  match f with
  | S754_zero _ | S754_finite false _ _ | S754_infinity false => true
  | _ => false
  end.

(** Zero or a positive finite float. *)
Definition nonneg_fin (f : spec_float) : bool :=
  match f with
  | S754_zero _ | S754_finite false _ _ => true
  | _ => false
  end.

(** Splits a loop body into the paths the source has. *)
Ltac body_step :=
  unfold quiet, emit; cbn [negb fst snd calls draws selects trace].

Ltac body_paths env w attempt config :=
  unfold Do_body, DoWithNotify_body, bind, call, printf, backoff_for,
    call_notify, select_Done, ret;
  body_step;
  destruct (operation env (calls w)) as [?err|] eqn:?Hop; body_step;
  [ match goal with
    | |- context [IsRetryable ?e] => destruct (IsRetryable e) eqn:?Hretry
    end; body_step;
    [ destruct (attempt =? MaxRetries config) eqn:?Hlast; body_step;
      [ | match goal with
          | |- context [ctx_Done env ?k ?d] =>
              destruct (ctx_Done env k d) eqn:?Hdone; body_step
          end ]
    | ]
  | ].

(** ** Notions of the further properties *)

(** What the pass with index [i] of [Do] leaves in the trace: the call,
    the line printed when the call fails, and the wait when the error is
    retryable. *)
Definition Do_pass (lib : Library) (env : Env) (config : Config) (i : nat)
    : list event :=
  match operation env i with
  | None => [Invoke]
  | Some err =>
      Invoke :: Printf (Z.of_nat i) (MaxRetries config) err ::
      (if IsRetryable err
       then [Select (calculateBackoff lib (rand_Float64 env i) (Z.of_nat i)
                       config)]
       else [])
  end.

(** The same for [DoWithNotify]: no line is printed, and the callback,
    when there is one, is called just before the wait. *)
Definition DoWithNotify_pass (lib : Library) (env : Env) (config : Config)
    (notify : bool) (i : nat) : list event :=
  match operation env i with
  | None => [Invoke]
  | Some err =>
      Invoke ::
      (if IsRetryable err
       then
         let backoff :=
           calculateBackoff lib (rand_Float64 env i) (Z.of_nat i) config in
         (if notify then [Notify err backoff] else []) ++ [Select backoff]
       else [])
  end.

(** Two worlds in which the operation has been called, the random source
    drawn from and the context waited on equally often. *)
Definition same_counts (w1 w2 : world) : Prop :=
  calls w1 = calls w2 /\ draws w1 = draws w2 /\ selects w1 = selects w2.

(** An operation after [simpleRetryExample]: two marked failures, then
    success. *)
Definition flaky_env : Env := {|
  operation := fun k =>
    if (k <? 2)%nat then Some (RetryableError (errorString "simulated failure"))
    else None;
  rand_Float64 := fun _ => 0.5%float;
  ctx_Done := fun _ _ => false
|}.

(** ** The callers of the package *)

(** What a run of a caller meets besides its own operation: the draws of
    [rand.Float64()] and the context. *)
Definition caller_env (rand : nat -> float) (done : nat -> Duration -> bool)
    (op : nat -> option error) : Env :=
  {| operation := op; rand_Float64 := rand; ctx_Done := done |}.

(** *** [RetryableHTTPClient] *)

(** An [*http.Response], as far as the client looks at it: the status
    code and the bytes [io.ReadAll] reads of its body. *)
Record Response : Type := {
  StatusCode : Z;
  Body : string
}.

(** What [c.client.Do(req)] returns: an error, with the response that
    may come with it, or a response and a nil error. *)
Inductive round_trip : Type :=
| Failed (resp : option Response) (err : error)
| Answered (resp : Response).

Definition response_of (rt : round_trip) : option Response :=
  match rt with
  | Failed resp _ => resp
  | Answered resp => Some resp
  end.

(** The verb [%d] of package [fmt] on an [int]. *)
Definition format_d (n : Z) : string :=
  DecimalString.NilZero.string_of_int (Z.to_int n).

(** [NewRetryableHTTPClient]: the retry configuration of the client. *)
Definition NewRetryableHTTPClient : Config := {|
  MaxRetries := 3;
  InitialBackoff := 100 * Millisecond;
  MaxBackoff := 5 * Second;
  BackoffFactor := 2;
  JitterFactor := 0.1
|}.

(** The function literal [RetryableHTTPClient.Do] passes to [retry.Do],
    on what [c.client.Do(req)] returned.  [fmt.Errorf] without [%w]
    gives a leaf error. *)
Definition RetryableHTTPClient_operation (rt : round_trip) : option error :=
  match rt with
  | Failed _ err => Some (RetryableError err)
  | Answered resp =>
      if IsRetryableHTTPStatus (StatusCode resp) then
        Some (RetryableError
                (errorString
                   (String.append "retryable HTTP status "
                      (String.append (format_d (StatusCode resp))
                         (String.append ": " (Body resp))))))
      else None
  end.

(** [RetryableHTTPClient.Do]: [read_body] is the error of
    [io.ReadAll(req.Body)], [None] when the request has no body or the
    read succeeds; [client_Do k] is what the request with index [k]
    returns.  The result is the pair [(resp, err)]: [resp] is what the
    last request left in the variable, nil when none was made. *)
Definition RetryableHTTPClient_Do (lib : Library) (rand : nat -> float)
    (done : nat -> Duration -> bool) (retryConfig : Config)
    (read_body : option error) (client_Do : nat -> round_trip)
    : (option Response * option error) * world :=
  match read_body with
  | Some err =>
      ((None, Some (Errorf lib "failed to read request body: " (Some err))),
       start)
  | None =>
      let (r, w) :=
        Do lib
          (caller_env rand done
             (fun k => RetryableHTTPClient_operation (client_Do k)))
          retryConfig in
      ((match calls w with
        | O => None
        | S k => response_of (client_Do k)
        end, returned r), w)
  end.

(** *** [OrderService] *)

(** [strings.Contains]: [substr] starts at some index of [s]. *)
Fixpoint strings_Contains (s substr : string) : bool :=
  String.prefix substr s ||
  match s with
  | EmptyString => false
  | String _ s' => strings_Contains s' substr
  end.

(** [isTransientDBError]; [ToLower] is [strings.ToLower], a function of
    Go's library. *)
Definition isTransientDBError (ToLower : string -> string) (lib : Library)
    (err : option error) : bool :=
  match err with
  | None => false
  | Some err =>
      let errStr := ToLower (Error lib err) in
      if strings_Contains errStr "connection refused" ||
         strings_Contains errStr "connection reset" ||
         strings_Contains errStr "broken pipe"
      then true
      else if strings_Contains errStr "deadlock" then true
      else if strings_Contains errStr "timeout" then true
      else false
  end.

(** [strings.ToLower] on a string of ASCII bytes, for instances. *)
Definition lower_byte (c : Ascii.ascii) : Ascii.ascii :=
  let n := Ascii.nat_of_ascii c in
  if (65 <=? n)%nat && (n <=? 90)%nat then Ascii.ascii_of_nat (n + 32) else c.

Fixpoint ToLower_ASCII (s : string) : string :=
  match s with
  | EmptyString => EmptyString
  | String c s' => String (lower_byte c) (ToLower_ASCII s')
  end.

(** What the four database calls of one run of the function literal of
    [CreateOrder] return as their error: [s.db.BeginTx],
    [tx.QueryRowContext(...).Scan], [tx.ExecContext] and [tx.Commit].  A
    call is made only when those before it returned nil. *)
Record Transaction : Type := {
  BeginTx : option error;
  QueryRowContext_Scan : option error;
  ExecContext : option error;
  Commit : option error
}.

(** The function literal [CreateOrder] passes to [retry.Do].  The
    deferred [tx.Rollback()] has its result discarded. *)
Definition CreateOrder_operation (ToLower : string -> string) (lib : Library)
    (tx : Transaction) : option error :=
  match BeginTx tx with
  | Some err =>
      if isTransientDBError ToLower lib (Some err)
      then Some (RetryableError err)
      else Some err
  | None =>
      match QueryRowContext_Scan tx with
      | Some err =>
          if isTransientDBError ToLower lib (Some err)
          then Some (RetryableError err)
          else Some err
      | None =>
          match ExecContext tx with
          | Some err =>
              if isTransientDBError ToLower lib (Some err)
              then Some (RetryableError err)
              else Some err
          | None => Commit tx
          end
      end
  end.

(** [NewOrderService]: the retry configuration of the service. *)
Definition NewOrderService : Config := {|
  MaxRetries := 3;
  InitialBackoff := 50 * Millisecond;
  MaxBackoff := 2 * Second;
  BackoffFactor := 2;
  JitterFactor := 0.1
|}.

(** [OrderService.CreateOrder]; [db k] is what the database calls of
    the run with index [k] of the function literal return. *)
Definition CreateOrder (ToLower : string -> string) (lib : Library)
    (rand : nat -> float) (done : nat -> Duration -> bool)
    (retryConfig : Config) (db : nat -> Transaction) : result * world :=
  Do lib
    (caller_env rand done (fun k => CreateOrder_operation ToLower lib (db k)))
    retryConfig.

(** The error of the first database call that fails before the
    commit. *)
Definition failed_before_Commit (tx : Transaction) : option error :=
  match BeginTx tx with
  | Some err => Some err
  | None =>
      match QueryRowContext_Scan tx with
      | Some err => Some err
      | None => ExecContext tx
      end
  end.

(** Instances after the examples of the repository: a server that
    answers 503 twice and then 200, a transport that fails because the
    context was cancelled, a database that refuses every connection,
    and one whose commit meets a deadlock. *)
Definition unavailable : Response :=
  {| StatusCode := 503; Body := "Service temporarily unavailable" |}.

Definition payment_processed : Response :=
  {| StatusCode := 200; Body := "Payment processed" |}.

Definition recovering_server (k : nat) : round_trip :=
  if (k <? 2)%nat then Answered unavailable else Answered payment_processed.

Definition cancelled_transport (k : nat) : round_trip :=
  Failed None (wrapError "Post: context canceled" ctxCanceled).

Definition refusing_db (k : nat) : Transaction :=
  {| BeginTx := Some (Errno ECONNREFUSED);
     QueryRowContext_Scan := None;
     ExecContext := None;
     Commit := None |}.

Definition deadlocked_commit_db (k : nat) : Transaction :=
  {| BeginTx := None;
     QueryRowContext_Scan := None;
     ExecContext := None;
     Commit := Some (errorString "pq: deadlock detected") |}.

(** An operation that fails retryably twice and then for good. *)
Definition fatal_after_env : Env := {|
  operation := fun k =>
    if (k <? 2)%nat then Some always_fails else Some (errorString "fatal");
  rand_Float64 := fun _ => 0.5%float;
  ctx_Done := fun _ _ => false
|}.

(** The value of a float with its sign set aside, in units of
    [2^-scale]. *)
Definition magnitude (f : spec_float) : Z := xv (SFabs f).

(** The time a trace spends waiting: the sum of the durations of its
    waits. *)
Definition total_wait (t : list event) : Duration :=
  fold_right (fun ev acc =>
                match ev with
                | Select d => d + acc
                | _ => acc
                end) 0 t.

(** A policy that does not grow: the growth factor is 1. *)
Definition steady_config : Config := {|
  MaxRetries := 3;
  InitialBackoff := 10 * Millisecond;
  MaxBackoff := 50 * Millisecond;
  BackoffFactor := 1;
  JitterFactor := 0.5
|}.

(** Two policies the backoff calculator is run on far from its tests: a
    policy without an initial wait, and one whose [MaxBackoff] is the
    largest [time.Duration], [math.MaxInt64] nanoseconds.  Both have a
    growth factor above 1 and no jitter, and
    [0 <= InitialBackoff <= MaxBackoff]. *)
Definition zero_initial_config : Config := {|
  MaxRetries := 2000;
  InitialBackoff := 0;
  MaxBackoff := 5 * Second;
  BackoffFactor := 2;
  JitterFactor := 0
|}.

Definition uncapped_config : Config := {|
  MaxRetries := 64;
  InitialBackoff := 100 * Millisecond;
  MaxBackoff := 2 ^ 63 - 1;
  BackoffFactor := 2;
  JitterFactor := 0
|}.

(** ** Properties of the classifier *)

Lemma Is_unfold err target :
  Is err target =
  same_error err target || existsb (fun e => Is e target) (unwrapped err).
Proof.
  destruct err as [s| | |e|m e|m tp to [e|]|n|es]; cbn [Is unwrapped existsb];
    rewrite ?orb_false_r; reflexivity.
Qed.

Lemma Wraps_Is target err :
  same_error target target = true -> Wraps target err -> Is err target = true.
Proof.
  intros Hrefl H. induction H as [|err e Hin _ IH].
  - rewrite Is_unfold, Hrefl. reflexivity.
  - rewrite Is_unfold. apply orb_true_iff. right.
    apply existsb_exists. exists e. split; assumption.
Qed.

(** C1 (cancellation part, as the code has it). An error that is, or wraps,
    [context.Canceled] is never retryable, whatever else its chain holds:
    a retryable marker, a temporary or timed-out transport error, an
    errno. *)
Theorem IsRetryable_Canceled (err : error) :
  Wraps ctxCanceled err -> IsRetryable err = false.
Proof.
  intro H. unfold IsRetryable.
  rewrite (Wraps_Is ctxCanceled err eq_refl H). reflexivity.
Qed.

Lemma IsRetryable_Canceled_witness :
  Wraps ctxCanceled
    (RetryableError (netError "dial" true true (Some ctxCanceled))) /\
  IsRetryable (RetryableError (netError "dial" true true (Some ctxCanceled)))
  = false.
Proof.
  assert (H : Wraps ctxCanceled
                (RetryableError (netError "dial" true true (Some ctxCanceled)))).
  { apply Wraps_under with (e := netError "dial" true true (Some ctxCanceled)).
    - simpl. left. reflexivity.
    - apply Wraps_under with (e := ctxCanceled).
      + simpl. left. reflexivity.
      + apply Wraps_here. }
  split; [exact H | exact (IsRetryable_Canceled _ H)].
Defined.

(** C1 as stated fails for deadline expiry: [context.DeadlineExceeded]
    is no target of the first rule.  Wrapped in the retryable marker it is
    retryable by the second rule, and bare it is retryable by the third,
    its [Timeout] and [Temporary] methods both answering true. *)
Lemma IsRetryable_DeadlineExceeded :
  Wraps ctxDeadlineExceeded (RetryableError ctxDeadlineExceeded) /\
  IsRetryable (RetryableError ctxDeadlineExceeded) = true /\
  IsRetryable ctxDeadlineExceeded = true.
Proof.
  split; [|split; reflexivity].
  apply Wraps_under with (e := ctxDeadlineExceeded).
  - simpl. left. reflexivity.
  - apply Wraps_here.
Qed.

(** ** Properties of the backoff calculator *)

Lemma Prim2SF_zero : Prim2SF 0%float = S754_zero false.
Proof. reflexivity. Qed.

(** A finite float times zero is a zero. *)
Lemma mul_zero_r (c z : float) (s : bool) :
  finite64 c = true -> Prim2SF z = S754_zero s ->
  exists s', Prim2SF (c * z) = S754_zero s'.
Proof.
  unfold finite64. intros Hc Hz. rewrite mul_spec, Hz.
  destruct (Prim2SF c) as [sc|sc| |sc m e]; try discriminate;
    eexists; reflexivity.
Qed.

Lemma mul_zero_l (z b : float) (s : bool) :
  Prim2SF z = S754_zero s -> finite64 b = true ->
  exists s', Prim2SF (z * b) = S754_zero s'.
Proof.
  unfold finite64. intros Hz Hb. rewrite mul_spec, Hz.
  destruct (Prim2SF b) as [sb|sb| |sb m e]; try discriminate;
    eexists; reflexivity.
Qed.

Lemma nonneg64_finite64 (b : float) : nonneg64 b = true -> finite64 b = true.
Proof.
  unfold nonneg64, finite64.
  destruct (Prim2SF b) as [sb|sb| |[|] m e]; congruence.
Qed.

(** Adding a zero to a finite float that is not negative leaves its
    conversion to an integer, and its not being negative, as they were. *)
Lemma add_zero_r (b z : float) (s : bool) :
  nonneg64 b = true -> Prim2SF z = S754_zero s ->
  (b + z <? 0)%float = false /\
  int64_of_float64 (b + z) = int64_of_float64 b.
Proof.
  unfold nonneg64, int64_of_float64. intros Hb Hz.
  rewrite ltb_spec, add_spec, Hz, Prim2SF_zero.
  destruct (Prim2SF b) as [sb|sb| |[|] m e]; try discriminate.
  - destruct sb, s; split; reflexivity.
  - split; reflexivity.
Qed.

(** With a jitter factor of zero the jitter is a zero, the sum is the
    clamped exponential and no floor applies. *)
Lemma calculateBackoff_clamped (lib : Library) (u : float) (attempt : Z)
    (config : Config) :
  JitterFactor config = 0%float ->
  finite64 (u - 0.5) = true ->
  nonneg64 (clamped_exponential lib attempt config) = true ->
  calculateBackoff lib u attempt config =
  int64_of_float64 (clamped_exponential lib attempt config).
Proof.
  intros Hj Hu Hb. unfold calculateBackoff. rewrite Hj.
  fold (float64_min
          (float64_of_int (InitialBackoff config) *
           math_Pow lib (BackoffFactor config) (float64_of_int attempt))
          (float64_of_int (MaxBackoff config))).
  fold (clamped_exponential lib attempt config).
  set (b := clamped_exponential lib attempt config) in *.
  destruct (mul_zero_r (u - 0.5) 0 false Hu Prim2SF_zero) as [s1 H1].
  destruct (mul_zero_l _ b s1 H1 (nonneg64_finite64 b Hb)) as [s2 H2].
  destruct (add_zero_r b _ s2 Hb H2) as [Hlt Hint].
  cbv zeta. rewrite Hlt. exact Hint.
Qed.

(** *** Rounding to the nearest float is monotone *)

Lemma grid_exp_mono v1 v2 : 0 < v1 <= v2 -> grid_exp v1 <= grid_exp v2.
Proof.
  intros H. unfold grid_exp.
  pose proof (Z.log2_le_mono v1 v2 ltac:(lia)). lia.
Qed.

Lemma grid_exp_pos v : 0 <= grid_exp v.
Proof. unfold grid_exp, min_grid. lia. Qed.

(** The rounded value is one of the two grid points around [v]. *)
Lemma rne_bounds v :
  0 < v ->
  let g := 2 ^ grid_exp v in
  (v / g) * g <= rne v <= (v / g + 1) * g.
Proof.
  intros Hv g. unfold rne. fold g.
  assert (0 < g) by (apply Z.pow_pos_nonneg; [lia|apply grid_exp_pos]).
  destruct ((g <? 2 * (v mod g)) || ((g =? 2 * (v mod g)) && Z.odd (v / g))); nia.
Qed.

(** Rounding never reverses the order of two values: on one grid the
    quotient and then the remainder decide, and a value on a coarser grid
    rounds to at least the power of two that bounds the finer one. *)
Lemma rne_mono v1 v2 : 0 < v1 <= v2 -> rne v1 <= rne v2.
Proof.
  intros H.
  pose proof (grid_exp_mono v1 v2 H) as He.
  pose proof (grid_exp_pos v1) as H1. pose proof (grid_exp_pos v2) as H2.
  destruct (Z.eq_dec (grid_exp v1) (grid_exp v2)) as [Heq|Hne].
  - (* same grid *)
    unfold rne. rewrite <- Heq.
    set (g := 2 ^ grid_exp v1).
    assert (Hg : 0 < g) by (apply Z.pow_pos_nonneg; lia).
    pose proof (Z.div_le_mono v1 v2 g Hg ltac:(lia)) as Hq.
    pose proof (Z.div_mod v1 g ltac:(lia)) as D1.
    pose proof (Z.div_mod v2 g ltac:(lia)) as D2.
    pose proof (Z.mod_pos_bound v1 g Hg) as M1.
    pose proof (Z.mod_pos_bound v2 g Hg) as M2.
    destruct (Z.eq_dec (v1 / g) (v2 / g)) as [Hqq|Hqq].
    + rewrite <- Hqq in *.
      assert (v1 mod g <= v2 mod g) by lia.
      destruct (g <? 2 * (v1 mod g)) eqn:A1; destruct (g <? 2 * (v2 mod g)) eqn:A2;
      destruct (g =? 2 * (v1 mod g)) eqn:B1; destruct (g =? 2 * (v2 mod g)) eqn:B2;
      destruct (Z.odd (v1 / g)); cbn [orb andb]; try lia.
    + assert (v1 / g + 1 <= v2 / g) by lia.
      destruct ((g <? 2 * (v1 mod g)) || ((g =? 2 * (v1 mod g)) && Z.odd (v1 / g)));
      destruct ((g <? 2 * (v2 mod g)) || ((g =? 2 * (v2 mod g)) && Z.odd (v2 / g))); nia.
  - (* coarser grid for v2 *)
    assert (Hlt : grid_exp v1 < grid_exp v2) by lia.
    pose proof (rne_bounds v1 ltac:(lia)) as [_ Hup]. cbv zeta in Hup.
    pose proof (rne_bounds v2 ltac:(lia)) as [Hlo _]. cbv zeta in Hlo.
    pose proof (Z.log2_spec v1 ltac:(lia)) as L1.
    pose proof (Z.log2_spec v2 ltac:(lia)) as L2.
    pose proof (Z.log2_nonneg v1) as N1.
    pose proof (Z.log2_nonneg v2) as N2.
    assert (E2 : grid_exp v2 = Z.log2 v2 - 52) by (unfold grid_exp in *; lia).
    (* lower bound for v2 *)
    assert (Hv2 : 2 ^ Z.log2 v2 <= rne v2).
    { eapply Z.le_trans; [|exact Hlo].
      rewrite E2.
      assert (2 ^ Z.log2 v2 = 2 ^ 52 * 2 ^ (Z.log2 v2 - 52)) as ->.
      { rewrite <- Z.pow_add_r by lia. f_equal. lia. }
      apply Z.mul_le_mono_nonneg_r; [apply Z.pow_nonneg; lia|].
      apply Z.div_le_lower_bound; [apply Z.pow_pos_nonneg; lia|].
      rewrite Z.mul_comm.
      assert (2 ^ 52 * 2 ^ (Z.log2 v2 - 52) = 2 ^ Z.log2 v2) as ->.
      { rewrite <- Z.pow_add_r by lia. f_equal. lia. }
      lia. }
    (* upper bound for v1 *)
    assert (Hv1 : rne v1 <= 2 ^ Z.log2 v2).
    { eapply Z.le_trans; [exact Hup|].
      set (e1 := grid_exp v1) in *.
      assert (Hk : exists k, 0 <= k /\ Z.log2 v1 + 1 <= e1 + k /\ e1 + k <= Z.log2 v2).
      { subst e1. unfold grid_exp in *.
        exists 53. lia. }
      destruct Hk as [k [Hk0 [Hk1 Hk2]]].
      assert (v1 / 2 ^ e1 < 2 ^ k).
      { apply Z.div_lt_upper_bound; [apply Z.pow_pos_nonneg; lia|].
        rewrite <- Z.pow_add_r by lia.
        eapply Z.lt_le_trans; [apply L1|].
        apply Z.pow_le_mono_r; lia. }
      assert ((v1 / 2 ^ e1 + 1) * 2 ^ e1 <= 2 ^ k * 2 ^ e1).
      { apply Z.mul_le_mono_nonneg_r; [apply Z.pow_nonneg; lia|lia]. }
      rewrite <- Z.pow_add_r in H3 by lia.
      eapply Z.le_trans; [exact H3|]. apply Z.pow_le_mono_r; lia. }
    lia.
Qed.

(** *** Shifting with round and sticky bits *)

Lemma iter_pos_comm {A} (f : A -> A) (p : positive) :
  forall x, iter_pos f p (f x) = f (iter_pos f p x).
Proof.
  induction p as [p IH|p IH|]; intro x; cbn [iter_pos].
  - rewrite !IH. reflexivity.
  - rewrite !IH. reflexivity.
  - reflexivity.
Qed.

(** [iter_pos] of SpecFloat applies its function [p] times. *)
Lemma iter_pos_nat {A} (f : A -> A) (p : positive) :
  forall x, iter_pos f p x = Nat.iter (Pos.to_nat p) f x.
Proof.
  induction p as [p IH|p IH|]; intro x; cbn [iter_pos].
  - rewrite Pos2Nat.inj_xI.
    replace (S (2 * Pos.to_nat p))%nat with (Pos.to_nat p + S (Pos.to_nat p))%nat by lia.
    rewrite Nat.iter_add. cbn [Nat.iter nat_rect].
    rewrite !IH. f_equal.
    rewrite <- IH, iter_pos_comm, IH. reflexivity.
  - rewrite Pos2Nat.inj_xO.
    replace (2 * Pos.to_nat p)%nat with (Pos.to_nat p + Pos.to_nat p)%nat by lia.
    rewrite Nat.iter_add, !IH. reflexivity.
  - reflexivity.
Qed.

Lemma shr_1_spec (m : Z) (r s : bool) :
  0 <= m ->
  shr_1 {| shr_m := m; shr_r := r; shr_s := s |} =
  {| shr_m := m / 2; shr_r := Z.odd m; shr_s := r || s |}.
Proof.
  intro Hm. rewrite <- Z.div2_div.
  destruct m as [|[p|p|]|]; try lia; reflexivity.
Qed.

Lemma shifted_succ (M n : Z) :
  0 <= M -> 1 <= n -> shr_1 (shifted M n) = shifted M (n + 1).
Proof.
  intros HM Hn. unfold shifted.
  rewrite shr_1_spec by (apply Z.div_pos; [lia|apply Z.pow_pos_nonneg; lia]).
  replace (n + 1 - 1) with n by lia.
  f_equal.
  - rewrite Z.pow_add_r, Z.pow_1_r by lia.
    rewrite Z.div_div by (try apply Z.pow_pos_nonneg; lia). reflexivity.
  - (* sticky *)
    assert (H2 : 2 ^ n = 2 * 2 ^ (n - 1)).
    { rewrite <- Z.pow_succ_r by lia. f_equal. lia. }
    assert (Hp : 0 < 2 ^ (n - 1)) by (apply Z.pow_pos_nonneg; lia).
    rewrite H2.
    rewrite Z.mul_comm, Z.rem_mul_r by lia.
    pose proof (Z.mod_pos_bound M (2 ^ (n - 1)) Hp).
    pose proof (Z.mod_pos_bound (M / 2 ^ (n - 1)) 2 ltac:(lia)).
    rewrite (Zmod_odd (M / 2 ^ (n - 1))) in *.
    destruct (Z.odd (M / 2 ^ (n - 1))); cbn [orb].
    + symmetry. apply negb_true_iff, Z.eqb_neq. nia.
    + rewrite Z.mul_0_r, Z.add_0_r. reflexivity.
Qed.

Lemma shifted_one (M : Z) :
  0 <= M ->
  shr_1 {| shr_m := M; shr_r := false; shr_s := false |} = shifted M 1.
Proof.
  intro HM. rewrite shr_1_spec by lia. unfold shifted.
  cbn [Z.sub Z.pow Z.pow_pos Pos.iter Z.mul Pos.mul orb].
  rewrite Z.div_1_r, Z.mod_1_r. reflexivity.
Qed.

Lemma iter_shr_1 (M : Z) (n : nat) :
  0 <= M ->
  Nat.iter (S n) shr_1 {| shr_m := M; shr_r := false; shr_s := false |} =
  shifted M (Z.of_nat (S n)).
Proof.
  intro HM. induction n as [|n IH].
  - cbn [Nat.iter nat_rect]. apply shifted_one. exact HM.
  - change (Nat.iter (S (S n)) shr_1 ?x) with (shr_1 (Nat.iter (S n) shr_1 x)).
    rewrite IH, shifted_succ by lia. f_equal. lia.
Qed.

(** [shr] on an exact mantissa is a division by a power of two that
    remembers the bits it drops. *)
Lemma shr_exact (M E n : Z) :
  0 <= M ->
  shr {| shr_m := M; shr_r := false; shr_s := false |} E n =
  if 0 <? n then (shifted M n, E + n)
  else ({| shr_m := M; shr_r := false; shr_s := false |}, E).
Proof.
  intro HM. unfold shr. destruct n as [|p|p]; try reflexivity.
  cbn [Z.ltb Z.compare]. f_equal.
  rewrite iter_pos_nat.
  destruct (Pos2Nat.is_succ p) as [k Hk]. rewrite Hk.
  rewrite iter_shr_1 by exact HM. rewrite <- Hk, positive_nat_Z. reflexivity.
Qed.

(** *** Rounding of a positive mantissa *)

Lemma digits2_pos_size (p : positive) : digits2_pos p = Pos.size p.
Proof. induction p as [p IH|p IH|]; cbn; congruence. Qed.

Lemma Zdigits2_log2 (p : positive) : Zdigits2 (Zpos p) = Z.log2 (Zpos p) + 1.
Proof.
  cbn [Zdigits2]. rewrite digits2_pos_size.
  destruct p as [p|p|]; cbn [Z.log2 Pos.size]; lia.
Qed.

Lemma fexp_64 (x : Z) : fexp prec emax x = fexp64 x.
Proof. reflexivity. Qed.

Lemma log2_scaled (M k : Z) : 0 < M -> 0 <= k -> Z.log2 (M * 2 ^ k) = Z.log2 M + k.
Proof. intros. rewrite Z.log2_mul_pow2 by lia. lia. Qed.

(** Rounding the shifted mantissa with its round and sticky bits is
    [rne] of the value. *)
Lemma rne_of_shift (M E n : Z) :
  0 < M -> - scale <= E -> 0 < n ->
  grid_exp (M * 2 ^ (E + scale)) = E + n + scale ->
  rne (M * 2 ^ (E + scale)) =
  round_nearest_even (shr_m (shifted M n)) (loc_of_shr_record (shifted M n))
  * 2 ^ (E + n + scale).
Proof.
  intros HM HE Hn Hg. unfold rne. rewrite Hg.
  assert (Hs : 0 < 2 ^ (E + scale)) by (apply Z.pow_pos_nonneg; unfold scale in *; lia).
  assert (Hn1 : 0 < 2 ^ (n - 1)) by (apply Z.pow_pos_nonneg; lia).
  assert (Hnn : 2 ^ n = 2 * 2 ^ (n - 1)).
  { rewrite <- Z.pow_succ_r by lia. f_equal. lia. }
  assert (Hgs : 2 ^ (E + n + scale) = 2 ^ n * 2 ^ (E + scale)).
  { rewrite <- Z.pow_add_r by (unfold scale in *; lia). f_equal. lia. }
  rewrite Hgs.
  rewrite Z.div_mul_cancel_r by lia.
  rewrite Z.mul_mod_distr_r by lia.
  unfold shifted. cbn [shr_m shr_r shr_s loc_of_shr_record].
  set (q := M / 2 ^ n).
  pose proof (Z.div_mod M (2 ^ (n - 1)) ltac:(lia)) as D1.
  pose proof (Z.mod_pos_bound M (2 ^ (n - 1)) Hn1) as B1.
  assert (Hmod : M mod 2 ^ n =
                 (if Z.odd (M / 2 ^ (n - 1)) then 2 ^ (n - 1) else 0)
                 + M mod 2 ^ (n - 1)).
  { rewrite Hnn, Z.mul_comm, Z.rem_mul_r by lia.
    rewrite Zmod_odd. destruct (Z.odd (M / 2 ^ (n - 1))); lia. }
  rewrite Hmod.
  destruct (Z.odd (M / 2 ^ (n - 1))) eqn:Hr;
    destruct (M mod 2 ^ (n - 1) =? 0) eqn:Hz; cbn [negb];
    [apply Z.eqb_eq in Hz|apply Z.eqb_neq in Hz
    |apply Z.eqb_eq in Hz|apply Z.eqb_neq in Hz];
    cbn [round_nearest_even].
  - (* half way *)
    rewrite Hz, Z.add_0_r.
    assert ((2 ^ n * 2 ^ (E + scale) <? 2 * (2 ^ (n - 1) * 2 ^ (E + scale))) = false) as ->
      by (apply Z.ltb_ge; nia).
    assert ((2 ^ n * 2 ^ (E + scale) =? 2 * (2 ^ (n - 1) * 2 ^ (E + scale))) = true) as ->
      by (apply Z.eqb_eq; nia).
    cbn [orb andb]. rewrite <- Z.negb_odd.
    destruct (Z.odd q); reflexivity.
  - (* above half *)
    assert ((2 ^ n * 2 ^ (E + scale) <?
             2 * ((2 ^ (n - 1) + M mod 2 ^ (n - 1)) * 2 ^ (E + scale))) = true) as ->
      by (apply Z.ltb_lt; nia).
    reflexivity.
  - (* exact *)
    rewrite Hz. cbn [Z.add Z.mul].
    assert ((2 ^ n * 2 ^ (E + scale) <? 0) = false) as -> by (apply Z.ltb_ge; nia).
    assert ((2 ^ n * 2 ^ (E + scale) =? 0) = false) as -> by (apply Z.eqb_neq; nia).
    reflexivity.
  - (* below half *)
    cbn [Z.add].
    assert ((2 ^ n * 2 ^ (E + scale) <? 2 * (M mod 2 ^ (n - 1) * 2 ^ (E + scale))) = false) as ->
      by (apply Z.ltb_ge; nia).
    assert ((2 ^ n * 2 ^ (E + scale) =? 2 * (M mod 2 ^ (n - 1) * 2 ^ (E + scale))) = false) as ->
      by (apply Z.eqb_neq; nia).
    reflexivity.
Qed.

Lemma Zdigits2_nonneg (z : Z) :
  0 <= z -> Zdigits2 z = if z =? 0 then 0 else Z.log2 z + 1.
Proof.
  intro Hz. destruct z as [|p|p]; try lia; [reflexivity|].
  apply Zdigits2_log2.
Qed.

Lemma grid_exp_scaled (M E : Z) :
  0 < M -> - scale <= E ->
  grid_exp (M * 2 ^ (E + scale)) = fexp64 (Z.log2 M + 1 + E) + scale.
Proof.
  intros HM HE. unfold grid_exp, fexp64.
  rewrite log2_scaled by (unfold scale in *; lia). unfold scale, min_grid. lia.
Qed.

Lemma rne_exact (v e : Z) :
  0 < v -> grid_exp v <= e -> v mod 2 ^ e = 0 -> rne v = v.
Proof.
  intros Hv He Hmod. unfold rne.
  pose proof (grid_exp_pos v) as Hg.
  set (g := 2 ^ grid_exp v).
  assert (Hgp : 0 < g) by (apply Z.pow_pos_nonneg; lia).
  assert (Hdiv : v mod g = 0).
  { apply Z.mod_divide; [lia|].
    apply Z.mod_divide in Hmod; [|apply Z.pow_nonzero; lia].
    eapply Z.divide_trans; [|exact Hmod].
    exists (2 ^ (e - grid_exp v)). unfold g.
    rewrite <- Z.pow_add_r by lia. f_equal. lia. }
  rewrite Hdiv. cbn [Z.mul].
  assert ((g <? 0) = false) as -> by (apply Z.ltb_ge; lia).
  assert ((g =? 0) = false) as -> by (apply Z.eqb_neq; lia).
  cbn [orb andb].
  pose proof (Z.div_mod v g ltac:(lia)). lia.
Qed.

Lemma round_nearest_even_bounds (q : Z) (l : location) :
  q <= round_nearest_even q l <= q + 1.
Proof.
  destruct l as [|[| |]]; cbn [round_nearest_even]; try lia.
  destruct (Z.even q); lia.
Qed.

(** What [binary_round_aux] returns for the mantissa [m] and exponent
    [E] is [rne] of their value: a zero, a finite float worth just that,
    or the infinity when that is [2^1024] or more. *)
Lemma binary_round_aux_value (m : positive) (E : Z) :
  - scale <= E ->
  E <= 971 \/ 53 <= Z.log2 (Zpos m) + 1 ->
  rounds_to (binary_round_aux prec emax false (Zpos m) E loc_Exact)
    (rne (Zpos m * 2 ^ (E + scale))).
Proof.
  intros HE Hbig.
  set (M := Zpos m) in *. assert (HM : 0 < M) by (unfold M; lia).
  pose proof (Z.log2_spec M HM) as HL.
  pose proof (Z.log2_nonneg M) as HL0.
  pose proof (grid_exp_scaled M E HM HE) as Hgrid.
  assert (Hdig : Zdigits2 M = Z.log2 M + 1) by apply Zdigits2_log2.
  unfold binary_round_aux, shr_fexp.
  cbn [shr_record_of_loc].
  rewrite Hdig, fexp_64.
  rewrite shr_exact by lia.
  set (e0 := fexp64 (Z.log2 M + 1 + E)) in *.
  assert (He0 : -1074 <= e0 /\ Z.log2 M + 1 + E - 53 <= e0 /\
                (e0 = -1074 \/ e0 = Z.log2 M + 1 + E - 53))
    by (unfold e0, fexp64; lia).
  destruct (0 <? e0 - E) eqn:Hn.
  - (* the mantissa is shifted *)
    apply Z.ltb_lt in Hn.
    set (n := e0 - E) in *.
    assert (Hgn : grid_exp (M * 2 ^ (E + scale)) = E + n + scale) by (unfold n; lia).
    rewrite (rne_of_shift M E n HM HE Hn Hgn).
    set (mrs := shifted M n).
    set (m2 := round_nearest_even (shr_m mrs) (loc_of_shr_record mrs)).
    assert (Hq : 0 <= shr_m mrs < 2 ^ 53).
    { unfold mrs, shifted. cbn [shr_m]. split.
      - apply Z.div_pos; [lia|apply Z.pow_pos_nonneg; lia].
      - apply Z.div_lt_upper_bound; [apply Z.pow_pos_nonneg; lia|].
        rewrite <- Z.pow_add_r by lia.
        eapply Z.lt_le_trans; [apply HL|].
        apply Z.pow_le_mono_r; unfold n; lia. }
    pose proof (round_nearest_even_bounds (shr_m mrs) (loc_of_shr_record mrs))
      as Hm2. fold m2 in Hm2.
    replace (E + n) with e0 by (unfold n; lia).
    rewrite Zdigits2_nonneg, fexp_64 by lia.
    rewrite shr_exact by lia.
    destruct (m2 =? 0) eqn:Hz.
    + (* rounds to zero *)
      apply Z.eqb_eq in Hz.
      assert ((0 <? fexp64 (0 + e0) - e0) = false) as ->
        by (apply Z.ltb_ge; unfold fexp64; lia).
      cbn [shr_m]. rewrite Hz. cbn. reflexivity.
    + apply Z.eqb_neq in Hz.
      assert (Hm2pos : 0 < m2) by lia.
      pose proof (Z.log2_spec m2 Hm2pos) as HL2.
      pose proof (Z.log2_nonneg m2) as HL20.
      destruct (Z.eq_dec m2 (2 ^ 53)) as [Hcarry|Hnc].
      * (* the carry case *)
        assert (Hlog : Z.log2 m2 = 53) by (rewrite Hcarry; reflexivity).
        rewrite Hlog.
        assert (fexp64 (53 + 1 + e0) - e0 = 1) as -> by (unfold fexp64; lia).
        cbn [Z.ltb Z.compare]. unfold shifted. cbn [shr_m].
        rewrite Hcarry. change (2 ^ 53 / 2 ^ 1) with (Zpos (2 ^ 52)).
        cbv iota beta.
        destruct (e0 + 1 <=? emax - prec) eqn:Hov; cbn [rounds_to].
        -- split; [lia|].
           replace (e0 + 1 + scale) with (1 + (e0 + scale)) by lia.
           rewrite Z.pow_add_r by (unfold scale; lia). lia.
        -- apply Z.leb_gt in Hov. change (emax - prec) with 971 in Hov.
           unfold overflow.
           replace (2 ^ 53 * 2 ^ (e0 + scale)) with (2 ^ (53 + (e0 + scale)))
             by (rewrite Z.pow_add_r by (unfold scale; lia); reflexivity).
           apply Z.pow_le_mono_r; unfold scale; lia.
      * (* no carry *)
        assert (Hlt : m2 < 2 ^ 53) by lia.
        assert (Hlog : Z.log2 m2 <= 52).
        { apply Z.lt_succ_r. apply Z.log2_lt_pow2; [lia|]. exact Hlt. }
        assert ((0 <? fexp64 (Z.log2 m2 + 1 + e0) - e0) = false) as ->
          by (apply Z.ltb_ge; unfold fexp64; lia).
        cbn [shr_m].
        destruct m2 as [|p|p] eqn:Hp; try lia.
        destruct (e0 <=? emax - prec) eqn:Hov; cbn [rounds_to].
        -- split; [lia|reflexivity].
        -- apply Z.leb_gt in Hov. change (emax - prec) with 971 in Hov.
           assert (He : e0 = Z.log2 M + 1 + E - 53) by lia.
           assert (Hq52 : 2 ^ 52 <= shr_m mrs).
           { unfold mrs, shifted. cbn [shr_m].
             apply Z.div_le_lower_bound; [apply Z.pow_pos_nonneg; lia|].
             rewrite <- Z.pow_add_r by lia.
             replace (n + 52) with (Z.log2 M) by (unfold n; lia).
             apply HL. }
           unfold overflow.
           replace (2 ^ (1024 + scale)) with (2 ^ 52 * 2 ^ (972 + scale))
             by (rewrite <- Z.pow_add_r by (unfold scale; lia); reflexivity).
           assert (2 ^ (972 + scale) <= 2 ^ (e0 + scale))
             by (apply Z.pow_le_mono_r; unfold scale; lia).
           assert (0 < 2 ^ (972 + scale)) by (apply Z.pow_pos_nonneg; unfold scale; lia).
           nia.
  - (* the mantissa is kept *)
    apply Z.ltb_ge in Hn.
    cbn [shr_m loc_of_shr_record round_nearest_even].
    rewrite Hdig, fexp_64. fold e0.
    rewrite shr_exact by lia.
    assert ((0 <? e0 - E) = false) as -> by (apply Z.ltb_ge; lia).
    cbn [shr_m]. unfold M at 1.
    assert (Hv : rne (M * 2 ^ (E + scale)) = M * 2 ^ (E + scale)).
    { apply rne_exact with (e := E + scale).
      - apply Z.mul_pos_pos; [lia|apply Z.pow_pos_nonneg; unfold scale in *; lia].
      - lia.
      - apply Z.mod_mul. apply Z.pow_nonzero; unfold scale in *; lia. }
    rewrite Hv.
    destruct (E <=? emax - prec) eqn:Hov; cbn [rounds_to].
    + apply Z.leb_le in Hov. split; [lia|reflexivity].
    + apply Z.leb_gt in Hov. change (emax - prec) with 971 in Hov.
      assert (Hd : Z.log2 M = 52) by lia.
      unfold overflow.
      replace (2 ^ (1024 + scale)) with (2 ^ 52 * 2 ^ (972 + scale))
        by (rewrite <- Z.pow_add_r by (unfold scale; lia); reflexivity).
      assert (2 ^ (972 + scale) <= 2 ^ (E + scale))
        by (apply Z.pow_le_mono_r; unfold scale; lia).
      assert (0 < 2 ^ (972 + scale)) by (apply Z.pow_pos_nonneg; unfold scale; lia).
      rewrite Hd in HL. nia.
Qed.

(** *** Order of valid floats *)

(** A valid finite float has at most 53 mantissa bits, and exactly 53
    unless its exponent is the least one. *)
Lemma valid_finite (s : bool) (m : positive) (e : Z) :
  valid_binary (S754_finite s m e) = true ->
  -1074 <= e <= 971 /\ Z.log2 (Zpos m) <= 52 /\
  (-1074 < e -> Z.log2 (Zpos m) = 52).
Proof.
  cbn [SpecFloat.valid_binary]. unfold bounded, canonical_mantissa.
  intro H. apply andb_true_iff in H as [Hc Hb].
  apply Z.eqb_eq in Hc. apply Z.leb_le in Hb.
  change (Zpos (digits2_pos m)) with (Zdigits2 (Zpos m)) in Hc.
  rewrite Zdigits2_log2, fexp_64 in Hc. unfold fexp64 in Hc.
  change (emax - prec) with 971 in Hb.
  pose proof (Z.log2_nonneg (Zpos m)). lia.
Qed.

Lemma valid_finite_bounds (s : bool) (m : positive) (e : Z) :
  valid_binary (S754_finite s m e) = true ->
  0 < Zpos m * 2 ^ (e + scale) < overflow /\
  (-1074 < e -> 2 ^ (52 + e + scale) <= Zpos m * 2 ^ (e + scale)) /\
  Zpos m * 2 ^ (e + scale) < 2 ^ (53 + e + scale).
Proof.
  intro H. destruct (valid_finite s m e H) as [He [Hl Hn]].
  pose proof (Z.log2_spec (Zpos m) ltac:(lia)) as HL.
  assert (Hp : 0 < 2 ^ (e + scale)) by (apply Z.pow_pos_nonneg; unfold scale; lia).
  assert (Hm : Zpos m < 2 ^ 53).
  { eapply Z.lt_le_trans; [apply HL|]. apply Z.pow_le_mono_r; lia. }
  assert (Hup : Zpos m * 2 ^ (e + scale) < 2 ^ (53 + e + scale)).
  { replace (53 + e + scale) with (53 + (e + scale)) by lia.
    rewrite (Z.pow_add_r 2 53 (e + scale)) by (unfold scale; lia). nia. }
  split; [split; [nia|]|split; [|exact Hup]].
  - eapply Z.lt_le_trans; [exact Hup|]. unfold overflow.
    apply Z.pow_le_mono_r; unfold scale; lia.
  - intro Hgt. rewrite (Hn Hgt) in HL.
    replace (52 + e + scale) with (52 + (e + scale)) by lia.
    rewrite (Z.pow_add_r 2 52 (e + scale)) by (unfold scale; lia). nia.
Qed.

Lemma xv_nonneg (f : spec_float) : nonneg_ext f = true -> 0 <= xv f.
Proof.
  destruct f as [s|[|]| |[|] m e]; cbn [xv nonneg_ext]; try discriminate;
    intros _; lia.
Qed.

(** On valid floats that are not negative, the comparison of SpecFloat
    is the comparison of their values. *)
Lemma SFcompare_xv (f1 f2 : spec_float) :
  valid_binary f1 = true -> valid_binary f2 = true ->
  nonneg_ext f1 = true -> nonneg_ext f2 = true ->
  SFcompare f1 f2 = Some (xv f1 ?= xv f2).
Proof.
  intros V1 V2 N1 N2.
  assert (Hoverflow : 0 < overflow) by (unfold overflow; apply Z.pow_pos_nonneg; unfold scale; lia).
  destruct f1 as [s1|[|]| |[|] m1 e1]; try discriminate;
    destruct f2 as [s2|[|]| |[|] m2 e2]; try discriminate;
    cbn [SFcompare xv];
    try (pose proof (valid_finite_bounds _ _ _ V1) as [[P1 I1] [L1 U1]]);
    try (pose proof (valid_finite_bounds _ _ _ V2) as [[P2 I2] [L2 U2]]);
    try (f_equal; symmetry;
         first [apply Z.compare_eq_iff; lia
               |apply Z.compare_lt_iff; lia
               |apply Z.compare_gt_iff; lia]).
  (* two positive finite floats *)
  destruct (valid_finite _ _ _ V1) as [E1 _].
  destruct (valid_finite _ _ _ V2) as [E2 _].
  f_equal. destruct (Z.compare_spec e1 e2) as [Heq|Hlt|Hgt].
  - subst e2. rewrite Pos.compare_cont_spec. cbn [Pos.switch_Eq].
    assert (Hp : 0 < 2 ^ (e1 + scale)) by (apply Z.pow_pos_nonneg; unfold scale; lia).
    change (Pos.compare m1 m2) with (Zpos m1 ?= Zpos m2).
    symmetry. destruct (Z.compare_spec (Zpos m1) (Zpos m2)) as [H|H|H].
    + apply Z.compare_eq_iff. rewrite H. reflexivity.
    + apply Z.compare_lt_iff. nia.
    + apply Z.compare_gt_iff. nia.
  - symmetry. apply Z.compare_lt_iff.
    specialize (L2 ltac:(lia)).
    assert (2 ^ (53 + e1 + scale) <= 2 ^ (52 + e2 + scale))
      by (apply Z.pow_le_mono_r; unfold scale; lia).
    lia.
  - symmetry. apply Z.compare_gt_iff.
    specialize (L1 ltac:(lia)).
    assert (2 ^ (53 + e2 + scale) <= 2 ^ (52 + e1 + scale))
      by (apply Z.pow_le_mono_r; unfold scale; lia).
    lia.
Qed.

(** *** Multiplication *)

Lemma rounds_to_xv (R : spec_float) (v : Z) :
  valid_binary R = true -> rounds_to R v ->
  nonneg_ext R = true /\ xv R = Z.min v overflow.
Proof.
  intros V H.
  destruct R as [[|]|[|]| |[|] m e]; cbn [rounds_to] in H; try contradiction;
    cbn [nonneg_ext xv]; (split; [reflexivity|]).
  - subst v. unfold overflow. 
    assert (0 < 2 ^ (1024 + scale)) by (apply Z.pow_pos_nonneg; unfold scale; lia). lia.
  - lia.
  - destruct H as [_ H]. subst v.
    destruct (valid_finite_bounds _ _ _ V) as [[_ I] _]. lia.
Qed.

(** The product of two positive finite floats is the rounded product of
    their values. *)
Lemma SF64mul_finite_value (mx ma : positive) (ex ea : Z) :
  valid_binary (S754_finite false mx ex) = true ->
  valid_binary (S754_finite false ma ea) = true ->
  rounds_to (SF64mul (S754_finite false mx ex) (S754_finite false ma ea))
    (rne (Zpos mx * 2 ^ (ex + scale) * (Zpos ma * 2 ^ (ea + scale)) / 2 ^ scale)).
Proof.
  intros VX VA.
  destruct (valid_finite _ _ _ VX) as [EX [LX NX]].
  destruct (valid_finite _ _ _ VA) as [EA [LA NA]].
  assert (Hv : Zpos mx * 2 ^ (ex + scale) * (Zpos ma * 2 ^ (ea + scale)) / 2 ^ scale =
               Zpos (mx * ma) * 2 ^ (ex + ea + scale)).
  { assert (Hb : 0 < 2 ^ scale) by (apply Z.pow_pos_nonneg; unfold scale; lia).
    assert (H1 : 2 ^ (ex + scale) * 2 ^ (ea + scale) = 2 ^ (ex + ea + scale) * 2 ^ scale).
    { rewrite <- !Z.pow_add_r by (unfold scale; lia). f_equal. lia. }
    assert (H2 : Zpos mx * 2 ^ (ex + scale) * (Zpos ma * 2 ^ (ea + scale)) =
                 Zpos (mx * ma) * 2 ^ (ex + ea + scale) * 2 ^ scale).
    { rewrite Pos2Z.inj_mul.
      transitivity (Zpos mx * Zpos ma * (2 ^ (ex + scale) * 2 ^ (ea + scale))); [ring|].
      rewrite H1. ring. }
    rewrite H2. apply Z.div_mul. lia. }
  rewrite Hv. unfold SF64mul, SFmul. cbn [xorb].
  apply binary_round_aux_value; [unfold scale; lia|].
  destruct (Z_le_gt_dec (ex + ea) 971) as [Hle|Hgt]; [left; exact Hle|right].
  rewrite NX, NA in * by lia.
  pose proof (Z.log2_spec (Zpos mx) ltac:(lia)) as [HX _].
  pose proof (Z.log2_spec (Zpos ma) ltac:(lia)) as [HA _].
  rewrite NX in HX by lia. rewrite NA in HA by lia.
  assert (2 ^ 104 <= Zpos (mx * ma)).
  { rewrite Pos2Z.inj_mul. change (2 ^ 104) with (2 ^ 52 * 2 ^ 52). nia. }
  pose proof (Z.log2_le_mono _ _ H) as Hl.
  change (Z.log2 (2 ^ 104)) with 104 in Hl. lia.
Qed.

(** Multiplying by a float that is not negative keeps the order of the
    other factor, unless a product is a NaN. *)
Lemma SF64mul_mono (X A A' : spec_float) :
  valid_binary X = true -> valid_binary A = true -> valid_binary A' = true ->
  nonneg_fin X = true -> nonneg_ext A = true -> nonneg_ext A' = true ->
  xv A <= xv A' ->
  valid_binary (SF64mul X A) = true -> valid_binary (SF64mul X A') = true ->
  SF64mul X A <> S754_nan -> SF64mul X A' <> S754_nan ->
  nonneg_ext (SF64mul X A) = true /\ nonneg_ext (SF64mul X A') = true /\
  xv (SF64mul X A) <= xv (SF64mul X A').
Proof.
  intros VX VA VA' NX NA NA' Hle VR VR' NR NR'.
  assert (Hoverflow : 0 < overflow) by (unfold overflow; apply Z.pow_pos_nonneg; unfold scale; lia).
  destruct X as [sx|sx| |[|] mx ex]; try discriminate.
  - (* x is a zero *)
    destruct A as [sa|[|]| |[|] ma ea]; try discriminate;
      destruct A' as [sa'|[|]| |[|] ma' ea']; try discriminate;
      cbn in *; try congruence; repeat split; lia.
  - (* x is positive *)
    destruct A as [sa|[|]| |[|] ma ea]; try discriminate;
      destruct A' as [sa'|[|]| |[|] ma' ea']; try discriminate.
    + cbn. repeat split; lia.
    + cbn [SF64mul SFmul xorb] in *. cbn [nonneg_ext xv]. repeat split; lia.
    + pose proof (SF64mul_finite_value mx ma' ex ea' VX VA') as HR'.
      destruct (rounds_to_xv _ _ VR' HR') as [N' E'].
      change (SF64mul (S754_finite false mx ex) (S754_zero sa))
        with (S754_zero (xorb false sa)).
      cbn [nonneg_ext xv]. repeat split; try assumption.
      apply xv_nonneg. exact N'.
    + exfalso. cbn [xv] in Hle. lia.
    + cbn [SF64mul SFmul xorb] in *. cbn [nonneg_ext xv]. repeat split; lia.
    + exfalso. cbn [xv] in Hle.
      destruct (valid_finite_bounds _ _ _ VA') as [[_ I] _]. lia.
    + exfalso. cbn [xv] in Hle.
      destruct (valid_finite_bounds _ _ _ VA) as [[P _] _]. lia.
    + pose proof (SF64mul_finite_value mx ma ex ea VX VA) as HR.
      destruct (rounds_to_xv _ _ VR HR) as [N E].
      change (SF64mul (S754_finite false mx ex) (S754_infinity false))
        with (S754_infinity false).
      cbn [nonneg_ext xv]. repeat split; try assumption. lia.
    + pose proof (SF64mul_finite_value mx ma ex ea VX VA) as HR.
      pose proof (SF64mul_finite_value mx ma' ex ea' VX VA') as HR'.
      destruct (rounds_to_xv _ _ VR HR) as [N E].
      destruct (rounds_to_xv _ _ VR' HR') as [N' E'].
      repeat split; try assumption.
      rewrite E, E'. cbn [xv] in Hle.
      destruct (valid_finite_bounds _ _ _ VX) as [[PX _] _].
      destruct (valid_finite_bounds _ _ _ VA) as [[PA _] _].
      assert (Hb : 0 < 2 ^ scale) by (apply Z.pow_pos_nonneg; unfold scale; lia).
      set (x := Zpos mx * 2 ^ (ex + scale)) in *.
      set (a := Zpos ma * 2 ^ (ea + scale)) in *.
      set (a' := Zpos ma' * 2 ^ (ea' + scale)) in *.
      assert (Hq : x * a / 2 ^ scale <= x * a' / 2 ^ scale)
        by (apply Z.div_le_mono; [lia|nia]).
      assert (Hpos : 0 < x * a / 2 ^ scale).
      { (* the product is a multiple of the unit *)
        pose proof (SF64mul_finite_value mx ma ex ea VX VA) as _.
        destruct (valid_finite _ _ _ VX) as [EX _].
        destruct (valid_finite _ _ _ VA) as [EA _].
        apply Z.div_str_pos. split; [lia|].
        unfold x, a.
        assert (2 ^ scale <= 2 ^ (ex + scale) * 2 ^ (ea + scale)).
        { rewrite <- Z.pow_add_r by (unfold scale; lia).
          apply Z.pow_le_mono_r; unfold scale; lia. }
        nia. }
      pose proof (rne_mono _ _ (conj Hpos Hq)). lia.
Qed.

(** *** From floats to values *)

Lemma nonneg64_fin (f : float) :
  nonneg64 f = true -> nonneg_fin (Prim2SF f) = true.
Proof. unfold nonneg64, nonneg_fin. intro H. exact H. Qed.

Lemma nonneg_fin_ext (f : spec_float) :
  nonneg_fin f = true -> nonneg_ext f = true.
Proof. destruct f as [s|[|]| |[|] m e]; cbn; congruence. Qed.

Lemma leb_zero_nonneg (a : float) :
  (0 <=? a)%float = true -> nonneg_ext (Prim2SF a) = true.
Proof.
  rewrite leb_spec. change (Prim2SF 0) with (S754_zero false).
  destruct (Prim2SF a) as [s|[|]| |[|] m e]; cbn; congruence.
Qed.

(** [<=?] and [<?] on floats that are not negative, read on values. *)
Lemma leb_xv (a b : float) :
  nonneg_ext (Prim2SF a) = true -> (a <=? b)%float = true ->
  nonneg_ext (Prim2SF b) = true /\ xv (Prim2SF a) <= xv (Prim2SF b).
Proof.
  intros Na Hle. rewrite leb_spec in Hle.
  assert (Nb : nonneg_ext (Prim2SF b) = true).
  { unfold SFleb in Hle.
    destruct (Prim2SF a) as [sa|[|]| |[|] ma ea]; try discriminate;
      destruct (Prim2SF b) as [sb|[|]| |[|] mb eb]; cbn in *; congruence. }
  split; [exact Nb|].
  unfold SFleb in Hle.
  rewrite (SFcompare_xv _ _ (Prim2SF_valid a) (Prim2SF_valid b) Na Nb) in Hle.
  destruct (Z.compare_spec (xv (Prim2SF a)) (xv (Prim2SF b))) as [H|H|H];
    try discriminate; lia.
Qed.

Lemma ltb_xv (a b : float) :
  nonneg_ext (Prim2SF a) = true -> nonneg_ext (Prim2SF b) = true ->
  (a <? b)%float = (xv (Prim2SF a) <? xv (Prim2SF b)).
Proof.
  intros Na Nb. rewrite ltb_spec. unfold SFltb.
  rewrite (SFcompare_xv _ _ (Prim2SF_valid a) (Prim2SF_valid b) Na Nb).
  unfold Z.ltb. destruct (xv (Prim2SF a) ?= xv (Prim2SF b)); reflexivity.
Qed.

(** The conversion to an integer of a finite float that is not negative. *)
Lemma int64_of_float64_xv (c : float) :
  nonneg64 c = true ->
  int64_of_float64 c =
  if xv (Prim2SF c) / 2 ^ scale <? 2 ^ 63 then xv (Prim2SF c) / 2 ^ scale
  else int64_indefinite.
Proof.
  unfold nonneg64, int64_of_float64. intro H.
  pose proof (Prim2SF_valid c) as V.
  destruct (Prim2SF c) as [s|[|]| |[|] m e]; try discriminate.
  - reflexivity.
  - destruct (valid_finite _ _ _ V) as [He _].
    assert (Hb : 0 < 2 ^ scale) by (apply Z.pow_pos_nonneg; unfold scale; lia).
    assert (Ha : match e with
                 | 0 => Zpos m
                 | Zpos _ => Z.shiftl (Zpos m) e
                 | Zneg p => Z.shiftr (Zpos m) (Zpos p)
                 end = Zpos m * 2 ^ (e + scale) / 2 ^ scale).
    { cbn [xv]. destruct e as [|p|p].
      - cbn [Z.add]. rewrite Z.div_mul by lia. reflexivity.
      - rewrite Z.shiftl_mul_pow2 by lia.
        rewrite Z.pow_add_r by (unfold scale; lia).
        rewrite Z.mul_assoc, Z.div_mul by lia. reflexivity.
      - rewrite Z.shiftr_div_pow2 by lia.
        assert (2 ^ scale = 2 ^ Zpos p * 2 ^ (Zneg p + scale)) as ->.
        { rewrite <- Z.pow_add_r by (unfold scale in *; lia). f_equal. lia. }
        rewrite Z.div_mul_cancel_r; [reflexivity| |];
          apply Z.pow_nonzero; unfold scale in *; lia. }
    cbv zeta. rewrite Ha. cbn [xv].
    set (a := Zpos m * 2 ^ (e + scale) / 2 ^ scale).
    assert (0 <= a).
    { unfold a. apply Z.div_pos; [|lia].
      apply Z.mul_nonneg_nonneg; [lia|apply Z.pow_nonneg; lia]. }
    assert ((- 2 ^ 63 <=? a) = true) as -> by (apply Z.leb_le; lia).
    reflexivity.
Qed.

(** *** The clamped exponential is monotone *)

(** A clamped product that is a number comes from a product that is
    one. *)
Lemma product_not_nan (x a fmax : float) :
  nonneg64 (float64_min (x * a) fmax) = true ->
  Prim2SF (x * a) <> S754_nan.
Proof.
  unfold float64_min, nonneg64. rewrite ltb_spec.
  intros H Hnan. rewrite Hnan in H.
  unfold SFltb in H. 
  replace (SFcompare (Prim2SF fmax) S754_nan) with (@None comparison) in H
    by (destruct (Prim2SF fmax); reflexivity).
  rewrite Hnan in H. discriminate H.
Qed.

(** The clamp is the minimum of the values. *)
Lemma float64_min_xv (r fmax : float) :
  nonneg_ext (Prim2SF r) = true -> nonneg64 fmax = true ->
  xv (Prim2SF (float64_min r fmax)) = Z.min (xv (Prim2SF r)) (xv (Prim2SF fmax)).
Proof.
  intros Nr Nf. unfold float64_min.
  rewrite (ltb_xv fmax r (nonneg_fin_ext _ (nonneg64_fin _ Nf)) Nr).
  destruct (Z.ltb_spec (xv (Prim2SF fmax)) (xv (Prim2SF r))); lia.
Qed.

(** *** Conversion of integers *)

(** [float64_of_int] on the range of a non-negative [int64] is the
    primitive conversion, specified as [binary_normalize]. *)
Lemma Prim2SF_float64_of_int (z : Z) :
  0 <= z < 2 ^ 63 ->
  Prim2SF (float64_of_int z) = binary_normalize prec emax z 0 false.
Proof.
  intro Hz. unfold float64_of_int.
  assert (Hphi : Uint63.to_Z (Uint63.of_Z z) = z).
  { rewrite Uint63.of_Z_spec. apply Z.mod_small. exact Hz. }
  rewrite <- Hphi at 1.
  rewrite <- of_uint63_spec, SF2Prim_Prim2SF, of_uint63_spec, Hphi.
  reflexivity.
Qed.

(** Aligning a mantissa to a smaller exponent keeps its value. *)
Lemma shl_align_value (p : positive) (e' : Z) :
  - scale <= e' ->
  let '(mz, ez) := shl_align p 0 e' in
  Zpos mz * 2 ^ (ez + scale) = Zpos p * 2 ^ scale /\ - scale <= ez <= 0.
Proof.
  intro He. unfold shl_align.
  destruct (e' - 0) as [|d|d] eqn:Hd.
  - split; [reflexivity|unfold scale; lia].
  - split; [reflexivity|unfold scale; lia].
  - assert (He' : e' = Zneg d) by lia. subst e'.
    change (Pos.iter xO p d) with (shift_pos d p).
    rewrite shift_pos_correct. change (Z.pow_pos 2 d) with (2 ^ Zpos d).
    split; [|lia].
    assert (2 ^ scale = 2 ^ Zpos d * 2 ^ (Zneg d + scale)) as ->.
    { rewrite <- Z.pow_add_r by (unfold scale in *; lia). f_equal. lia. }
    ring.
Qed.

(** Rounding stays below the next power of two. *)
Lemma rne_upper (v : Z) :
  0 < v -> min_grid <= Z.log2 v + 1 -> rne v <= 2 ^ (Z.log2 v + 1).
Proof.
  intros Hv HC.
  pose proof (rne_bounds v Hv) as [_ Hup]. cbv zeta in Hup.
  pose proof (Z.log2_spec v Hv) as [_ HL].
  pose proof (Z.log2_nonneg v) as HL0.
  pose proof (grid_exp_pos v) as Hg0.
  assert (Hg : grid_exp v <= Z.log2 v + 1) by (unfold grid_exp; lia).
  set (g := grid_exp v) in *.
  assert (Hsplit : 2 ^ (Z.log2 v + 1) = 2 ^ (Z.log2 v + 1 - g) * 2 ^ g).
  { rewrite <- Z.pow_add_r by lia. f_equal. lia. }
  assert (Hq : v / 2 ^ g < 2 ^ (Z.log2 v + 1 - g)).
  { apply Z.div_lt_upper_bound; [apply Z.pow_pos_nonneg; lia|].
    rewrite Z.mul_comm, <- Hsplit. exact HL. }
  rewrite Hsplit.
  eapply Z.le_trans; [exact Hup|].
  apply Z.mul_le_mono_nonneg_r; [apply Z.pow_nonneg; lia|lia].
Qed.

(** The float of a non-negative integer: what it is worth, and that it
    is finite. *)
Lemma float64_of_int_value (z : Z) :
  0 <= z < 2 ^ 63 ->
  nonneg64 (float64_of_int z) = true /\
  xv (Prim2SF (float64_of_int z)) = (if z =? 0 then 0 else rne (z * 2 ^ scale)).
Proof.
  intro Hz.
  pose proof (Prim2SF_valid (float64_of_int z)) as V.
  unfold nonneg64.
  rewrite (Prim2SF_float64_of_int z Hz) in *.
  destruct z as [|p|p]; try lia.
  - split; reflexivity.
  - cbn [binary_normalize Z.eqb] in *. unfold binary_round in *.
    set (e' := fexp prec emax (Zpos (digits2_pos p) + 0)) in *.
    assert (He' : - scale <= e').
    { unfold e'. rewrite fexp_64. unfold fexp64, scale. lia. }
    pose proof (shl_align_value p e' He') as Hal.
    destruct (shl_align p 0 e') as [mz ez].
    destruct Hal as [Hval Hez].
    pose proof (binary_round_aux_value mz ez ltac:(lia) ltac:(left; lia)) as HR.
    rewrite Hval in HR.
    destruct (rounds_to_xv _ _ V HR) as [Next Hxv].
    split; [|].
    + (* finite: the value is below 2^64 *)
      assert (Hv : 0 < Zpos p * 2 ^ scale).
      { apply Z.mul_pos_pos; [lia|apply Z.pow_pos_nonneg; unfold scale; lia]. }
      assert (Hlog : Z.log2 (Zpos p * 2 ^ scale) = Z.log2 (Zpos p) + scale)
        by (apply log2_scaled; unfold scale; lia).
      assert (Hl63 : Z.log2 (Zpos p) < 63)
        by (apply Z.log2_lt_pow2; lia).
      pose proof (Z.log2_nonneg (Zpos p)) as Hl0.
      pose proof (rne_upper _ Hv ltac:(rewrite Hlog; unfold scale, min_grid; lia)) as Hup.
      rewrite Hlog in Hup.
      assert (Hlt : 2 ^ (Z.log2 (Zpos p) + scale + 1) < overflow).
      { unfold overflow. apply Z.pow_lt_mono_r; unfold scale; lia. }
      destruct (binary_round_aux prec emax false (Zpos mz) ez loc_Exact)
        as [s|[|]| |[|] m e]; try discriminate; try reflexivity.
      cbn [xv] in Hxv. lia.
    + rewrite Hxv.
      assert (Hv : 0 < Zpos p * 2 ^ scale).
      { apply Z.mul_pos_pos; [lia|apply Z.pow_pos_nonneg; unfold scale; lia]. }
      assert (Hlog : Z.log2 (Zpos p * 2 ^ scale) = Z.log2 (Zpos p) + scale)
        by (apply log2_scaled; unfold scale; lia).
      assert (Hl63 : Z.log2 (Zpos p) < 63)
        by (apply Z.log2_lt_pow2; lia).
      pose proof (Z.log2_nonneg (Zpos p)) as Hl0.
      pose proof (rne_upper _ Hv ltac:(rewrite Hlog; unfold scale, min_grid; lia)) as Hup.
      rewrite Hlog in Hup.
      assert (Hlt : 2 ^ (Z.log2 (Zpos p) + scale + 1) < overflow).
      { unfold overflow. apply Z.pow_lt_mono_r; unfold scale; lia. }
      lia.
Qed.

(** Integers below 2^53 go to a float and back unchanged. *)
Lemma float64_of_int_exact (z : Z) :
  0 <= z < 2 ^ 53 ->
  int64_of_float64 (float64_of_int z) = z.
Proof.
  intro Hz.
  destruct (float64_of_int_value z ltac:(lia)) as [Hn Hxv].
  rewrite (int64_of_float64_xv _ Hn), Hxv.
  assert (Hb : 0 < 2 ^ scale) by (apply Z.pow_pos_nonneg; unfold scale; lia).
  destruct (Z.eqb_spec z 0) as [->|Hnz].
  - reflexivity.
  - assert (Hv : 0 < z * 2 ^ scale) by (apply Z.mul_pos_pos; lia).
    assert (Hl : Z.log2 z < 53) by (apply Z.log2_lt_pow2; lia).
    pose proof (Z.log2_nonneg z) as Hl0.
    rewrite (rne_exact (z * 2 ^ scale) scale Hv).
    + rewrite Z.div_mul by lia.
      assert ((z <? 2 ^ 63) = true) as -> by (apply Z.ltb_lt; lia).
      reflexivity.
    + unfold grid_exp. rewrite log2_scaled by (unfold scale; lia). unfold scale, min_grid. lia.
    + apply Z.mod_mul. lia.
Qed.

(** *** The random draw *)

(** Aligning a mantissa to a smaller exponent keeps its value. *)
Lemma shl_align_general (p : positive) (e e' : Z) :
  - scale <= e -> - scale <= e' ->
  Zpos (fst (shl_align p e e')) * 2 ^ (snd (shl_align p e e') + scale) =
    Zpos p * 2 ^ (e + scale) /\
  Z.min e e' <= snd (shl_align p e e') <= e /\
  (e' <= e -> snd (shl_align p e e') = e').
Proof.
  intros He He'. unfold shl_align.
  destruct (e' - e) as [|d|d] eqn:Hd; cbn [fst snd].
  - split; [reflexivity|lia].
  - split; [reflexivity|lia].
  - change (Pos.iter xO p d) with (shift_pos d p).
    rewrite shift_pos_correct. change (Z.pow_pos 2 d) with (2 ^ Zpos d).
    split; [|lia].
    assert (2 ^ (e + scale) = 2 ^ Zpos d * 2 ^ (e' + scale)) as ->.
    { rewrite <- Z.pow_add_r by (unfold scale in *; lia). f_equal. lia. }
    ring.
Qed.

(** The sign [binary_round_aux] is given only marks its result. *)
Lemma binary_round_aux_sign (m e : Z) (l : location) :
  binary_round_aux prec emax true m e l =
  SFopp (binary_round_aux prec emax false m e l).
Proof.
  unfold binary_round_aux.
  destruct (shr_fexp prec emax m e l) as [mrs' e'].
  destruct (shr_fexp prec emax
              (round_nearest_even (shr_m mrs') (loc_of_shr_record mrs')) e'
              loc_Exact) as [mrs'' e''].
  destruct (shr_m mrs'') as [|p|p]; try reflexivity.
  destruct (e'' <=? emax - prec); reflexivity.
Qed.

(** A value below [2^1023] never rounds to an infinity. *)
Lemma binary_round_finite (s : bool) (p : positive) (e : Z) :
  -1074 <= e <= 0 ->
  Zpos p * 2 ^ (e + scale) < 2 ^ (1000 + scale) ->
  match binary_round prec emax s p e with
  | S754_zero _ | S754_finite _ _ _ => True
  | _ => False
  end.
Proof.
  intros He Hv. unfold binary_round.
  set (e' := fexp prec emax (Zpos (digits2_pos p) + e)).
  assert (He' : -1074 <= e') by (unfold e'; rewrite fexp_64; unfold fexp64; lia).
  destruct (shl_align_general p e e' ltac:(unfold scale; lia)
              ltac:(unfold scale; lia)) as [Hval [Hez _]].
  destruct (shl_align p e e') as [mz ez]. cbn [fst snd] in *.
  pose proof (binary_round_aux_value mz ez ltac:(unfold scale; lia)
                ltac:(left; lia)) as HR.
  rewrite Hval in HR.
  assert (Hpos : 0 < Zpos p * 2 ^ (e + scale)).
  { apply Z.mul_pos_pos; [lia|apply Z.pow_pos_nonneg; unfold scale; lia]. }
  assert (Hlog : Z.log2 (Zpos p * 2 ^ (e + scale)) < 1000 + scale).
  { apply Z.log2_lt_pow2; assumption. }
  assert (Hlog0 : scale - 1074 <= Z.log2 (Zpos p * 2 ^ (e + scale))).
  { rewrite log2_scaled by (unfold scale; lia).
    pose proof (Z.log2_nonneg (Zpos p)). lia. }
  pose proof (rne_upper _ Hpos ltac:(unfold min_grid, scale in *; lia)) as Hup.
  assert (Hlt : 2 ^ (Z.log2 (Zpos p * 2 ^ (e + scale)) + 1) < overflow).
  { unfold overflow. apply Z.pow_lt_mono_r; unfold scale in *; lia. }
  destruct s.
  - rewrite binary_round_aux_sign.
    destruct (binary_round_aux prec emax false (Zpos mz) ez loc_Exact)
      as [s|[|]| |[|] m e0]; cbn [SFopp rounds_to] in *; try exact I;
      try contradiction; lia.
  - destruct (binary_round_aux prec emax false (Zpos mz) ez loc_Exact)
      as [s|[|]| |[|] m e0]; cbn [rounds_to] in *; try exact I;
      try contradiction; lia.
Qed.

(** A draw of [rand.Float64], which lies in [0, 1), stays finite when
    0.5 is taken from it. *)
Lemma draw_centred_finite (u : float) :
  (0 <=? u)%float = true -> (u <? 1)%float = true ->
  finite64 (u - 0.5) = true.
Proof.
  intros H0 H1.
  pose proof (leb_zero_nonneg u H0) as Nu.
  assert (N1 : nonneg_ext (Prim2SF 1) = true) by reflexivity.
  rewrite (ltb_xv u 1 Nu N1) in H1. apply Z.ltb_lt in H1.
  change (xv (Prim2SF 1)) with (2 ^ scale) in H1.
  pose proof (Prim2SF_valid u) as Vu.
  unfold finite64. rewrite sub_spec.
  change (Prim2SF 0.5) with (S754_finite false 4503599627370496 (-53)).
  destruct (Prim2SF u) as [s|[|]| |[|] mu eu]; try discriminate Nu.
  - reflexivity.
  - exfalso. cbn [xv] in H1.
    assert (2 ^ scale < overflow)
      by (unfold overflow; apply Z.pow_lt_mono_r; unfold scale; lia).
    lia.
  - destruct (valid_finite _ _ _ Vu) as [Heu _].
    cbn [xv] in H1.
    unfold SF64sub, SFsub. cbn [cond_Zopp].
    set (ez := Z.min eu (-53)).
    destruct (shl_align_general mu eu ez ltac:(unfold scale; lia)
                ltac:(unfold scale, ez; lia)) as [Vu' [_ Eu']].
    destruct (shl_align_general 4503599627370496 (-53) ez
                ltac:(unfold scale; lia) ltac:(unfold scale, ez; lia))
      as [Vh' [_ Eh']].
    rewrite Eu' in Vu' by (unfold ez; lia).
    rewrite Eh' in Vh' by (unfold ez; lia).
    set (a := Zpos (fst (shl_align mu eu ez))) in *.
    set (b := Zpos (fst (shl_align 4503599627370496 (-53) ez))) in *.
    assert (Hp : 0 < 2 ^ (ez + scale))
      by (apply Z.pow_pos_nonneg; unfold scale, ez; lia).
    assert (Hhalf : 4503599627370496 * 2 ^ (-53 + scale) < 2 ^ scale).
    { unfold scale. cbn. lia. }
    assert (Ha : a * 2 ^ (ez + scale) < 2 ^ scale) by lia.
    assert (Hb : b * 2 ^ (ez + scale) < 2 ^ scale) by lia.
    assert (Hapos : 0 < a) by (unfold a; lia).
    assert (Hbpos : 0 < b) by (unfold b; lia).
    assert (Hbig : 2 ^ scale < 2 ^ (1000 + scale))
      by (apply Z.pow_lt_mono_r; unfold scale; lia).
    destruct (a - b) as [|d|d] eqn:Hd; cbn [binary_normalize].
    + reflexivity.
    + pose proof (binary_round_finite false d ez ltac:(unfold ez; lia)) as HF.
      assert (Zpos d * 2 ^ (ez + scale) < 2 ^ (1000 + scale)) by nia.
      specialize (HF H).
      destruct (binary_round prec emax false d ez); try contradiction;
        reflexivity.
    + pose proof (binary_round_finite true d ez ltac:(unfold ez; lia)) as HF.
      assert (Zpos d * 2 ^ (ez + scale) < 2 ^ (1000 + scale)) by nia.
      specialize (HF H).
      destruct (binary_round prec emax true d ez); try contradiction;
        reflexivity.
Qed.

(** *** The clamped exponential is a number *)

(** A finite float that is not negative is worth less than the
    infinity. *)
Lemma nonneg64_below_overflow (f : float) :
  nonneg64 f = true -> 0 <= xv (Prim2SF f) < overflow.
Proof.
  unfold nonneg64. intro H. pose proof (Prim2SF_valid f) as V.
  assert (Ho : 0 < overflow)
    by (unfold overflow; apply Z.pow_pos_nonneg; unfold scale; lia).
  destruct (Prim2SF f) as [s|[|]| |[|] m e]; try discriminate H; cbn [xv].
  - lia.
  - destruct (valid_finite_bounds _ _ _ V) as [[P I] _]. lia.
Qed.

(** The float of a positive integer is positive. *)
Lemma float64_of_int_positive (z : Z) :
  0 < z < 2 ^ 63 -> 0 < xv (Prim2SF (float64_of_int z)).
Proof.
  intro Hz.
  destruct (float64_of_int_value z ltac:(lia)) as [_ Hxv].
  rewrite Hxv. destruct (Z.eqb_spec z 0) as [->|_]; [lia|].
  assert (Hs : 0 < 2 ^ scale) by (apply Z.pow_pos_nonneg; unfold scale; lia).
  assert (Hv : 0 < z * 2 ^ scale) by (apply Z.mul_pos_pos; lia).
  pose proof (rne_bounds _ Hv) as [Hlo _]. cbv zeta in Hlo.
  pose proof (grid_exp_pos (z * 2 ^ scale)) as Hg0.
  pose proof (Z.log2_spec _ Hv) as [HL _].
  assert (Hg : grid_exp (z * 2 ^ scale) <= Z.log2 (z * 2 ^ scale)).
  { unfold grid_exp. rewrite log2_scaled by (unfold scale; lia).
    pose proof (Z.log2_nonneg z). unfold min_grid, scale. lia. }
  assert (Hq : 1 <= z * 2 ^ scale / 2 ^ grid_exp (z * 2 ^ scale)).
  { apply Z.div_le_lower_bound; [apply Z.pow_pos_nonneg; lia|].
    rewrite Z.mul_1_r. eapply Z.le_trans; [|exact HL].
    apply Z.pow_le_mono_r; lia. }
  assert (0 < 2 ^ grid_exp (z * 2 ^ scale)) by (apply Z.pow_pos_nonneg; lia).
  nia.
Qed.

(** For a policy whose [InitialBackoff] and [MaxBackoff] are not
    negative, the clamped exponential is a finite number that is not
    negative wherever the library's power is not negative, and finite
    when [InitialBackoff] is zero: an overflow of the power or of the
    product ends at the clamp, and only 0 times the infinity is not a
    number. *)
Lemma clamped_exponential_number (lib : Library) (attempt : Z)
    (config : Config) :
  0 <= InitialBackoff config < 2 ^ 63 ->
  0 <= MaxBackoff config < 2 ^ 63 ->
  (0 <=? math_Pow lib (BackoffFactor config) (float64_of_int attempt))%float
    = true ->
  (InitialBackoff config = 0 ->
   finite64 (math_Pow lib (BackoffFactor config) (float64_of_int attempt))
     = true) ->
  nonneg64 (clamped_exponential lib attempt config) = true.
Proof.
  intros Hi Hm Hp Hz. unfold clamped_exponential.
  set (x := float64_of_int (InitialBackoff config)).
  set (fmax := float64_of_int (MaxBackoff config)).
  set (a := math_Pow lib (BackoffFactor config) (float64_of_int attempt)) in *.
  destruct (float64_of_int_value (InitialBackoff config) Hi) as [Hx _].
  destruct (float64_of_int_value (MaxBackoff config) Hm) as [Hf _].
  fold x in Hx. fold fmax in Hf.
  assert (Hxz : xv (Prim2SF x) = 0 -> finite64 a = true).
  { intro E. apply Hz.
    destruct (Z.eq_dec (InitialBackoff config) 0) as [E0|N0]; [exact E0|].
    pose proof (float64_of_int_positive (InitialBackoff config) ltac:(lia))
      as P. fold x in P. lia. }
  pose proof (leb_zero_nonneg a Hp) as Na.
  assert (Nr : nonneg_ext (Prim2SF (x * a)) = true).
  { pose proof (Prim2SF_valid (x * a)) as Vr.
    pose proof (Prim2SF_valid x) as Vx. pose proof (Prim2SF_valid a) as Va.
    rewrite mul_spec in *. unfold nonneg64 in Hx. unfold finite64 in Hxz.
    destruct (Prim2SF x) as [sx|[|]| |[|] mx ex]; try discriminate Hx.
    - specialize (Hxz eq_refl).
      destruct (Prim2SF a) as [sa|[|]| |[|] ma ea]; try discriminate Na;
        try discriminate Hxz; reflexivity.
    - destruct (Prim2SF a) as [sa|[|]| |[|] ma ea]; try discriminate Na.
      + reflexivity.
      + reflexivity.
      + pose proof (SF64mul_finite_value mx ma ex ea Vx Va) as HR.
        destruct (rounds_to_xv _ _ Vr HR) as [N _]. exact N. }
  unfold float64_min.
  rewrite (ltb_xv fmax (x * a) (nonneg_fin_ext _ (nonneg64_fin _ Hf)) Nr).
  destruct (Z.ltb_spec (xv (Prim2SF fmax)) (xv (Prim2SF (x * a)))) as [_|Hle];
    [exact Hf|].
  pose proof (nonneg64_below_overflow fmax Hf) as Hfo.
  unfold nonneg64.
  destruct (Prim2SF (x * a)) as [s|[|]| |[|] m e]; try discriminate Nr;
    try reflexivity.
  cbn [xv] in Hle. lia.
Qed.

(** Conversely to [leb_zero_nonneg]. *)
Lemma nonneg_ext_leb_zero (a : float) :
  nonneg_ext (Prim2SF a) = true -> (0 <=? a)%float = true.
Proof.
  rewrite leb_spec. change (Prim2SF 0) with (S754_zero false).
  destruct (Prim2SF a) as [s|[|]| |[|] m e]; cbn; congruence.
Qed.

(** A float that is not negative and not above a finite one is
    finite. *)
Lemma leb_finite64 (a a' : float) :
  (0 <=? a)%float = true -> (a <=? a')%float = true ->
  finite64 a' = true -> finite64 a = true.
Proof.
  intros H0 Hle Hfin.
  pose proof (leb_zero_nonneg a H0) as Na.
  destruct (leb_xv a a' Na Hle) as [Na' Hv].
  pose proof (Prim2SF_valid a') as Va'.
  unfold finite64 in *.
  assert (Ho : xv (Prim2SF a') < overflow).
  { assert (0 < overflow)
      by (unfold overflow; apply Z.pow_pos_nonneg; unfold scale; lia).
    destruct (Prim2SF a') as [s|[|]| |[|] m e]; try discriminate Hfin;
      try discriminate Na'; cbn [xv]; [lia|].
    destruct (valid_finite_bounds _ _ _ Va') as [[P I] _]. lia. }
  destruct (Prim2SF a) as [s|[|]| |[|] m e]; try discriminate Na;
    try reflexivity.
  cbn [xv] in Hv. lia.
Qed.

(** Monotonicity with the side conditions stated on the floats the code
    computes with. *)
Lemma calculateBackoff_monotone_float (lib : Library) (u : float)
    (config : Config) (n m : Z) :
  JitterFactor config = 0%float ->
  finite64 (u - 0.5) = true ->
  nonneg64 (float64_of_int (InitialBackoff config)) = true ->
  nonneg64 (float64_of_int (MaxBackoff config)) = true ->
  0 <= MaxBackoff config ->
  int64_of_float64 (float64_of_int (MaxBackoff config)) = MaxBackoff config ->
  (0 <=? math_Pow lib (BackoffFactor config) (float64_of_int n))%float = true ->
  (math_Pow lib (BackoffFactor config) (float64_of_int n) <=?
   math_Pow lib (BackoffFactor config) (float64_of_int m))%float = true ->
  nonneg64 (clamped_exponential lib n config) = true ->
  nonneg64 (clamped_exponential lib m config) = true ->
  calculateBackoff lib u n config <= calculateBackoff lib u m config
    <= MaxBackoff config /\
  (calculateBackoff lib u n config = MaxBackoff config ->
   calculateBackoff lib u m config = MaxBackoff config).
Proof.
  intros Hj Hu Hx Hf Hmax Hexact Hp0 Hpm Hcn Hcm.
  rewrite (calculateBackoff_clamped lib u n config Hj Hu Hcn).
  rewrite (calculateBackoff_clamped lib u m config Hj Hu Hcm).
  unfold clamped_exponential in *.
  set (x := float64_of_int (InitialBackoff config)) in *.
  set (fmax := float64_of_int (MaxBackoff config)) in *.
  set (a := math_Pow lib (BackoffFactor config) (float64_of_int n)) in *.
  set (a' := math_Pow lib (BackoffFactor config) (float64_of_int m)) in *.
  pose proof (leb_zero_nonneg a Hp0) as Na.
  destruct (leb_xv a a' Na Hpm) as [Na' Hle].
  pose proof (product_not_nan x a fmax Hcn) as Nn.
  pose proof (product_not_nan x a' fmax Hcm) as Nn'.
  pose proof (Prim2SF_valid (x * a)) as Vr.
  pose proof (Prim2SF_valid (x * a')) as Vr'.
  rewrite mul_spec in Nn, Nn', Vr, Vr'.
  destruct (SF64mul_mono _ _ _ (Prim2SF_valid x) (Prim2SF_valid a)
              (Prim2SF_valid a') (nonneg64_fin _ Hx) Na Na' Hle Vr Vr' Nn Nn')
    as [Nr [Nr' Hmono]].
  rewrite <- (mul_spec x a) in Nr, Hmono.
  rewrite <- (mul_spec x a') in Nr', Hmono.
  pose proof (float64_min_xv (x * a) fmax Nr Hf) as Ec.
  pose proof (float64_min_xv (x * a') fmax Nr' Hf) as Ec'.
  rewrite (int64_of_float64_xv _ Hcn), (int64_of_float64_xv _ Hcm).
  rewrite (int64_of_float64_xv _ Hf) in Hexact.
  rewrite Ec, Ec'.
  assert (Hb : 0 < 2 ^ scale) by (apply Z.pow_pos_nonneg; unfold scale; lia).
  set (vf := xv (Prim2SF fmax)) in *.
  set (vr := xv (Prim2SF (x * a))) in *.
  set (vr' := xv (Prim2SF (x * a'))) in *.
  clearbody vf vr vr'. clear Ec Ec'.
  set (unit := 2 ^ scale) in *. clearbody unit.
  assert (Hmin : Z.min vr vf <= Z.min vr' vf) by lia.
  pose proof (Z.div_le_mono (Z.min vr vf) (Z.min vr' vf) unit Hb Hmin)
    as D1.
  pose proof (Z.div_le_mono (Z.min vr' vf) vf unit Hb ltac:(lia)) as D2.
  set (qf := vf / unit) in *.
  set (qn := Z.min vr vf / unit) in *.
  set (qm := Z.min vr' vf / unit) in *.
  clearbody qf qn qm.
  assert (Hrange : qf < 2 ^ 63 /\ qf = MaxBackoff config).
  { destruct (Z.ltb_spec qf (2 ^ 63)) as [Hlt|Hge]; [split; [exact Hlt|exact Hexact]|].
    unfold int64_indefinite in Hexact. lia. }
  destruct Hrange as [Hlt Hval].
  assert ((qn <? 2 ^ 63) = true) as -> by (apply Z.ltb_lt; lia).
  assert ((qm <? 2 ^ 63) = true) as -> by (apply Z.ltb_lt; lia).
  lia.
Qed.

(** Where the library's power is not negative and does not decrease and
    [MaxBackoff] is below [2^53], the wait without jitter does not
    decrease. *)
Lemma calculateBackoff_monotone_where_exact (lib : Library) (u : float)
    (config : Config) (n m : Z) :
  JitterFactor config = 0%float ->
  (0 <=? u)%float = true -> (u <? 1)%float = true ->
  0 <= InitialBackoff config < 2 ^ 63 ->
  0 <= MaxBackoff config < 2 ^ 53 ->
  (0 <=? math_Pow lib (BackoffFactor config) (float64_of_int n))%float = true ->
  (math_Pow lib (BackoffFactor config) (float64_of_int n) <=?
   math_Pow lib (BackoffFactor config) (float64_of_int m))%float = true ->
  (InitialBackoff config = 0 ->
   finite64 (math_Pow lib (BackoffFactor config) (float64_of_int m)) = true) ->
  calculateBackoff lib u n config <= calculateBackoff lib u m config
    <= MaxBackoff config /\
  (calculateBackoff lib u n config = MaxBackoff config ->
   calculateBackoff lib u m config = MaxBackoff config).
Proof.
  intros Hj Hu0 Hu1 Hinit Hmax Hp0 Hpm Hz.
  pose proof (draw_centred_finite u Hu0 Hu1) as Hu.
  destruct (float64_of_int_value (InitialBackoff config) Hinit) as [Hx _].
  destruct (float64_of_int_value (MaxBackoff config) ltac:(lia)) as [Hf _].
  assert (Hp0' : (0 <=? math_Pow lib (BackoffFactor config)
                          (float64_of_int m))%float = true).
  { pose proof (leb_zero_nonneg _ Hp0) as Na.
    destruct (leb_xv _ _ Na Hpm) as [Na' _].
    apply nonneg_ext_leb_zero. exact Na'. }
  apply calculateBackoff_monotone_float; try assumption.
  - lia.
  - apply float64_of_int_exact. exact Hmax.
  - apply clamped_exponential_number; try assumption; [lia|].
    intro E. exact (leb_finite64 _ _ Hp0 Hpm (Hz E)).
  - apply clamped_exponential_number; try assumption. lia.
Qed.

(** ** Properties of the retry loops *)

Arguments calculateBackoff : simpl never.
Arguments IsRetryable : simpl never.
Arguments Errorf : simpl never.

Section LoopFacts.
Variable lib : Library.
Variable env : Env.
Variable config : Config.

Lemma without_Printf_snoc (t : list event) (ev : event) :
  without_Printf (t ++ [ev]) =
  if is_Printf ev then without_Printf t else (without_Printf t ++ [ev])%list.
Proof.
  unfold without_Printf. rewrite filter_app. cbn [filter].
  destruct (is_Printf ev); cbn [negb]; [apply app_nil_r|reflexivity].
Qed.

(** One pass of [Do] is one pass of [DoWithNotify] without a callback,
    the printed line apart. *)
Lemma Do_body_quiet (attempt : Z) (w : world) :
  DoWithNotify_body lib env config false attempt (quiet w) =
  (fst (Do_body lib env config attempt w),
   quiet (snd (Do_body lib env config attempt w))).
Proof.
  body_paths env w attempt config;
    rewrite ?without_Printf_snoc; cbn [is_Printf]; reflexivity.
Qed.

Lemma Do_loop_quiet (n : nat) :
  forall (attempt : Z) (lastErr : option error) (w : world),
    DoWithNotify_loop lib env config false n attempt lastErr (quiet w) =
    (fst (Do_loop lib env config n attempt lastErr w),
     quiet (snd (Do_loop lib env config n attempt lastErr w))).
Proof.
  induction n as [|n IH]; intros attempt lastErr w.
  - reflexivity.
  - cbn [Do_loop DoWithNotify_loop]. unfold bind.
    rewrite Do_body_quiet.
    destruct (Do_body lib env config attempt w) as [[l c] w'].
    cbn [fst snd]. destruct c; try reflexivity. apply IH.
Qed.

End LoopFacts.

(** C10. [Do] and [DoWithNotify] with a nil callback return the same
    result from the same operation results, random draws and select
    outcomes; they call, draw and wait the same number of times, and
    the trace of [Do] is that of [DoWithNotify] once the lines [Do]
    prints are taken out. *)
Theorem Do_DoWithNotify_nil (lib : Library) (env : Env) (config : Config) :
  fst (DoWithNotify lib env config false) = fst (Do lib env config) /\
  snd (DoWithNotify lib env config false) = quiet (snd (Do lib env config)).
Proof.
  unfold DoWithNotify, Do.
  pose proof (Do_loop_quiet lib env config
                (Z.to_nat (MaxRetries config)) 0 None start) as H.
  change (quiet start) with start in H.
  rewrite H. split; reflexivity.
Qed.

Section Exhaustion.
Variable lib : Library.
Variable env : Env.
Variable config : Config.

(** Every pass calls the operation once. *)
Lemma Do_body_calls (attempt : Z) (w : world) :
  calls (snd (Do_body lib env config attempt w)) = S (calls w).
Proof. body_paths env w attempt config; reflexivity. Qed.

Lemma Do_loop_calls_le (n : nat) :
  forall (attempt : Z) (lastErr : option error) (w : world),
    (calls (snd (Do_loop lib env config n attempt lastErr w)) <= calls w + n)%nat.
Proof.
  induction n as [|n IH]; intros attempt lastErr w.
  - cbn. lia.
  - cbn [Do_loop]. unfold bind.
    pose proof (Do_body_calls attempt w) as Hc.
    destruct (Do_body lib env config attempt w) as [[l c] w'].
    cbn [fst snd] in *. destruct c; cbn [ret snd]; try lia.
    specialize (IH (attempt + 1) l w'). lia.
Qed.

Hypothesis always_retryable :
  forall k, exists err, operation env k = Some err /\ IsRetryable err = true.
Hypothesis never_done : forall k d, ctx_Done env k d = false.

(** With an operation that always fails retryably and a context that is
    never done, [n] passes that end at [MaxRetries] call, draw and wait
    [n] times each and leave through the last [return]. *)
Lemma Do_loop_exhausts (n : nat) :
  forall (attempt : Z) (lastErr : option error) (w : world),
    attempt + Z.of_nat n = MaxRetries config ->
    fst (Do_loop lib env config n attempt lastErr w) =
      retries_exceeded lib (last_error env n lastErr w) /\
    calls (snd (Do_loop lib env config n attempt lastErr w)) = (calls w + n)%nat /\
    draws (snd (Do_loop lib env config n attempt lastErr w)) = (draws w + n)%nat /\
    selects (snd (Do_loop lib env config n attempt lastErr w)) = (selects w + n)%nat.
Proof.
  induction n as [|n IH]; intros attempt lastErr w Hn.
  - cbn. repeat split; lia.
  - cbn [Do_loop]. unfold bind.
    destruct (always_retryable (calls w)) as [e [He Hr]].
    body_paths env w attempt config.
    + apply Z.eqb_eq in Hlast. lia.
    + rewrite never_done in Hdone. discriminate.
    + match goal with
      | |- context [Do_loop lib env config n ?a ?l ?w1] =>
          destruct (IH a l w1 ltac:(lia)) as [Hres [Hc [Hd Hs]]];
          rewrite Hres, Hc, Hd, Hs
      end.
      cbn [calls draws selects].
      repeat split; try lia.
      f_equal. destruct n as [|k]; cbn [last_error calls].
      * rewrite Nat.add_0_r, Hop. reflexivity.
      * f_equal. lia.
    + congruence.
    + congruence.
Qed.

End Exhaustion.

Lemma prefix_append (p s : string) : String.prefix p (String.append p s) = true.
Proof.
  induction p as [|c p IH]; cbn.
  - destruct s; reflexivity.
  - destruct (Ascii.ascii_dec c c) as [_|Hne]; [exact IH|].
    exfalso. apply Hne. reflexivity.
Qed.

Lemma prefix_mismatch (c1 c2 : Ascii.ascii) (p1 p2 s : string) :
  c1 <> c2 ->
  String.prefix (String c1 p1) (String.append (String c2 p2) s) = false.
Proof.
  intro Hne. cbn.
  destruct (Ascii.ascii_dec c1 c2) as [Heq|_]; [contradiction|reflexivity].
Qed.

(** C6. With an operation that fails retryably at every call and a context
    that is never done, [Do] leaves through its last [return] with an
    error, [retries exceeded: ] followed by the message of the error of
    the last call and wrapping that error ([%!w(<nil>)] and nothing
    wrapped when [MaxRetries] is 0 and no call was made), after exactly
    [MaxRetries] calls; and whatever the operation and the context do,
    it never calls the operation more than [MaxRetries] times. *)
Theorem Do_exhausted (lib : Library) (env : Env) (config : Config) :
  0 <= MaxRetries config ->
  (forall k, exists err, operation env k = Some err /\ IsRetryable err = true) ->
  (forall k d, ctx_Done env k d = false) ->
  fst (Do lib env config) =
    retries_exceeded lib
      (last_error env (Z.to_nat (MaxRetries config)) None start) /\
  Z.of_nat (calls (snd (Do lib env config))) = MaxRetries config /\
  (forall env', Z.of_nat (calls (snd (Do lib env' config))) <= MaxRetries config) /\
  reason (fst (Do lib env config)) = Exhausted /\
  (1 <= MaxRetries config ->
   exists err,
     operation env (Z.to_nat (MaxRetries config - 1)) = Some err /\
     returned (fst (Do lib env config)) =
       Some (wrapError (String.append "retries exceeded: " (Error lib err))
               err)) /\
  (MaxRetries config = 0 ->
   returned (fst (Do lib env config)) =
     Some (errorString "retries exceeded: %!w(<nil>)")).
Proof.
  intros Hmax Hfail Hctx. unfold Do.
  destruct (Do_loop_exhausts lib env config Hfail Hctx
              (Z.to_nat (MaxRetries config)) 0 None start ltac:(lia))
    as [Hres [Hcalls _]].
  split; [exact Hres|]. split; [|split; [|split; [|split]]].
  - rewrite Hcalls. cbn [calls start]. lia.
  - intro env'.
    pose proof (Do_loop_calls_le lib env' config
                  (Z.to_nat (MaxRetries config)) 0 None start) as Hle.
    cbn [calls start] in Hle. lia.
  - rewrite Hres. reflexivity.
  - intro H1. rewrite Hres.
    destruct (Z.to_nat (MaxRetries config)) as [|n] eqn:Hn; [lia|].
    replace (Z.to_nat (MaxRetries config - 1)) with n by lia.
    cbn [last_error start calls Nat.add].
    destruct (Hfail n) as [err [Hop _]]. exists err.
    rewrite Hop. split; reflexivity.
  - intro H0. rewrite Hres, H0. reflexivity.
Qed.

Lemma Do_exhausted_witness :
  reason (fst (Do golib failing_env exceeded_config)) = Exhausted /\
  returned (fst (Do golib failing_env exceeded_config)) =
    Some (wrapError "retries exceeded: always fails" always_fails) /\
  Z.of_nat (calls (snd (Do golib failing_env exceeded_config))) = 2.
Proof.
  assert (H0 : 0 <= MaxRetries exceeded_config) by discriminate.
  assert (H1 : forall k, exists err,
             operation failing_env k = Some err /\ IsRetryable err = true).
  { intro k. exists always_fails. split; reflexivity. }
  assert (H2 : forall k d, ctx_Done failing_env k d = false)
    by reflexivity.
  destruct (Do_exhausted golib failing_env exceeded_config H0 H1 H2)
    as [_ [Hcalls [_ [Hreason [Hret _]]]]].
  split; [exact Hreason|]. split; [|exact Hcalls].
  destruct (Hret ltac:(discriminate)) as [err [Hop Hr]].
  injection Hop as <-. exact Hr.
Defined.

(** C7. When the first call fails with an error that is not retryable,
    [Do] returns at once, after that one call and whatever [MaxRetries]
    (at least 1) is, an error that wraps the error of the call and
    whose message is [not retryable error: ] followed by the message of
    that error.  The message does not begin with [retries exceeded: ],
    as the message of every error returned on exhaustion does, and the
    value is none that is returned on exhaustion. *)
Theorem Do_non_retryable (lib : Library) (env : Env) (config : Config)
    (err : error) :
  1 <= MaxRetries config ->
  operation env 0%nat = Some err ->
  IsRetryable err = false ->
  fst (Do lib env config) = not_retryable lib (Some err) /\
  calls (snd (Do lib env config)) = 1%nat /\
  (forall lastErr,
      returned (not_retryable lib (Some err)) <>
      returned (retries_exceeded lib lastErr)) /\
  reason (fst (Do lib env config)) = NonRetryable /\
  returned (fst (Do lib env config)) =
    Some (wrapError (String.append "not retryable error: " (Error lib err))
            err) /\
  String.prefix "not retryable error: "
    (String.append "not retryable error: " (Error lib err)) = true /\
  String.prefix "retries exceeded: "
    (String.append "not retryable error: " (Error lib err)) = false /\
  (forall lastErr,
      Some (wrapError (String.append "not retryable error: " (Error lib err))
              err) <>
      Some (match lastErr with
            | Some e =>
                wrapError (String.append "retries exceeded: " (Error lib e)) e
            | None => errorString "retries exceeded: %!w(<nil>)"
            end)).
Proof.
  intros Hmax Hop Hretry. unfold Do.
  destruct (Z.to_nat (MaxRetries config)) as [|n] eqn:Hn; [lia|].
  cbn [Do_loop]. unfold bind.
  body_paths env start 0 config; cbn [start calls] in *; try congruence.
  assert (err0 = err) by congruence. subst err0.
  split; [reflexivity|]. split; [reflexivity|].
  split; [intros [e|]; unfold Errorf; cbn; intro H; discriminate H|].
  split; [reflexivity|]. split; [reflexivity|].
  split; [apply prefix_append|].
  split; [apply prefix_mismatch; discriminate|].
  intros [e|]; cbn; intro H; discriminate H.
Qed.

Lemma Do_non_retryable_witness :
  reason (fst (Do golib fatal_env cancel_config)) = NonRetryable /\
  returned (fst (Do golib fatal_env cancel_config)) =
    Some (wrapError "not retryable error: fatal" (errorString "fatal")) /\
  calls (snd (Do golib fatal_env cancel_config)) = 1%nat.
Proof.
  assert (H0 : 1 <= MaxRetries cancel_config) by discriminate.
  destruct (Do_non_retryable golib fatal_env cancel_config
              (errorString "fatal") H0 eq_refl eq_refl)
    as [_ [Hcalls [_ [Hreason [Hret _]]]]].
  split; [exact Hreason|]. split; [exact Hret | exact Hcalls].
Defined.

(** C8. When the first two calls fail retryably and the context is done
    during the wait after the second, not during the one after the first,
    [Do] leaves through [timed out], wrapping the error of the second
    call, after exactly two calls. *)
Theorem Do_cancelled_in_second_wait (lib : Library) (env : Env)
    (config : Config) (e1 e2 : error) :
  2 <= MaxRetries config ->
  operation env 0%nat = Some e1 -> IsRetryable e1 = true ->
  operation env 1%nat = Some e2 -> IsRetryable e2 = true ->
  (forall d, ctx_Done env 0%nat d = false) ->
  (forall d, ctx_Done env 1%nat d = true) ->
  fst (Do lib env config) = timed_out lib (Some e2) /\
  returned (fst (Do lib env config)) =
    Some (wrapError (String.append "timed out: " (Error lib e2)) e2) /\
  calls (snd (Do lib env config)) = 2%nat.
Proof.
  intros Hmax Hop1 Hr1 Hop2 Hr2 Hwait1 Hwait2. unfold Do.
  destruct (Z.to_nat (MaxRetries config)) as [|[|n]] eqn:Hn; try lia.
  assert (H0 : (0 =? MaxRetries config) = false) by (apply Z.eqb_neq; lia).
  assert (H1 : (0 + 1 =? MaxRetries config) = false)
    by (apply Z.eqb_neq; lia).
  cbn [Do_loop].
  unfold bind, Do_body, bind, call, printf, backoff_for, select_Done, ret.
  unfold start. body_step.
  rewrite Hop1. body_step. rewrite Hr1, H0. body_step.
  rewrite Hwait1. body_step.
  rewrite Hop2. body_step. rewrite Hr2, H1. body_step.
  rewrite Hwait2. body_step.
  repeat split.
Qed.

Lemma Do_cancelled_in_second_wait_witness :
  fst (Do golib cancelling_env cancel_config) =
    timed_out golib (Some always_fails) /\
  calls (snd (Do golib cancelling_env cancel_config)) = 2%nat.
Proof.
  assert (H0 : 2 <= MaxRetries cancel_config) by discriminate.
  destruct (Do_cancelled_in_second_wait golib cancelling_env cancel_config
              always_fails always_fails H0 eq_refl eq_refl eq_refl eq_refl
              (fun _ => eq_refl) (fun _ => eq_refl)) as [Hres [_ Hcalls]].
  split; [exact Hres | exact Hcalls].
Defined.

Lemma Error_Errorf (lib : Library) (p : string) (a : option error) :
  Error lib (Errorf lib p a) = String.append p (operand_text lib a).
Proof. destruct a; reflexivity. Qed.

Section Results.
Variable lib : Library.
Variable env : Env.
Variable config : Config.

Lemma Do_loop_terminal (n : nat) :
  forall (attempt : Z) (lastErr : option error) (w : world),
    terminal lib (fst (Do_loop lib env config n attempt lastErr w)).
Proof.
  induction n as [|n IH]; intros attempt lastErr w.
  - cbn. constructor.
  - cbn [Do_loop]. unfold bind.
    body_paths env w attempt config; try constructor. apply IH.
Qed.

Lemma terminal_message (r : result) :
  terminal lib r ->
  match returned r with
  | None => reason r = Success
  | Some e =>
      reason r <> Success /\
      classify_message (Error lib e) = Some (reason r) /\
      exists prefix lastErr, e = Errorf lib prefix lastErr
  end.
Proof.
  intros [ |l|l|l]; cbn [returned reason succeeded not_retryable timed_out
                          retries_exceeded]; [reflexivity| | | ];
    (split; [discriminate|]); (split; [|eexists; eexists; reflexivity]);
    rewrite Error_Errorf; unfold classify_message.
  - rewrite prefix_append. reflexivity.
  - rewrite prefix_mismatch by discriminate.
    rewrite prefix_append. reflexivity.
  - rewrite !prefix_mismatch by discriminate.
    rewrite prefix_append. reflexivity.
Qed.

End Results.

(** C2, as the code has it.  Every run of [Do] ends in exactly one of
    success and the three failures; a failure returns the value of one
    [Errorf] call, and the prefix of its message tells which of the three
    it is. *)
Theorem Do_reason_in_message (lib : Library) (env : Env) (config : Config) :
  match returned (fst (Do lib env config)) with
  | None => reason (fst (Do lib env config)) = Success
  | Some e =>
      reason (fst (Do lib env config)) <> Success /\
      classify_message (Error lib e) = Some (reason (fst (Do lib env config))) /\
      exists prefix lastErr, e = Errorf lib prefix lastErr
  end.
Proof.
  apply terminal_message. unfold Do. apply Do_loop_terminal.
Qed.

(** C2 as stated fails: a run that is cancelled and a run that exhausts its
    attempts return two values of one dynamic type around the same last
    error.  [errors.Is], [Unwrap] and the classifier answer the same on
    both; the text of the message is all that differs. *)
Lemma Do_reasons_differ_in_message_only :
  exists a b : error,
    fst (Do golib done_in_first_wait_env one_attempt_config) =
      {| reason := Cancelled; returned := Some a |} /\
    fst (Do golib failing_env one_attempt_config) =
      {| reason := Exhausted; returned := Some b |} /\
    a <> b /\
    same_but_message a b /\
    unwrapped a = unwrapped b /\
    (forall target, Is a target = Is b target) /\
    IsRetryable a = IsRetryable b.
Proof.
  exists (wrapError "timed out: always fails" always_fails),
         (wrapError "retries exceeded: always fails" always_fails).
  split; [vm_compute; reflexivity|].
  split; [vm_compute; reflexivity|].
  split; [discriminate|].
  split; [reflexivity|].
  split; [reflexivity|].
  split; [|reflexivity].
  intro target. rewrite !Is_unfold. destruct target; reflexivity.
Qed.

Section Output.
Variable lib : Library.
Variable env : Env.
Variable config : Config.

Lemma printed_snoc (t : list event) (ev : event) :
  printed (t ++ [ev]) = (printed t + if is_Printf ev then 1 else 0)%nat.
Proof.
  unfold printed. rewrite filter_app, length_app. cbn [filter].
  destruct (is_Printf ev); reflexivity.
Qed.

(** [Do] prints once for every call that fails. *)
Lemma Do_loop_printed (n : nat) :
  forall (attempt : Z) (lastErr : option error) (w : world),
    let rw := Do_loop lib env config n attempt lastErr w in
    (printed (trace (snd rw)) + calls w +
       match reason (fst rw) with Success => 1 | _ => 0 end =
     printed (trace w) + calls (snd rw))%nat.
Proof.
  induction n as [|n IH]; intros attempt lastErr w; cbv zeta.
  - cbn. lia.
  - cbn [Do_loop]. unfold bind.
    body_paths env w attempt config;
      cbn [reason retries_exceeded timed_out not_retryable succeeded];
      rewrite ?printed_snoc; cbn [is_Printf]; try lia.
    match goal with
    | |- context [Do_loop lib env config n ?a ?l ?w1] =>
        pose proof (IH a l w1) as H; cbv zeta in H;
        cbn [calls trace] in H; rewrite ?printed_snoc in H;
        cbn [is_Printf] in H
    end.
    lia.
Qed.

Lemma DoWithNotify_loop_allowed (notify : bool) (n : nat) :
  forall (attempt : Z) (lastErr : option error) (w : world),
    forallb (allowed notify) (trace w) = true ->
    forallb (allowed notify)
      (trace (snd (DoWithNotify_loop lib env config notify n attempt lastErr w)))
    = true.
Proof.
  induction n as [|n IH]; intros attempt lastErr w Hw.
  - exact Hw.
  - cbn [DoWithNotify_loop]. unfold bind.
    destruct notify;
      body_paths env w attempt config;
      try (apply IH; cbn [trace]);
      rewrite ?forallb_app, ?Hw; reflexivity.
Qed.

End Output.

(** C4, as the code has it.  [DoWithNotify] does nothing that can be seen
    from outside but call the operation, call the callback when it has
    one, and wait; [Do] besides prints one line to the standard output
    for every call that fails. *)
Theorem DoWithNotify_no_output (lib : Library) (env : Env) (config : Config)
    (notify : bool) :
  forallb (allowed notify)
    (trace (snd (DoWithNotify lib env config notify))) = true /\
  printed (trace (snd (DoWithNotify lib env config notify))) = 0%nat /\
  printed (trace (snd (Do lib env config))) =
    failed_calls (fst (Do lib env config)) (snd (Do lib env config)).
Proof.
  assert (Hall : forallb (allowed notify)
                   (trace (snd (DoWithNotify lib env config notify))) = true).
  { unfold DoWithNotify. apply DoWithNotify_loop_allowed. reflexivity. }
  split; [exact Hall|]. split.
  - unfold printed.
    induction (trace (snd (DoWithNotify lib env config notify)))
      as [|ev t IH]; [reflexivity|].
    cbn [forallb] in Hall. apply andb_true_iff in Hall as [Hev Ht].
    cbn [filter]. destruct ev; cbn [is_Printf]; try (apply IH; exact Ht).
    discriminate Hev.
  - unfold Do, failed_calls.
    pose proof (Do_loop_printed lib env config
                  (Z.to_nat (MaxRetries config)) 0 None start) as H.
    cbv zeta in H. cbn [calls trace start printed filter List.length] in H.
    pose proof (Do_loop_calls_le lib env config
                  (Z.to_nat (MaxRetries config)) 0 None start) as _.
    destruct (reason (fst (Do_loop lib env config
                             (Z.to_nat (MaxRetries config)) 0 None start)));
      lia.
Qed.

(** C4 as stated fails for [Do]: its one failed call is followed by a line
    on the standard output. *)
Lemma Do_prints :
  trace (snd (Do golib failing_env one_attempt_config)) =
    [Invoke; Printf 0 1 always_fails; Select (10 * Millisecond)] /\
  printed (trace (snd (Do golib failing_env one_attempt_config))) = 1%nat.
Proof. split; vm_compute; reflexivity. Qed.

Section FinalWait.
Variable lib : Library.
Variable env : Env.
Variable config : Config.

(** The guard [attempt == config.MaxRetries] never holds in a pass the
    loop makes, so a run that leaves through [retries exceeded] after a
    pass has just come out of a wait. *)
Lemma Do_loop_exhausted_after_wait (n : nat) :
  forall (attempt : Z) (lastErr : option error) (w : world),
    attempt + Z.of_nat n = MaxRetries config ->
    reason (fst (Do_loop lib env config n attempt lastErr w)) = Exhausted ->
    (n = 0%nat /\ snd (Do_loop lib env config n attempt lastErr w) = w) \/
    exists t d,
      trace (snd (Do_loop lib env config n attempt lastErr w)) =
      (t ++ [Select d])%list.
Proof.
  induction n as [|n IH]; intros attempt lastErr w Hn Hr.
  - left. split; reflexivity.
  - right. revert Hr. cbn [Do_loop]. unfold bind.
    body_paths env w attempt config;
      cbn [reason timed_out not_retryable succeeded retries_exceeded];
      try discriminate.
    + apply Z.eqb_eq in Hlast. lia.
    + intro Hr.
      match goal with
      | |- context [Do_loop lib env config n ?a ?l ?w1] =>
          destruct (IH a l w1 ltac:(lia) Hr) as [[_ Hw]|Hex]
      end.
      * rewrite Hw. cbn [trace]. eexists. eexists. reflexivity.
      * exact Hex.
Qed.

End FinalWait.

(** C3, where the code departs from it.  With one attempt allowed and the
    operation failing retryably, [Do] after that only, final attempt
    still draws a jitter value and waits 10ms before it returns
    [retries exceeded]; when the context is done during that wait it
    returns [timed out] instead; and [DoWithNotify] calls the callback
    for a retry that never comes.  In general, whenever [Do] gives up
    with [retries exceeded] after at least one attempt, the last thing
    it did was to wait. *)
Theorem Do_waits_after_final_attempt :
  Do golib failing_env one_attempt_config =
    (retries_exceeded golib (Some always_fails),
     {| calls := 1; draws := 1; selects := 1;
        trace := [Invoke; Printf 0 1 always_fails;
                  Select (10 * Millisecond)] |}) /\
  fst (Do golib done_in_first_wait_env one_attempt_config) =
    timed_out golib (Some always_fails) /\
  trace (snd (DoWithNotify golib failing_env one_attempt_config true)) =
    [Invoke; Notify always_fails (10 * Millisecond);
     Select (10 * Millisecond)] /\
  (forall lib env config,
      1 <= MaxRetries config ->
      reason (fst (Do lib env config)) = Exhausted ->
      exists t d, trace (snd (Do lib env config)) = (t ++ [Select d])%list).
Proof.
  split; [|split; [|split]].
  - vm_compute. reflexivity.
  - vm_compute. reflexivity.
  - vm_compute. reflexivity.
  - intros lib env config Hmax Hr. unfold Do in *.
    destruct (Do_loop_exhausted_after_wait lib env config
                (Z.to_nat (MaxRetries config)) 0 None start ltac:(lia) Hr)
      as [[Hz _]|Hex]; [lia|exact Hex].
Qed.

(** ** Further properties of the classifier *)

(** [errors.As] finds nothing exactly when the error itself is not of
    the target's type and [errors.As] finds nothing in what it unwraps
    to. *)
Lemma As_None {T : Type} (sel : error -> option T) (err : error) :
  As sel err = None <->
  sel err = None /\ forall e, In e (unwrapped err) -> As sel e = None.
Proof.
  destruct err as [s| | |e|m e|m tp to [e|]|n|es]; cbn [As unwrapped];
    destruct (sel _) as [x|] eqn:Hs;
    try (split; [discriminate|intros [H _]; discriminate H]).
  1-3, 7-8: split; [intros _; split; [reflexivity|intros e' []]|reflexivity].
  1-3: split;
         [intro H; split; [reflexivity|intros e' [<-|[]]; exact H]
         |intros [_ H]; apply H; left; reflexivity].
  clear Hs. induction es as [|e es IH].
  - split; [intros _; split; [reflexivity|intros e' []]|reflexivity].
  - destruct (As sel e) as [x|] eqn:He.
    + split; [discriminate|]. intros [_ H].
      specialize (H e (or_introl eq_refl)). congruence.
    + split.
      * intro H. apply IH in H as [_ H]. split; [reflexivity|].
        intros e' [<-|Hin]; [exact He|apply H; exact Hin].
      * intros [_ H]. apply IH. split; [reflexivity|].
        intros e' Hin. apply H. right. exact Hin.
Qed.

(** When [errors.As] finds nothing, no error of the tree is of the
    target's type. *)
Lemma As_None_Wraps {T : Type} (sel : error -> option T) (node err : error) :
  Wraps node err -> As sel err = None -> sel node = None.
Proof.
  intro H. induction H as [|err e Hin _ IH]; intro HA;
    apply As_None in HA as [Hs Hu]; [exact Hs|].
  apply IH, Hu, Hin.
Qed.

(** Induction on an error along [unwrapped]. *)
Lemma error_nested_ind (P : error -> Prop) :
  (forall err, (forall e, In e (unwrapped err) -> P e) -> P err) ->
  forall err, P err.
Proof.
  intro H. fix IH 1. intro err. apply H.
  destruct err as [s| | |e|m e|m tp to [e|]|n|es]; cbn [unwrapped];
    try (intros e' [He|[]]; rewrite <- He; apply IH); try (intros e' []).
  revert es. fix IHes 1. intros [|e es] e' Hin; [destruct Hin|].
  destruct Hin as [He|Hin]; [rewrite <- He; apply IH|exact (IHes es e' Hin)].
Qed.

(** And conversely: when no error of the tree is of the target's type,
    [errors.As] finds nothing. *)
Lemma Wraps_As_None {T : Type} (sel : error -> option T) (err : error) :
  (forall node, Wraps node err -> sel node = None) -> As sel err = None.
Proof.
  induction err as [err IH] using error_nested_ind. intro H.
  apply As_None. split; [apply H; constructor|].
  intros e Hin. apply IH; [exact Hin|].
  intros node Hn. apply H. econstructor; eassumption.
Qed.

Lemma Wraps_inv (node err : error) :
  Wraps node err ->
  node = err \/ exists e, In e (unwrapped err) /\ Wraps node e.
Proof.
  intros [|err' e Hin Hw]; [left; reflexivity|right; exists e; split; assumption].
Qed.

(** A [syscall.Errno] has the methods of a [net.Error]. *)
Lemma asErrno_asNetError (node : error) (e : Z) :
  asErrno node = Some e -> asNetError node <> None.
Proof. destruct node; intro H; try discriminate H; discriminate. Qed.

Lemma As_asErrno_asNetError (err : error) :
  As asNetError err = None -> As asErrno err = None.
Proof.
  intro H. apply Wraps_As_None. intros node Hn.
  pose proof (As_None_Wraps asNetError node err Hn H) as Hs.
  destruct (asErrno node) as [e|] eqn:He; [|reflexivity].
  exfalso. exact (asErrno_asNetError node e He Hs).
Qed.

Lemma IsRetryable_wrapError (msg : string) (e : error) :
  IsRetryable (wrapError msg e) = IsRetryable e.
Proof. reflexivity. Qed.

Lemma IsRetryable_RetryableError (e : error) :
  IsRetryable (RetryableError e) = negb (Is e ctxCanceled).
Proof.
  unfold IsRetryable. cbn [Is same_error orb As asRetryableError].
  destruct (Is e ctxCanceled); reflexivity.
Qed.

Lemma IsRetryable_not_Canceled (err : error) :
  IsRetryable err = true -> Is err ctxCanceled = false.
Proof.
  unfold IsRetryable. destruct (Is err ctxCanceled); [discriminate|reflexivity].
Qed.

(** X1. The fourth rule of [IsRetryable], the one that names
    [ECONNREFUSED] and [ECONNRESET], never decides: an error in which
    [errors.As] finds a [syscall.Errno] is one in which it finds a
    [net.Error], so the third rule has answered before.  [IsRetryable]
    is the classifier of the first three rules. *)
Theorem IsRetryable_errno_rule_unreachable (err : error) :
  (forall syscallErr, As asErrno err = Some syscallErr ->
     exists temporary timeout, As asNetError err = Some (temporary, timeout)) /\
  IsRetryable err =
    (if Is err ctxCanceled then false
     else
       match As asRetryableError err with
       | Some _ => true
       | None =>
           match As asNetError err with
           | Some (temporary, timeout) => temporary || timeout
           | None => false
           end
       end).
Proof.
  split.
  - intros e He. destruct (As asNetError err) as [[t to]|] eqn:Hn.
    + exists t, to. reflexivity.
    + rewrite (As_asErrno_asNetError err Hn) in He. discriminate He.
  - unfold IsRetryable. destruct (Is err ctxCanceled); [reflexivity|].
    destruct (As asRetryableError err); [reflexivity|].
    destruct (As asNetError err) as [[t to]|] eqn:Hn; [reflexivity|].
    rewrite (As_asErrno_asNetError err Hn). reflexivity.
Qed.

(** X2. A [syscall.Errno], bare or wrapped by any number of
    [fmt.Errorf] calls, is retryable exactly when its own [Temporary] or
    [Timeout] method says so; [ECONNREFUSED] and [ECONNRESET] are not
    retryable. *)
Theorem IsRetryable_wrapped_Errno (msgs : list string) (e : Z) :
  IsRetryable (fold_right wrapError (Errno e) msgs) =
    Errno_Temporary e || Errno_Timeout e /\
  IsRetryable (fold_right wrapError (Errno ECONNREFUSED) msgs) = false /\
  IsRetryable (fold_right wrapError (Errno ECONNRESET) msgs) = false.
Proof.
  assert (H : forall n, IsRetryable (fold_right wrapError (Errno n) msgs) =
                        IsRetryable (Errno n)).
  { intro n. induction msgs as [|m msgs IH]; [reflexivity|].
    cbn [fold_right]. rewrite IsRetryable_wrapError. exact IH. }
  rewrite !H. repeat split; reflexivity.
Qed.

(** X3. An error that holds a [RetryableError] anywhere in its tree is
    retryable, unless [errors.Is] finds [context.Canceled] in it. *)
Theorem IsRetryable_marked (err e : error) :
  Wraps (RetryableError e) err ->
  Is err ctxCanceled = false ->
  IsRetryable err = true.
Proof.
  intros Hw Hc. unfold IsRetryable. rewrite Hc.
  destruct (As asRetryableError err) eqn:HA; [reflexivity|].
  pose proof (As_None_Wraps asRetryableError _ _ Hw HA) as H.
  discriminate H.
Qed.

Lemma IsRetryable_marked_witness :
  IsRetryable
    (wrapError "query: dial: refused"
       (joinError [errorString "query";
                   RetryableError (errorString "dial: refused")])) = true.
Proof.
  apply (IsRetryable_marked _ (errorString "dial: refused")).
  - apply Wraps_under
      with (e := joinError [errorString "query";
                            RetryableError (errorString "dial: refused")]).
    + left. reflexivity.
    + apply Wraps_under
        with (e := RetryableError (errorString "dial: refused")).
      * right. left. reflexivity.
      * apply Wraps_here.
  - reflexivity.
Defined.

(** X4. An error none of whose nodes is a [RetryableError] or has the
    methods of a [net.Error] (as [context.DeadlineExceeded] and every
    [syscall.Errno] have) is not retryable. *)
Theorem IsRetryable_unmarked (err : error) :
  (forall node, Wraps node err ->
     asRetryableError node = None /\ asNetError node = None) ->
  IsRetryable err = false.
Proof.
  intro H. unfold IsRetryable. destruct (Is err ctxCanceled); [reflexivity|].
  assert (Hn : As asNetError err = None)
    by (apply Wraps_As_None; intros node Hw; apply H; exact Hw).
  rewrite (Wraps_As_None asRetryableError err)
    by (intros node Hw; apply H; exact Hw).
  rewrite Hn, (As_asErrno_asNetError err Hn). reflexivity.
Qed.

Lemma IsRetryable_unmarked_witness :
  IsRetryable
    (wrapError "insert: duplicate key"
       (joinError [errorString "insert"; errorString "duplicate key"]))
  = false.
Proof.
  apply IsRetryable_unmarked. intros node Hw.
  apply Wraps_inv in Hw as [->|[e [Hin Hw]]]; [split; reflexivity|].
  destruct Hin as [<-|[]].
  apply Wraps_inv in Hw as [->|[e [Hin Hw]]]; [split; reflexivity|].
  destruct Hin as [<-|[<-|[]]];
    apply Wraps_inv in Hw as [->|[e [[] _]]]; split; reflexivity.
Defined.

(** ** Further properties of the retry loops *)

Lemma seq_split_first (c m : nat) :
  (c < m)%nat -> seq c (m - c) = c :: seq (S c) (m - S c).
Proof.
  intro H. replace (m - c)%nat with (S (m - S c)) by lia. reflexivity.
Qed.

Section Passes.
Variable lib : Library.
Variable env : Env.
Variable config : Config.

(** The passes of [Do] write to the trace in turn; each draws once
    when it waits. *)
Lemma Do_loop_trace (n : nat) :
  forall (attempt : Z) (lastErr : option error) (w : world),
    attempt = Z.of_nat (calls w) -> draws w = calls w -> selects w = calls w ->
    attempt + Z.of_nat n = Z.max 0 (MaxRetries config) ->
    (calls w <= calls (snd (Do_loop lib env config n attempt lastErr w)))%nat /\
    draws (snd (Do_loop lib env config n attempt lastErr w)) =
      selects (snd (Do_loop lib env config n attempt lastErr w)) /\
    trace (snd (Do_loop lib env config n attempt lastErr w)) =
      (trace w ++
       flat_map (Do_pass lib env config)
         (seq (calls w)
            (calls (snd (Do_loop lib env config n attempt lastErr w)) -
             calls w)))%list.
Proof.
  induction n as [|n IH]; intros attempt lastErr w Ha Hd Hs Hn.
  - cbn [Do_loop ret snd]. rewrite Nat.sub_diag. cbn [seq flat_map].
    rewrite app_nil_r. repeat split; [lia|congruence].
  - cbn [Do_loop]. unfold bind.
    body_paths env w attempt config; cbn [ret snd calls draws selects trace].
    + apply Z.eqb_eq in Hlast. lia.
    + replace (S (calls w) - calls w)%nat with 1%nat by lia.
      cbn [seq flat_map]. unfold Do_pass. rewrite Hop, Hretry, Hd, <- Ha.
      rewrite <- !app_assoc, app_nil_r. cbn [app].
      repeat split; [lia|congruence].
    + match goal with
      | |- context [Do_loop lib env config n ?a ?l ?w1] =>
          destruct (IH a l w1) as [Hc [Hds Ht]];
          cbn [calls draws selects trace] in *; try lia
      end.
      split; [lia|]. split; [exact Hds|]. rewrite Ht.
      rewrite (seq_split_first (calls w)) by lia.
      cbn [flat_map]. unfold Do_pass at 2. rewrite Hop, Hretry, Hd, <- Ha.
      rewrite <- !app_assoc. cbn [app]. reflexivity.
    + replace (S (calls w) - calls w)%nat with 1%nat by lia.
      cbn [seq flat_map]. unfold Do_pass. rewrite Hop, Hretry, <- Ha.
      rewrite <- !app_assoc, app_nil_r. cbn [app].
      repeat split; [lia|congruence].
    + replace (S (calls w) - calls w)%nat with 1%nat by lia.
      cbn [seq flat_map]. unfold Do_pass. rewrite Hop.
      rewrite app_nil_r.
      repeat split; [lia|congruence].
Qed.

Lemma DoWithNotify_loop_trace (notify : bool) (n : nat) :
  forall (attempt : Z) (lastErr : option error) (w : world),
    attempt = Z.of_nat (calls w) -> draws w = calls w -> selects w = calls w ->
    attempt + Z.of_nat n = Z.max 0 (MaxRetries config) ->
    (calls w <=
     calls (snd (DoWithNotify_loop lib env config notify n attempt lastErr w)))%nat /\
    trace (snd (DoWithNotify_loop lib env config notify n attempt lastErr w)) =
      (trace w ++
       flat_map (DoWithNotify_pass lib env config notify)
         (seq (calls w)
            (calls (snd (DoWithNotify_loop lib env config notify n attempt
                           lastErr w)) -
             calls w)))%list.
Proof.
  induction n as [|n IH]; intros attempt lastErr w Ha Hd Hs Hn.
  - cbn [DoWithNotify_loop ret snd]. rewrite Nat.sub_diag. cbn [seq flat_map].
    rewrite app_nil_r. split; [lia|reflexivity].
  - cbn [DoWithNotify_loop]. unfold bind.
    destruct notify;
      body_paths env w attempt config; cbn [ret snd calls draws selects trace];
      try (apply Z.eqb_eq in Hlast; lia);
      try (replace (S (calls w) - calls w)%nat with 1%nat by lia;
           cbn [seq flat_map]; unfold DoWithNotify_pass;
           rewrite Hop, ?Hretry, ?Hd, <- ?Ha;
           rewrite <- ?app_assoc, ?app_nil_r; cbn [app];
           split; [lia|reflexivity]);
      match goal with
      | |- context [DoWithNotify_loop lib env config _ n ?a ?l ?w1] =>
          destruct (IH a l w1) as [Hc Ht];
          cbn [calls draws selects trace] in *; try lia
      end;
      (split; [lia|]); rewrite Ht;
      rewrite (seq_split_first (calls w)) by lia;
      cbn [flat_map]; unfold DoWithNotify_pass at 2;
      rewrite Hop, Hretry, Hd, <- Ha;
      rewrite <- !app_assoc; cbn [app]; reflexivity.
Qed.

(** The passes of [DoWithNotify] return what the passes of [Do] return
    and call, draw and wait as often, with a callback or without. *)
Lemma DoWithNotify_loop_Do_loop (notify : bool) (n : nat) :
  forall (attempt : Z) (lastErr : option error) (w1 w2 : world),
    same_counts w1 w2 ->
    fst (DoWithNotify_loop lib env config notify n attempt lastErr w1) =
      fst (Do_loop lib env config n attempt lastErr w2) /\
    same_counts
      (snd (DoWithNotify_loop lib env config notify n attempt lastErr w1))
      (snd (Do_loop lib env config n attempt lastErr w2)).
Proof.
  destruct notify;
    (induction n as [|n IH]; intros attempt lastErr w1 w2 [Hc [Hd Hs]];
     [cbn; repeat split; assumption|]);
    cbn [DoWithNotify_loop Do_loop]; unfold bind;
    unfold Do_body, DoWithNotify_body, bind, call, printf, backoff_for,
      call_notify, select_Done, ret;
    body_step; rewrite Hc, Hd, Hs;
    (destruct (operation env (calls w2)) as [err|]; body_step;
     [|repeat split; reflexivity]);
    (destruct (IsRetryable err); body_step; [|repeat split; reflexivity]);
    (destruct (attempt =? MaxRetries config); body_step;
     [repeat split; reflexivity|]);
    (destruct (ctx_Done env (selects w2) _); body_step;
     [repeat split; reflexivity|]);
    apply IH; repeat split; reflexivity.
Qed.

(** How the passes end is read off the last call they made. *)
Lemma Do_loop_last_call (n : nat) :
  forall (attempt : Z) (lastErr : option error) (w : world),
    0 <= attempt ->
    attempt + Z.of_nat n = Z.max 0 (MaxRetries config) ->
    (n = 0%nat /\
     Do_loop lib env config n attempt lastErr w =
       (retries_exceeded lib lastErr, w)) \/
    ((calls w < calls (snd (Do_loop lib env config n attempt lastErr w)))%nat /\
     match
       operation env
         (pred (calls (snd (Do_loop lib env config n attempt lastErr w))))
     with
     | None => fst (Do_loop lib env config n attempt lastErr w) = succeeded
     | Some err =>
         if IsRetryable err
         then
           fst (Do_loop lib env config n attempt lastErr w) =
             timed_out lib (Some err) \/
           fst (Do_loop lib env config n attempt lastErr w) =
             retries_exceeded lib (Some err)
         else
           fst (Do_loop lib env config n attempt lastErr w) =
             not_retryable lib (Some err)
     end).
Proof.
  induction n as [|n IH]; intros attempt lastErr w H0 Hn.
  - left. split; reflexivity.
  - right. cbn [Do_loop]. unfold bind.
    body_paths env w attempt config; cbn [ret fst snd calls pred].
    + apply Z.eqb_eq in Hlast. lia.
    + rewrite Hop, Hretry. split; [lia|left; reflexivity].
    + match goal with
      | |- context [Do_loop lib env config n ?a ?l ?w1] =>
          destruct (IH a l w1 ltac:(lia) ltac:(lia)) as [[Hz Hw]|[Hc Hm]]
      end.
      * rewrite Hw. cbn [fst snd calls pred]. rewrite Hop, Hretry.
        split; [lia|right; reflexivity].
      * cbn [calls] in Hc. split; [lia|exact Hm].
    + rewrite Hop, Hretry. split; [lia|reflexivity].
    + rewrite Hop. split; [lia|reflexivity].
Qed.

(** [k] retryable failures whose waits the context lets pass, then a
    success. *)
Lemma Do_loop_succeeds (k : nat) :
  forall (n : nat) (attempt : Z) (lastErr : option error) (w : world),
    (k < n)%nat ->
    attempt + Z.of_nat n = MaxRetries config ->
    (forall i, (i < k)%nat ->
       exists err, operation env (calls w + i) = Some err /\
                   IsRetryable err = true) ->
    operation env (calls w + k) = None ->
    (forall i d, (i < k)%nat -> ctx_Done env (selects w + i) d = false) ->
    fst (Do_loop lib env config n attempt lastErr w) = succeeded /\
    calls (snd (Do_loop lib env config n attempt lastErr w)) = (calls w + S k)%nat /\
    draws (snd (Do_loop lib env config n attempt lastErr w)) = (draws w + k)%nat /\
    selects (snd (Do_loop lib env config n attempt lastErr w)) = (selects w + k)%nat.
Proof.
  induction k as [|k IH]; intros n attempt lastErr w Hk Hn Hfail Hok Hctx;
    (destruct n as [|n]; [lia|]); cbn [Do_loop]; unfold bind.
  - rewrite Nat.add_0_r in Hok.
    body_paths env w attempt config; try congruence.
    cbn [ret fst snd calls draws selects]. repeat split; lia.
  - destruct (Hfail 0%nat ltac:(lia)) as [e [He Hr]].
    rewrite Nat.add_0_r in He.
    pose proof (Hctx 0%nat) as Hc0. rewrite Nat.add_0_r in Hc0.
    body_paths env w attempt config; try congruence.
    + apply Z.eqb_eq in Hlast. lia.
    + rewrite Hc0 in Hdone by lia. discriminate.
    + match goal with
      | |- context [Do_loop lib env config n ?a ?l ?w1] =>
          destruct (IH n a l w1) as [Hres [Hc [Hd Hs]]];
          cbn [calls draws selects] in *; try lia
      end.
      * intros i Hi. replace (S (calls w) + i)%nat with (calls w + S i)%nat
          by lia. apply Hfail. lia.
      * replace (S (calls w) + k)%nat with (calls w + S k)%nat by lia.
        exact Hok.
      * intros i d Hi.
        replace (S (selects w) + i)%nat with (selects w + S i)%nat by lia.
        apply Hctx. lia.
      * rewrite Hres, Hc, Hd, Hs. repeat split; lia.
Qed.

End Passes.

(** A conjunction, with something that follows from it added. *)
Lemma conj_with2 (A B P : Prop) : (A /\ B -> P) -> A /\ B -> A /\ B /\ P.
Proof. tauto. Qed.

Lemma conj_with3 (A B C P : Prop) :
  (A /\ B /\ C -> P) -> A /\ B /\ C -> A /\ B /\ C /\ P.
Proof. tauto. Qed.

Lemma conj_with4 (A B C D P : Prop) :
  (A /\ B /\ C /\ D -> P) -> A /\ B /\ C /\ D -> A /\ B /\ C /\ D /\ P.
Proof. tauto. Qed.

(** X5. When the first [k] calls fail retryably, the context is not
    done during the [k] waits that follow them, and the call after them
    succeeds, with [k] below [MaxRetries], [Do] returns nil after
    [k + 1] calls, [k] draws and [k] waits. *)
Theorem Do_succeeds_after (lib : Library) (env : Env) (config : Config)
    (k : nat) :
  Z.of_nat k < MaxRetries config ->
  (forall i, (i < k)%nat ->
     exists err, operation env i = Some err /\ IsRetryable err = true) ->
  operation env k = None ->
  (forall i d, (i < k)%nat -> ctx_Done env i d = false) ->
  fst (Do lib env config) = succeeded /\
  calls (snd (Do lib env config)) = S k /\
  draws (snd (Do lib env config)) = k /\
  selects (snd (Do lib env config)) = k /\
  reason (fst (Do lib env config)) = Success /\
  returned (fst (Do lib env config)) = None.
Proof.
  intros Hk Hfail Hok Hctx.
  apply conj_with4; [intros [-> _]; split; reflexivity|]. unfold Do.
  apply (Do_loop_succeeds lib env config k (Z.to_nat (MaxRetries config))
           0 None start); cbn [start calls selects]; try assumption; lia.
Qed.

Lemma Do_succeeds_after_witness :
  fst (Do golib flaky_env DefaultConfig) = succeeded /\
  calls (snd (Do golib flaky_env DefaultConfig)) = 3%nat /\
  returned (fst (Do golib flaky_env DefaultConfig)) = None.
Proof.
  assert (Hk : Z.of_nat 2 < MaxRetries DefaultConfig) by reflexivity.
  assert (Hf : forall i, (i < 2)%nat ->
             exists err, operation flaky_env i = Some err /\
                         IsRetryable err = true).
  { intros i Hi. exists (RetryableError (errorString "simulated failure")).
    destruct i as [|[|i]]; [split; reflexivity|split; reflexivity|lia]. }
  destruct (Do_succeeds_after golib flaky_env DefaultConfig 2 Hk Hf eq_refl
              (fun _ _ _ => eq_refl)) as [Hr [Hc [_ [_ [_ Hret]]]]].
  split; [exact Hr|]. split; [exact Hc|exact Hret].
Defined.

(** X6. With [MaxRetries] zero or negative, as in the zero value of
    [Config], [Do] and [DoWithNotify] never call the operation: they
    return at once an error that wraps nothing, with the text
    [retries exceeded: %!w(<nil>)]. *)
Theorem Do_without_attempts (lib : Library) (env : Env) (config : Config)
    (notify : bool) :
  MaxRetries config <= 0 ->
  Do lib env config = (retries_exceeded lib None, start) /\
  DoWithNotify lib env config notify = (retries_exceeded lib None, start) /\
  returned (retries_exceeded lib None) =
    Some (errorString "retries exceeded: %!w(<nil>)") /\
  unwrapped (errorString "retries exceeded: %!w(<nil>)") = [].
Proof.
  intro Hmax. unfold Do, DoWithNotify.
  replace (Z.to_nat (MaxRetries config)) with 0%nat by lia.
  repeat split.
Qed.

Lemma Do_without_attempts_witness :
  Do golib failing_env table_config = (retries_exceeded golib None, start).
Proof.
  assert (H : MaxRetries table_config <= 0) by discriminate.
  destruct (Do_without_attempts golib failing_env table_config false H)
    as [Hd _].
  exact Hd.
Defined.

(** X7. What [Do] does is fixed by how many calls it makes: the pass
    with index [i] calls the operation, prints one line when the call
    fails, with [i] as the attempt number, and when the error is
    retryable waits for the backoff of attempt [i] computed with the
    draw of index [i].  It draws as often as it waits. *)
Theorem Do_trace (lib : Library) (env : Env) (config : Config) :
  trace (snd (Do lib env config)) =
    flat_map (Do_pass lib env config)
      (seq 0 (calls (snd (Do lib env config)))) /\
  draws (snd (Do lib env config)) = selects (snd (Do lib env config)).
Proof.
  unfold Do.
  destruct (Do_loop_trace lib env config (Z.to_nat (MaxRetries config))
              0 None start eq_refl eq_refl eq_refl ltac:(lia))
    as [_ [Hd Ht]].
  rewrite Ht. cbn [start calls trace app]. rewrite Nat.sub_0_r.
  split; [reflexivity|exact Hd].
Qed.

(** X8. With at least one attempt allowed, [Do] calls the operation at
    least once, and how it ends is read off the last call: nil when
    that call succeeded; [not retryable error] around its error when
    the error is not retryable; [timed out] or [retries exceeded]
    around its error when the error is retryable. *)
Theorem Do_outcome_of_last_call (lib : Library) (env : Env)
    (config : Config) :
  1 <= MaxRetries config ->
  (1 <= calls (snd (Do lib env config)))%nat /\
  match operation env (pred (calls (snd (Do lib env config)))) with
  | None => fst (Do lib env config) = succeeded
  | Some err =>
      if IsRetryable err
      then
        fst (Do lib env config) = timed_out lib (Some err) \/
        fst (Do lib env config) = retries_exceeded lib (Some err)
      else fst (Do lib env config) = not_retryable lib (Some err)
  end /\
  match operation env (pred (calls (snd (Do lib env config)))) with
  | None =>
      reason (fst (Do lib env config)) = Success /\
      returned (fst (Do lib env config)) = None
  | Some err =>
      if IsRetryable err
      then
        (reason (fst (Do lib env config)) = Cancelled /\
         returned (fst (Do lib env config)) =
           Some (wrapError (String.append "timed out: " (Error lib err)) err))
        \/
        (reason (fst (Do lib env config)) = Exhausted /\
         returned (fst (Do lib env config)) =
           Some (wrapError
                   (String.append "retries exceeded: " (Error lib err)) err))
      else
        reason (fst (Do lib env config)) = NonRetryable /\
        returned (fst (Do lib env config)) =
          Some (wrapError
                  (String.append "not retryable error: " (Error lib err)) err)
  end.
Proof.
  intro Hmax. apply conj_with2.
  { intros [_ Hm].
    destruct (operation env (pred (calls (snd (Do lib env config)))))
      as [err|]; [destruct (IsRetryable err)|].
    - destruct Hm as [->| ->]; [left|right]; split; reflexivity.
    - rewrite Hm. split; reflexivity.
    - rewrite Hm. split; reflexivity. }
  unfold Do.
  destruct (Do_loop_last_call lib env config (Z.to_nat (MaxRetries config))
              0 None start ltac:(lia) ltac:(lia)) as [[Hz _]|[Hc Hm]]; [lia|].
  cbn [start calls] in Hc. split; [lia|exact Hm].
Qed.

Lemma Do_outcome_of_last_call_witness :
  (1 <= calls (snd (Do golib flaky_env DefaultConfig)))%nat /\
  fst (Do golib flaky_env DefaultConfig) = succeeded /\
  returned (fst (Do golib flaky_env DefaultConfig)) = None.
Proof.
  assert (H : 1 <= MaxRetries DefaultConfig) by discriminate.
  destruct (Do_outcome_of_last_call golib flaky_env DefaultConfig H)
    as [Hc [Hm Hp]].
  split; [exact Hc|]. split; [exact Hm|]. exact (proj2 Hp).
Defined.

(** X9. With at least one attempt allowed, the error [Do] returns is
    classified by [IsRetryable] as the error it wraps: not retryable
    after [not retryable error], retryable after [timed out] and
    [retries exceeded].  A run that the context cut short returns an
    error in which [errors.Is] does not find [context.Canceled]. *)
Theorem Do_returns_retryable_error (lib : Library) (env : Env)
    (config : Config) (e : error) :
  1 <= MaxRetries config ->
  returned (fst (Do lib env config)) = Some e ->
  IsRetryable e =
    match reason (fst (Do lib env config)) with
    | NonRetryable => false
    | _ => true
    end /\
  (reason (fst (Do lib env config)) <> NonRetryable ->
   Is e ctxCanceled = false).
Proof.
  intros Hmax He. unfold Do in *.
  destruct (Do_loop_last_call lib env config (Z.to_nat (MaxRetries config))
              0 None start ltac:(lia) ltac:(lia)) as [[Hz _]|[_ Hm]]; [lia|].
  destruct (operation env _) as [err|].
  - destruct (IsRetryable err) eqn:Hr.
    + pose proof (IsRetryable_not_Canceled err Hr) as Hc.
      destruct Hm as [Hm|Hm]; rewrite Hm in *;
        cbn [returned reason timed_out retries_exceeded] in *;
        injection He as <-; unfold Errorf; rewrite IsRetryable_wrapError;
        (split; [exact Hr|intros _; exact Hc]).
    + rewrite Hm in *. cbn [returned reason not_retryable] in *.
      injection He as <-. unfold Errorf. rewrite IsRetryable_wrapError.
      split; [exact Hr|]. intro H. exfalso. apply H. reflexivity.
  - rewrite Hm in He. discriminate He.
Qed.

Lemma Do_returns_retryable_error_witness :
  IsRetryable (wrapError "timed out: always fails" always_fails) = true /\
  Is (wrapError "timed out: always fails" always_fails) ctxCanceled = false.
Proof.
  assert (H : 1 <= MaxRetries cancel_config) by discriminate.
  destruct (Do_returns_retryable_error golib cancelling_env cancel_config
              (wrapError "timed out: always fails" always_fails) H eq_refl)
    as [Hr Hc].
  split; [exact Hr|]. apply Hc. discriminate.
Defined.

(** X10. [DoWithNotify] returns what [Do] returns from the same
    operation results, draws and select outcomes, and calls, draws and
    waits as often, whether it has a callback or not. *)
Theorem DoWithNotify_returns_as_Do (lib : Library) (env : Env)
    (config : Config) (notify : bool) :
  fst (DoWithNotify lib env config notify) = fst (Do lib env config) /\
  calls (snd (DoWithNotify lib env config notify)) =
    calls (snd (Do lib env config)) /\
  draws (snd (DoWithNotify lib env config notify)) =
    draws (snd (Do lib env config)) /\
  selects (snd (DoWithNotify lib env config notify)) =
    selects (snd (Do lib env config)).
Proof.
  unfold DoWithNotify, Do.
  destruct (DoWithNotify_loop_Do_loop lib env config notify
              (Z.to_nat (MaxRetries config)) 0 None start start)
    as [Hr Hc]; [repeat split|].
  split; [exact Hr|exact Hc].
Qed.

(** X11. What [DoWithNotify] does is fixed by how many calls it makes:
    the pass with index [i] calls the operation and, when the call
    fails with a retryable error, calls the callback, if there is one,
    with that error and the backoff of attempt [i], and then waits for
    that same backoff.  The callback is called once before every wait
    and at no other time. *)
Theorem DoWithNotify_trace (lib : Library) (env : Env) (config : Config)
    (notify : bool) :
  trace (snd (DoWithNotify lib env config notify)) =
    flat_map (DoWithNotify_pass lib env config notify)
      (seq 0 (calls (snd (DoWithNotify lib env config notify)))).
Proof.
  unfold DoWithNotify.
  destruct (DoWithNotify_loop_trace lib env config notify
              (Z.to_nat (MaxRetries config))
              0 None start eq_refl eq_refl eq_refl ltac:(lia))
    as [_ Ht].
  rewrite Ht. cbn [start calls trace app]. rewrite Nat.sub_0_r. reflexivity.
Qed.

Section Skips.
Variable lib : Library.
Variable env : Env.
Variable config : Config.

(** [k] retryable failures whose waits the context lets pass take the
    loop [k] passes further. *)
Lemma Do_loop_skip (k : nat) :
  forall (n : nat) (attempt : Z) (lastErr : option error) (w : world),
    (k <= n)%nat ->
    attempt + Z.of_nat n = MaxRetries config ->
    (forall i, (i < k)%nat ->
       exists err, operation env (calls w + i) = Some err /\
                   IsRetryable err = true) ->
    (forall i d, (i < k)%nat -> ctx_Done env (selects w + i) d = false) ->
    exists (l : option error) (w' : world),
      Do_loop lib env config n attempt lastErr w =
        Do_loop lib env config (n - k) (attempt + Z.of_nat k) l w' /\
      calls w' = (calls w + k)%nat /\
      draws w' = (draws w + k)%nat /\
      selects w' = (selects w + k)%nat.
Proof.
  induction k as [|k IH]; intros n attempt lastErr w Hk Hn Hfail Hctx.
  - exists lastErr, w. rewrite Nat.sub_0_r, Z.add_0_r, !Nat.add_0_r.
    repeat split.
  - destruct n as [|n]; [lia|]. cbn [Do_loop]. unfold bind.
    destruct (Hfail 0%nat ltac:(lia)) as [e [He Hr]].
    rewrite Nat.add_0_r in He.
    pose proof (Hctx 0%nat) as Hc0. rewrite Nat.add_0_r in Hc0.
    body_paths env w attempt config; try congruence.
    + apply Z.eqb_eq in Hlast. lia.
    + rewrite Hc0 in Hdone by lia. discriminate.
    + match goal with
      | |- context [Do_loop lib env config n ?a ?l ?w1] =>
          destruct (IH n a l w1) as [l' [w' [Heq [Hc [Hd Hs]]]]];
          cbn [calls draws selects] in *; try lia
      end.
      * intros i Hi. replace (S (calls w) + i)%nat with (calls w + S i)%nat
          by lia. apply Hfail. lia.
      * intros i d Hi.
        replace (S (selects w) + i)%nat with (selects w + S i)%nat by lia.
        apply Hctx. lia.
      * exists l', w'. rewrite Heq.
        replace (attempt + 1 + Z.of_nat k) with (attempt + Z.of_nat (S k))
          by lia.
        cbn [Nat.sub]. repeat split; lia.
Qed.

End Skips.

(** X12. When the first [k] calls fail retryably and the context lets
    the [k] waits after them pass, the call after them fails retryably
    as well, with [k] below [MaxRetries], and the context is done
    during the wait that follows, [Do] returns [timed out] around the
    error of that last call after [k + 1] calls. *)
Theorem Do_cancelled_in_wait (lib : Library) (env : Env) (config : Config)
    (k : nat) (err : error) :
  Z.of_nat k < MaxRetries config ->
  (forall i, (i < k)%nat ->
     exists e, operation env i = Some e /\ IsRetryable e = true) ->
  (forall i d, (i < k)%nat -> ctx_Done env i d = false) ->
  operation env k = Some err -> IsRetryable err = true ->
  (forall d, ctx_Done env k d = true) ->
  fst (Do lib env config) = timed_out lib (Some err) /\
  calls (snd (Do lib env config)) = S k /\
  selects (snd (Do lib env config)) = S k /\
  reason (fst (Do lib env config)) = Cancelled /\
  returned (fst (Do lib env config)) =
    Some (wrapError (String.append "timed out: " (Error lib err)) err).
Proof.
  intros Hk Hfail Hctx Hop Hr Hdone.
  apply conj_with3; [intros [-> _]; split; reflexivity|]. unfold Do.
  destruct (Do_loop_skip lib env config k (Z.to_nat (MaxRetries config))
              0 None start ltac:(lia) ltac:(lia) Hfail Hctx)
    as [l [w' [Heq [Hc [Hd Hs]]]]].
  rewrite Heq. cbn [start calls draws selects Nat.add] in Hc, Hd, Hs.
  destruct (Z.to_nat (MaxRetries config) - k)%nat as [|n] eqn:Hn; [lia|].
  cbn [Do_loop]. unfold bind.
  body_paths env w' (0 + Z.of_nat k) config; rewrite Hc in *;
    try congruence.
  - apply Z.eqb_eq in Hlast. lia.
  - assert (err0 = err) by congruence. subst err0.
    rewrite Hs. repeat split.
Qed.

Lemma Do_cancelled_in_wait_witness :
  fst (Do golib cancelling_env cancel_config) =
    timed_out golib (Some always_fails) /\
  calls (snd (Do golib cancelling_env cancel_config)) = 2%nat /\
  returned (fst (Do golib cancelling_env cancel_config)) =
    Some (wrapError "timed out: always fails" always_fails).
Proof.
  assert (Hk : Z.of_nat 1 < MaxRetries cancel_config) by reflexivity.
  assert (Hf : forall i, (i < 1)%nat ->
             exists e, operation cancelling_env i = Some e /\
                       IsRetryable e = true).
  { intros i Hi. exists always_fails. split; reflexivity. }
  assert (Hc : forall i d, (i < 1)%nat -> ctx_Done cancelling_env i d = false).
  { intros i d Hi. destruct i as [|i]; [reflexivity|lia]. }
  destruct (Do_cancelled_in_wait golib cancelling_env cancel_config 1
              always_fails Hk Hf Hc eq_refl eq_refl (fun _ => eq_refl))
    as [Hr [Hcalls [_ [_ Hret]]]].
  split; [exact Hr|]. split; [exact Hcalls|exact Hret].
Defined.

(** X13. When the first [k] calls fail retryably and the context lets
    the [k] waits after them pass, and the call after them fails with
    an error that is not retryable, with [k] below [MaxRetries], [Do]
    returns [not retryable error] around that error after [k + 1]
    calls and [k] waits: it does not wait after the last call. *)
Theorem Do_non_retryable_after (lib : Library) (env : Env) (config : Config)
    (k : nat) (err : error) :
  Z.of_nat k < MaxRetries config ->
  (forall i, (i < k)%nat ->
     exists e, operation env i = Some e /\ IsRetryable e = true) ->
  (forall i d, (i < k)%nat -> ctx_Done env i d = false) ->
  operation env k = Some err -> IsRetryable err = false ->
  fst (Do lib env config) = not_retryable lib (Some err) /\
  calls (snd (Do lib env config)) = S k /\
  selects (snd (Do lib env config)) = k /\
  reason (fst (Do lib env config)) = NonRetryable /\
  returned (fst (Do lib env config)) =
    Some (wrapError (String.append "not retryable error: " (Error lib err))
            err).
Proof.
  intros Hk Hfail Hctx Hop Hr.
  apply conj_with3; [intros [-> _]; split; reflexivity|]. unfold Do.
  destruct (Do_loop_skip lib env config k (Z.to_nat (MaxRetries config))
              0 None start ltac:(lia) ltac:(lia) Hfail Hctx)
    as [l [w' [Heq [Hc [Hd Hs]]]]].
  rewrite Heq. cbn [start calls draws selects Nat.add] in Hc, Hd, Hs.
  destruct (Z.to_nat (MaxRetries config) - k)%nat as [|n] eqn:Hn; [lia|].
  cbn [Do_loop]. unfold bind.
  body_paths env w' (0 + Z.of_nat k) config; rewrite Hc in *;
    try congruence.
  assert (err0 = err) by congruence. subst err0.
  rewrite ?Hs. repeat split; assumption.
Qed.

Lemma Do_non_retryable_after_witness :
  fst (Do golib fatal_after_env cancel_config) =
    not_retryable golib (Some (errorString "fatal")) /\
  calls (snd (Do golib fatal_after_env cancel_config)) = 3%nat /\
  selects (snd (Do golib fatal_after_env cancel_config)) = 2%nat /\
  returned (fst (Do golib fatal_after_env cancel_config)) =
    Some (wrapError "not retryable error: fatal" (errorString "fatal")).
Proof.
  assert (Hk : Z.of_nat 2 < MaxRetries cancel_config) by reflexivity.
  assert (Hf : forall i, (i < 2)%nat ->
             exists e, operation fatal_after_env i = Some e /\
                       IsRetryable e = true).
  { intros i Hi. exists always_fails.
    destruct i as [|[|i]]; [split; reflexivity|split; reflexivity|lia]. }
  destruct (Do_non_retryable_after golib fatal_after_env cancel_config 2
              (errorString "fatal") Hk Hf (fun _ _ _ => eq_refl) eq_refl
              eq_refl) as [Hr [Hcalls [Hs [_ Hret]]]].
  split; [exact Hr|]. split; [exact Hcalls|]. split; [exact Hs|exact Hret].
Defined.

(** ** Further properties of the backoff calculator *)

(** X14. [calculateBackoff] floors the wait at zero: whatever the
    configuration, the attempt and the draw, it returns a duration that
    is not negative, or else the one value the conversion to [int64]
    gives a float that is a NaN or too large. *)
Theorem calculateBackoff_not_negative (lib : Library) (u : float)
    (attempt : Z) (config : Config) :
  calculateBackoff lib u attempt config = int64_indefinite \/
  0 <= calculateBackoff lib u attempt config.
Proof.
  unfold calculateBackoff.
  match goal with
  | |- context [if (?f <? 0)%float then _ else _] => set (final := f)
  end.
  destruct (final <? 0)%float eqn:Hneg; [right; vm_compute; discriminate|].
  rewrite ltb_spec in Hneg. change (Prim2SF 0) with (S754_zero false) in Hneg.
  unfold int64_of_float64.
  destruct (Prim2SF final) as [s|[|]| |[|] m e]; try (left; reflexivity);
    try (right; reflexivity); try discriminate Hneg.
  match goal with
  | |- context [if ?c then _ else _] => destruct c eqn:Hc
  end; [right|left; reflexivity].
  apply andb_true_iff in Hc as [_ _].
  destruct e as [|p|p]; [lia|apply Z.shiftl_nonneg; lia|
    apply Z.shiftr_nonneg; lia].
Qed.

(** *** A policy that does not grow *)

(** A valid float is stored with the exponent of its magnitude. *)
Lemma valid_finite_log2 (s : bool) (m : positive) (e : Z) :
  valid_binary (S754_finite s m e) = true ->
  fexp64 (Z.log2 (Zpos m) + 1 + e) = e.
Proof.
  intro V. destruct (valid_finite s m e V) as [[He1 He2] [Hl Hn]].
  unfold fexp64. destruct (Z.eq_dec e (-1074)) as [->|Hne]; [lia|].
  rewrite Hn by lia. lia.
Qed.

(** Two valid positive floats of one value are one float. *)
Lemma valid_xv_inj (m m' : positive) (e e' : Z) :
  valid_binary (S754_finite false m e) = true ->
  valid_binary (S754_finite false m' e') = true ->
  Zpos m * 2 ^ (e + scale) = Zpos m' * 2 ^ (e' + scale) ->
  S754_finite false m e = S754_finite false m' e'.
Proof.
  intros V V' Hv.
  destruct (valid_finite _ _ _ V) as [[He1 He2] _].
  destruct (valid_finite _ _ _ V') as [[He1' He2'] _].
  destruct (valid_finite_bounds _ _ _ V) as [_ [Hlo Hhi]].
  destruct (valid_finite_bounds _ _ _ V') as [_ [Hlo' Hhi']].
  assert (Hee : e = e').
  { destruct (Z.lt_trichotomy e e') as [Hlt|[Heq|Hgt]]; [|exact Heq|]; exfalso.
    - specialize (Hlo' ltac:(lia)).
      assert (2 ^ (53 + e + scale) <= 2 ^ (52 + e' + scale))
        by (apply Z.pow_le_mono_r; unfold scale; lia).
      lia.
    - specialize (Hlo ltac:(lia)).
      assert (2 ^ (53 + e' + scale) <= 2 ^ (52 + e + scale))
        by (apply Z.pow_le_mono_r; unfold scale; lia).
      lia. }
  subst e'. f_equal.
  assert (0 < 2 ^ (e + scale)) by (apply Z.pow_pos_nonneg; unfold scale; lia).
  apply Z.mul_cancel_r in Hv; [|lia]. congruence.
Qed.

(** Two floats that are not negative, not infinite and of one positive
    value are equal. *)
Lemma xv_inj (a b : float) :
  nonneg_ext (Prim2SF a) = true -> nonneg_ext (Prim2SF b) = true ->
  0 < xv (Prim2SF a) < overflow ->
  xv (Prim2SF a) = xv (Prim2SF b) -> a = b.
Proof.
  intros Na Nb Ha Hab.
  rewrite <- (SF2Prim_Prim2SF a), <- (SF2Prim_Prim2SF b). f_equal.
  pose proof (Prim2SF_valid a) as Va. pose proof (Prim2SF_valid b) as Vb.
  destruct (Prim2SF a) as [sa|[|]| |[|] ma ea]; try discriminate Na;
    cbn [xv] in Ha, Hab; try lia;
    destruct (Prim2SF b) as [sb|[|]| |[|] mb eb]; try discriminate Nb;
    cbn [xv] in Hab; try lia.
  apply valid_xv_inj; assumption.
Qed.

Lemma Prim2SF_one : Prim2SF 1 = S754_finite false 4503599627370496 (-52).
Proof. reflexivity. Qed.

Lemma xv_one : xv (Prim2SF 1) = 2 ^ scale.
Proof.
  rewrite Prim2SF_one. cbn [xv].
  change 4503599627370496 with (2 ^ 52). rewrite <- Z.pow_add_r by (unfold scale; lia).
  f_equal.
Qed.

(** A product of a positive finite float is a number. *)
Lemma SF64mul_finite_not_nan (mx : positive) (ex : Z) (A : spec_float) :
  valid_binary (S754_finite false mx ex) = true ->
  valid_binary A = true -> nonneg_ext A = true ->
  SF64mul (S754_finite false mx ex) A <> S754_nan.
Proof.
  intros Vx Va Na.
  destruct A as [sa|[|]| |[|] ma ea]; try discriminate Na; try discriminate.
  pose proof (SF64mul_finite_value mx ma ex ea Vx Va) as HR.
  intro E. rewrite E in HR. exact HR.
Qed.

(** Multiplying by one changes no positive finite float. *)
Lemma SF64mul_one_xv (mx : positive) (ex : Z) :
  valid_binary (S754_finite false mx ex) = true ->
  valid_binary (SF64mul (S754_finite false mx ex) (Prim2SF 1)) = true ->
  xv (SF64mul (S754_finite false mx ex) (Prim2SF 1)) = Zpos mx * 2 ^ (ex + scale).
Proof.
  intros Vx Vr. rewrite Prim2SF_one in *.
  pose proof (SF64mul_finite_value mx 4503599627370496 ex (-52) Vx eq_refl)
    as HR.
  destruct (valid_finite _ _ _ Vx) as [[He1 He2] _].
  destruct (valid_finite_bounds _ _ _ Vx) as [[Hpos Hov] _].
  assert (Hs : 0 < 2 ^ scale) by (apply Z.pow_pos_nonneg; unfold scale; lia).
  assert (Hone : 4503599627370496 * 2 ^ (-52 + scale) = 2 ^ scale).
  { change 4503599627370496 with (2 ^ 52).
    rewrite <- (Z.pow_add_r 2 52 (-52 + scale)) by (unfold scale; lia).
    f_equal; lia. }
  rewrite Hone, Z.div_mul in HR by lia.
  rewrite (rne_exact _ (ex + scale)) in HR.
  - destruct (rounds_to_xv _ _ Vr HR) as [_ Hxv]. rewrite Hxv. lia.
  - exact Hpos.
  - rewrite (grid_exp_scaled (Zpos mx) ex) by (unfold scale; lia).
    rewrite (valid_finite_log2 _ _ _ Vx). lia.
  - apply Z.mod_mul. lia.
Qed.

(** A float that is at least 1 multiplies a positive finite float to
    no less than it was. *)
Lemma mul_ge_one (x a : float) :
  nonneg64 x = true -> 0 < xv (Prim2SF x) ->
  (1 <=? a)%float = true ->
  nonneg_ext (Prim2SF (x * a)) = true /\
  xv (Prim2SF x) <= xv (Prim2SF (x * a)).
Proof.
  intros Nx Hpos Ha.
  destruct (leb_xv 1 a eq_refl Ha) as [Na Hle]. rewrite xv_one in Hle.
  pose proof (Prim2SF_valid x) as Vx. pose proof (Prim2SF_valid a) as Va.
  pose proof (Prim2SF_valid (x * a)) as Vr.
  pose proof (Prim2SF_valid (x * 1)) as V1.
  rewrite mul_spec in *. unfold nonneg64 in Nx.
  destruct (Prim2SF x) as [sx|[|]| |[|] mx ex]; try discriminate Nx;
    cbn [xv] in Hpos; [lia|].
  destruct (SF64mul_mono (S754_finite false mx ex) (Prim2SF 1) (Prim2SF a)
              Vx (Prim2SF_valid 1) Va eq_refl eq_refl Na
              ltac:(rewrite xv_one; exact Hle) V1 Vr
              (SF64mul_finite_not_nan mx ex _ Vx (Prim2SF_valid 1) eq_refl)
              (SF64mul_finite_not_nan mx ex _ Vx Va Na))
    as [_ [Nr Hm]].
  split; [exact Nr|].
  rewrite (SF64mul_one_xv mx ex Vx V1) in Hm. exact Hm.
Qed.

(** When [MaxBackoff] is not above a positive [InitialBackoff], the
    clamp cuts every product with a power that is at least 1 back to
    [MaxBackoff]. *)
Lemma clamped_exponential_at_MaxBackoff (lib : Library) (attempt : Z)
    (config : Config) :
  0 <= MaxBackoff config <= InitialBackoff config ->
  0 < InitialBackoff config < 2 ^ 63 ->
  (1 <=? math_Pow lib (BackoffFactor config) (float64_of_int attempt))%float
    = true ->
  clamped_exponential lib attempt config = float64_of_int (MaxBackoff config).
Proof.
  intros Hmax Hinit Hpow. unfold clamped_exponential.
  set (x := float64_of_int (InitialBackoff config)).
  set (fmax := float64_of_int (MaxBackoff config)).
  set (a := math_Pow lib (BackoffFactor config) (float64_of_int attempt)) in *.
  destruct (float64_of_int_value (InitialBackoff config) ltac:(lia))
    as [Nx Hx].
  destruct (float64_of_int_value (MaxBackoff config) ltac:(lia)) as [Nf Hf].
  pose proof (float64_of_int_positive (InitialBackoff config) Hinit) as Hxpos.
  fold x in Nx, Hx, Hxpos. fold fmax in Nf, Hf.
  destruct (mul_ge_one x a Nx Hxpos Hpow) as [Nr Hge].
  assert (Hfx : xv (Prim2SF fmax) <= xv (Prim2SF x)).
  { rewrite Hf, Hx.
    destruct (Z.eqb_spec (InitialBackoff config) 0) as [E|_]; [lia|].
    destruct (Z.eqb_spec (MaxBackoff config) 0) as [E|Hne].
    - rewrite <- Hx. lia.
    - assert (0 < 2 ^ scale) by (apply Z.pow_pos_nonneg; unfold scale; lia).
      apply rne_mono. nia. }
  unfold float64_min.
  rewrite (ltb_xv fmax (x * a) (nonneg_fin_ext _ (nonneg64_fin _ Nf)) Nr).
  destruct (Z.ltb_spec (xv (Prim2SF fmax)) (xv (Prim2SF (x * a))))
    as [_|Hle]; [reflexivity|].
  pose proof (nonneg64_below_overflow fmax Nf) as Hfo.
  apply xv_inj; try assumption; [|lia|lia].
  apply nonneg_fin_ext, nonneg64_fin, Nf.
Qed.

(** X15. When [MaxBackoff] is not above a positive [InitialBackoff],
    as in [DefaultConfig], the wait does not grow with the attempt: for
    one draw, [calculateBackoff] returns the same duration at all
    attempts at which the library's power of the growth factor is at
    least 1. *)
Theorem calculateBackoff_constant (lib : Library) (u : float)
    (config : Config) (n m : Z) :
  0 <= MaxBackoff config <= InitialBackoff config ->
  0 < InitialBackoff config < 2 ^ 63 ->
  (1 <=? math_Pow lib (BackoffFactor config) (float64_of_int n))%float = true ->
  (1 <=? math_Pow lib (BackoffFactor config) (float64_of_int m))%float = true ->
  calculateBackoff lib u n config = calculateBackoff lib u m config.
Proof.
  intros Hmax Hinit Hn Hm. unfold calculateBackoff.
  pose proof (clamped_exponential_at_MaxBackoff lib n config Hmax Hinit Hn)
    as En.
  pose proof (clamped_exponential_at_MaxBackoff lib m config Hmax Hinit Hm)
    as Em.
  unfold clamped_exponential, float64_min in En, Em.
  rewrite En, Em. reflexivity.
Qed.

Lemma calculateBackoff_constant_witness :
  calculateBackoff golib 0.25 0 DefaultConfig =
  calculateBackoff golib 0.25 7 DefaultConfig.
Proof.
  apply calculateBackoff_constant.
  - split; [discriminate|]. cbn. lia.
  - split; reflexivity.
  - vm_compute. reflexivity.
  - vm_compute. reflexivity.
Defined.

(** *** The wait under jitter *)

(** [binary_round] rounds to nearest, ties to even. *)
Lemma binary_round_value (p : positive) (e : Z) :
  -1074 <= e <= 971 ->
  rounds_to (binary_round prec emax false p e) (rne (Zpos p * 2 ^ (e + scale))).
Proof.
  intro He. unfold binary_round.
  set (e' := fexp prec emax (Zpos (digits2_pos p) + e)).
  assert (He' : -1074 <= e') by (unfold e'; rewrite fexp_64; unfold fexp64; lia).
  destruct (shl_align_general p e e' ltac:(unfold scale; lia)
              ltac:(unfold scale; lia)) as [Hval [Hez _]].
  destruct (shl_align p e e') as [mz ez]. cbn [fst snd] in *.
  pose proof (binary_round_aux_value mz ez ltac:(unfold scale; lia)
                ltac:(left; lia)) as HR.
  rewrite Hval in HR. exact HR.
Qed.

Lemma binary_round_opp (p : positive) (e : Z) :
  binary_round prec emax true p e = SFopp (binary_round prec emax false p e).
Proof.
  unfold binary_round.
  destruct (shl_align _ _ _) as [mz ez].
  apply binary_round_aux_sign.
Qed.

(** What [rounds_to] says of the magnitude. *)
Lemma rounds_to_magnitude (R : spec_float) (v : Z) :
  valid_binary R = true -> rounds_to R v ->
  R <> S754_nan /\ magnitude R = Z.min v overflow /\
  magnitude (SFopp R) = Z.min v overflow.
Proof.
  intros V H. destruct (rounds_to_xv R v V H) as [N Hxv].
  destruct R as [s|[|]| |[|] m e]; try discriminate N;
    try (destruct s; [contradiction|]);
    (split; [discriminate|]); split; exact Hxv.
Qed.

Lemma overflow_pos : 0 < overflow.
Proof. unfold overflow. apply Z.pow_pos_nonneg; unfold scale; lia. Qed.

Lemma magnitude_nonneg (f : spec_float) : f <> S754_nan -> 0 <= magnitude f.
Proof.
  pose proof overflow_pos as Ho.
  destruct f as [s|s| |s m e]; unfold magnitude; cbn [SFabs xv]; intro H;
    try lia; try contradiction.
Qed.

(** What [binary_normalize] makes of a mantissa whose magnitude is
    bounded by a value that is a float: no more than the bound, with the
    sign of the mantissa. *)
Lemma binary_normalize_bound (m ez bound : Z) :
  -1074 <= ez <= 971 ->
  valid_binary (binary_normalize prec emax m ez false) = true ->
  Z.abs m * 2 ^ (ez + scale) <= bound ->
  bound < overflow -> rne bound = bound ->
  magnitude (binary_normalize prec emax m ez false) <= bound /\
  match binary_normalize prec emax m ez false with
  | S754_zero _ => True
  | S754_finite s _ _ => s = (m <? 0)
  | _ => False
  end.
Proof.
  intros He V Hm Hov Hex.
  assert (Hp : 0 < 2 ^ (ez + scale))
    by (apply Z.pow_pos_nonneg; unfold scale; lia).
  destruct m as [|p|p]; cbn [binary_normalize Z.abs] in *.
  - split; [|exact I]. unfold magnitude. cbn [SFabs xv]. nia.
  - pose proof (binary_round_value p ez He) as HR.
    assert (Hv : 0 < Zpos p * 2 ^ (ez + scale)) by nia.
    pose proof (rne_mono _ _ (conj Hv Hm)) as Hle. rewrite Hex in Hle.
    destruct (rounds_to_xv _ _ V HR) as [N Hxv].
    destruct (binary_round prec emax false p ez) as [s|[|]| |[|] m e];
      try discriminate N; unfold magnitude; cbn [SFabs xv] in *;
      try (split; [lia|]; try exact I; try reflexivity).
    lia.
  - rewrite binary_round_opp in *.
    pose proof (binary_round_value p ez He) as HR.
    assert (Hv : 0 < Zpos p * 2 ^ (ez + scale)) by nia.
    pose proof (rne_mono _ _ (conj Hv Hm)) as Hle. rewrite Hex in Hle.
    assert (V' : valid_binary (binary_round prec emax false p ez) = true).
    { destruct (binary_round prec emax false p ez); exact V. }
    destruct (rounds_to_xv _ _ V' HR) as [N Hxv].
    destruct (binary_round prec emax false p ez) as [s|[|]| |[|] m e];
      try discriminate N; unfold magnitude; cbn [SFabs SFopp xv negb] in *;
      try (split; [lia|]; try exact I; try reflexivity).
    lia.
Qed.

(** A multiple of [2^(scale-1)] below [2^53] of them is a float. *)
Lemma rne_halves (k : Z) :
  0 < k < 2 ^ 53 -> rne (k * 2 ^ (scale - 1)) = k * 2 ^ (scale - 1).
Proof.
  intro Hk.
  assert (Hp : 0 < 2 ^ (scale - 1))
    by (apply Z.pow_pos_nonneg; unfold scale; lia).
  apply (rne_exact _ (scale - 1)).
  - nia.
  - unfold grid_exp. rewrite log2_scaled by (unfold scale; lia).
    assert (Z.log2 k < 53) by (apply Z.log2_lt_pow2; lia).
    unfold min_grid, scale. lia.
  - apply Z.mod_mul. lia.
Qed.

Lemma Prim2SF_half : Prim2SF 0.5 = S754_finite false 4503599627370496 (-53).
Proof. reflexivity. Qed.

Lemma xv_half : xv (Prim2SF 0.5) = 2 ^ (scale - 1).
Proof.
  rewrite Prim2SF_half. cbn [xv].
  change 4503599627370496 with (2 ^ 52).
  rewrite <- Z.pow_add_r by (unfold scale; lia). f_equal.
Qed.

(** A draw of [rand.Float64] less 0.5 is at most 0.5 in magnitude. *)
Lemma draw_centred_magnitude (u : float) :
  (0 <=? u)%float = true -> (u <? 1)%float = true ->
  magnitude (Prim2SF (u - 0.5)) <= 2 ^ (scale - 1).
Proof.
  intros H0 H1.
  pose proof (leb_zero_nonneg u H0) as Nu.
  assert (N1 : nonneg_ext (Prim2SF 1) = true) by reflexivity.
  rewrite (ltb_xv u 1 Nu N1) in H1. apply Z.ltb_lt in H1.
  rewrite xv_one in H1.
  pose proof (Prim2SF_valid u) as Vu.
  pose proof (Prim2SF_valid (u - 0.5)) as Vr.
  pose proof xv_half as Hh. rewrite Prim2SF_half in Hh. cbn [xv] in Hh.
  rewrite sub_spec in *. rewrite Prim2SF_half in *.
  destruct (Prim2SF u) as [s|[|]| |[|] mu eu]; try discriminate Nu.
  - unfold magnitude. cbn [SF64sub SFsub SFabs xv]. lia.
  - exfalso. cbn [xv] in H1.
    assert (2 ^ scale < overflow)
      by (unfold overflow; apply Z.pow_lt_mono_r; unfold scale; lia).
    lia.
  - destruct (valid_finite _ _ _ Vu) as [Heu _].
    cbn [xv] in H1.
    unfold SF64sub, SFsub in *. cbn [cond_Zopp] in *.
    set (ez := Z.min eu (-53)) in *.
    destruct (shl_align_general mu eu ez ltac:(unfold scale; lia)
                ltac:(unfold scale, ez; lia)) as [Vu' [_ Eu']].
    destruct (shl_align_general 4503599627370496 (-53) ez
                ltac:(unfold scale; lia) ltac:(unfold scale, ez; lia))
      as [Vh' [_ Eh']].
    rewrite Eu' in Vu' by (unfold ez; lia).
    rewrite Eh' in Vh' by (unfold ez; lia).
    set (a := Zpos (fst (shl_align mu eu ez))) in *.
    set (b := Zpos (fst (shl_align 4503599627370496 (-53) ez))) in *.
    assert (Hp : 0 < 2 ^ (ez + scale))
      by (apply Z.pow_pos_nonneg; unfold scale, ez; lia).
    assert (Hapos : 0 < a) by (unfold a; lia).
    assert (Hbpos : 0 < b) by (unfold b; lia).
    assert (Hs : 2 ^ scale = 2 * 2 ^ (scale - 1)).
    { rewrite <- Z.pow_succ_r by (unfold scale; lia). f_equal. }
    assert (Hov : 2 ^ (scale - 1) < overflow)
      by (unfold overflow; apply Z.pow_lt_mono_r; unfold scale; lia).
    pose proof (rne_halves 1 ltac:(lia)) as Hex. rewrite Z.mul_1_l in Hex.
    apply (binary_normalize_bound (a - b) ez (2 ^ (scale - 1)));
      try assumption; [unfold ez; lia|].
    clearbody a b. nia.
Qed.

(** *** Products *)

Lemma binary_round_aux_abs (m e : Z) (l : location) :
  SFabs (binary_round_aux prec emax false m e l) =
  binary_round_aux prec emax false m e l.
Proof.
  unfold binary_round_aux.
  destruct (shr_fexp prec emax m e l) as [mrs' e'].
  destruct (shr_fexp prec emax
              (round_nearest_even (shr_m mrs') (loc_of_shr_record mrs')) e'
              loc_Exact) as [mrs'' e''].
  destruct (shr_m mrs'') as [|p|p]; try reflexivity.
  destruct (e'' <=? emax - prec); reflexivity.
Qed.

Lemma SFabs_SFopp (f : spec_float) : SFabs (SFopp f) = SFabs f.
Proof. destruct f; reflexivity. Qed.

(** The magnitude of a product is the product of the magnitudes. *)
Lemma SF64mul_abs (X Y : spec_float) :
  SFabs (SF64mul X Y) = SF64mul (SFabs X) (SFabs Y).
Proof.
  destruct X as [sx|sx| |sx mx ex], Y as [sy|sy| |sy my ey]; try reflexivity.
  unfold SF64mul, SFmul. cbn [SFabs xorb].
  destruct (xorb sx sy).
  - rewrite binary_round_aux_sign, SFabs_SFopp. apply binary_round_aux_abs.
  - apply binary_round_aux_abs.
Qed.

Lemma SF64mul_comm (X Y : spec_float) : SF64mul X Y = SF64mul Y X.
Proof.
  destruct X as [sx|sx| |sx mx ex], Y as [sy|sy| |sy my ey];
    unfold SF64mul, SFmul; try reflexivity;
    try (rewrite (xorb_comm sx sy); reflexivity).
  rewrite (xorb_comm sx sy), (Pos.mul_comm mx my), (Z.add_comm ex ey).
  reflexivity.
Qed.

(** A product of two finite floats that are not negative is a number. *)
Lemma SF64mul_fin_not_nan (X A : spec_float) :
  valid_binary X = true -> valid_binary A = true ->
  nonneg_fin X = true -> nonneg_fin A = true ->
  SF64mul X A <> S754_nan.
Proof.
  intros Vx Va Nx Na.
  destruct X as [sx|[|]| |[|] mx ex]; try discriminate Nx;
    destruct A as [sa|[|]| |[|] ma ea]; try discriminate Na;
    try discriminate.
  apply SF64mul_finite_not_nan; [exact Vx|exact Va|reflexivity].
Qed.

(** Multiplication of finite floats that are not negative is monotone
    in both factors. *)
Lemma mul_le_mono (a a' b b' : float) :
  nonneg64 a = true -> nonneg64 a' = true ->
  nonneg64 b = true -> nonneg64 b' = true ->
  xv (Prim2SF a) <= xv (Prim2SF a') -> xv (Prim2SF b) <= xv (Prim2SF b') ->
  nonneg_ext (Prim2SF (a * b)) = true /\
  nonneg_ext (Prim2SF (a' * b')) = true /\
  xv (Prim2SF (a * b)) <= xv (Prim2SF (a' * b')).
Proof.
  intros Na Na' Nb Nb' Ha Hb.
  pose proof (nonneg64_fin _ Na) as Fa. pose proof (nonneg64_fin _ Na') as Fa'.
  pose proof (nonneg64_fin _ Nb) as Fb. pose proof (nonneg64_fin _ Nb') as Fb'.
  pose proof (Prim2SF_valid a) as Va. pose proof (Prim2SF_valid a') as Va'.
  pose proof (Prim2SF_valid b) as Vb. pose proof (Prim2SF_valid b') as Vb'.
  pose proof (Prim2SF_valid (a * b)) as V1.
  pose proof (Prim2SF_valid (a * b')) as V2.
  pose proof (Prim2SF_valid (a' * b')) as V3.
  rewrite mul_spec in *.
  destruct (SF64mul_mono _ _ _ Va Vb Vb' Fa (nonneg_fin_ext _ Fb)
              (nonneg_fin_ext _ Fb') Hb V1 V2
              (SF64mul_fin_not_nan _ _ Va Vb Fa Fb)
              (SF64mul_fin_not_nan _ _ Va Vb' Fa Fb'))
    as [N1 [_ H1]].
  rewrite (SF64mul_comm (Prim2SF a) (Prim2SF b')) in H1, V2.
  rewrite (SF64mul_comm (Prim2SF a') (Prim2SF b')) in *.
  destruct (SF64mul_mono _ _ _ Vb' Va Va' Fb' (nonneg_fin_ext _ Fa)
              (nonneg_fin_ext _ Fa') Ha V2 V3
              (SF64mul_fin_not_nan _ _ Vb' Va Fb' Fa)
              (SF64mul_fin_not_nan _ _ Vb' Va' Fb' Fa'))
    as [_ [N3 H3]].
  rewrite ?(mul_spec a b), ?(mul_spec a' b').
  rewrite (SF64mul_comm (Prim2SF a') (Prim2SF b')).
  split; [exact N1|]. split; [exact N3|]. lia.
Qed.

Lemma finite64_abs (x : float) :
  finite64 x = true ->
  nonneg64 (abs x) = true /\
  xv (Prim2SF (abs x)) = magnitude (Prim2SF x).
Proof.
  unfold finite64, nonneg64, magnitude. rewrite abs_spec.
  destruct (Prim2SF x); try discriminate; intros _; split; reflexivity.
Qed.

(** The magnitude of a product of finite floats is bounded by the
    product of bounds of the magnitudes of its factors. *)
Lemma magnitude_mul_le (x y hx hy : float) :
  finite64 x = true -> finite64 y = true ->
  nonneg64 hx = true -> nonneg64 hy = true ->
  magnitude (Prim2SF x) <= xv (Prim2SF hx) ->
  magnitude (Prim2SF y) <= xv (Prim2SF hy) ->
  xv (Prim2SF (hx * hy)) < overflow ->
  finite64 (x * y) = true /\
  magnitude (Prim2SF (x * y)) <= xv (Prim2SF (hx * hy)).
Proof.
  intros Fx Fy Nhx Nhy Hx Hy Hov.
  destruct (finite64_abs x Fx) as [Nax Eax].
  destruct (finite64_abs y Fy) as [Nay Eay].
  rewrite <- Eax in Hx. rewrite <- Eay in Hy.
  destruct (mul_le_mono (abs x) hx (abs y) hy Nax Nhx Nay Nhy Hx Hy)
    as [N [_ Hle]].
  assert (E : Prim2SF (abs x * abs y) = SFabs (Prim2SF (x * y))).
  { rewrite !mul_spec, !abs_spec, SF64mul_abs. reflexivity. }
  rewrite E in N, Hle. fold (magnitude (Prim2SF (x * y))) in Hle.
  split; [|exact Hle].
  unfold finite64. unfold magnitude in Hle.
  destruct (Prim2SF (x * y)) as [s|s| |s m e]; cbn [SFabs xv] in *;
    try reflexivity; [lia|discriminate N].
Qed.

(** The float of an integer below [2^53] is worth that integer. *)
Lemma float64_of_int_xv (z : Z) :
  0 <= z < 2 ^ 53 -> xv (Prim2SF (float64_of_int z)) = z * 2 ^ scale.
Proof.
  intro Hz. destruct (float64_of_int_value z ltac:(lia)) as [_ Hxv].
  rewrite Hxv. destruct (Z.eqb_spec z 0) as [->|Hne]; [reflexivity|].
  assert (Hp : 0 < 2 ^ scale) by (apply Z.pow_pos_nonneg; unfold scale; lia).
  apply (rne_exact _ scale).
  - nia.
  - unfold grid_exp. rewrite log2_scaled by (unfold scale; lia).
    assert (Z.log2 z < 53) by (apply Z.log2_lt_pow2; lia).
    unfold min_grid, scale. lia.
  - apply Z.mod_mul. lia.
Qed.

(** Half of it is worth half of that integer. *)
Lemma half_float64_of_int_xv (z : Z) :
  0 <= z < 2 ^ 53 ->
  xv (Prim2SF (0.5 * float64_of_int z)) = z * 2 ^ (scale - 1).
Proof.
  intro Hz.
  pose proof (float64_of_int_xv z Hz) as Hxv.
  destruct (float64_of_int_value z ltac:(lia)) as [Nf _].
  pose proof (Prim2SF_valid (float64_of_int z)) as Vf.
  pose proof (Prim2SF_valid (0.5 * float64_of_int z)) as Vr.
  rewrite mul_spec in *. rewrite Prim2SF_half in *. unfold nonneg64 in Nf.
  assert (Hp : 0 < 2 ^ scale) by (apply Z.pow_pos_nonneg; unfold scale; lia).
  assert (Hs : 2 ^ scale = 2 * 2 ^ (scale - 1)).
  { rewrite <- Z.pow_succ_r by (unfold scale; lia). f_equal. }
  destruct (Prim2SF (float64_of_int z)) as [s|[|]| |[|] m e];
    try discriminate Nf; cbn [xv] in Hxv.
  - cbn [SF64mul SFmul xv]. nia.
  - pose proof (SF64mul_finite_value 4503599627370496 m (-53) e eq_refl Vf)
      as HR.
    pose proof xv_half as Hh. rewrite Prim2SF_half in Hh. cbn [xv] in Hh.
    rewrite Hh, Hxv in HR.
    destruct (valid_finite_bounds _ _ _ Vf) as [[Hvpos _] _].
    assert (Hz0 : 0 < z) by nia.
    replace (2 ^ (scale - 1) * (z * 2 ^ scale) / 2 ^ scale)
      with (z * 2 ^ (scale - 1)) in HR.
    2:{ rewrite Z.mul_assoc, Z.div_mul by lia. ring. }
    rewrite (rne_halves z ltac:(lia)) in HR.
    destruct (rounds_to_xv _ _ Vr HR) as [_ Hr]. rewrite Hr.
    assert (z * 2 ^ (scale - 1) < overflow).
    { unfold overflow.
      assert (z * 2 ^ (scale - 1) < 2 ^ 53 * 2 ^ (scale - 1))
        by (apply Z.mul_lt_mono_pos_r; [apply Z.pow_pos_nonneg; unfold scale; lia|lia]).
      rewrite <- Z.pow_add_r in H by (unfold scale; lia).
      assert (2 ^ (53 + (scale - 1)) < 2 ^ (1024 + scale))
        by (apply Z.pow_lt_mono_r; unfold scale; lia).
      lia. }
    lia.
Qed.

(** *** The sum of the backoff and the jitter *)

(** A finite float that is not negative plus a finite float: the sum is
    finite, and when it is not below zero it is at most the value of
    the first plus the magnitude of the second, when that bound is a
    float. *)
Lemma add_bound (b j : float) (bound : Z) :
  nonneg64 b = true -> finite64 j = true ->
  xv (Prim2SF b) + magnitude (Prim2SF j) <= bound ->
  bound < overflow -> rne bound = bound ->
  nonneg64 (if (b + j <? 0)%float then 0%float else (b + j)%float) = true /\
  xv (Prim2SF (if (b + j <? 0)%float then 0%float else (b + j)%float))
    <= bound.
Proof.
  intros Nb Fj Hsum Hov Hex.
  pose proof (Prim2SF_valid b) as Vb. pose proof (Prim2SF_valid j) as Vj.
  pose proof (Prim2SF_valid (b + j)) as Vr.
  assert (Hb0 : 0 <= xv (Prim2SF b))
    by (apply xv_nonneg, nonneg_fin_ext, nonneg64_fin, Nb).
  assert (Hj0 : 0 <= magnitude (Prim2SF j)).
  { apply magnitude_nonneg. unfold finite64 in Fj.
    destruct (Prim2SF j); try discriminate Fj; discriminate. }
  assert (Hzero : nonneg64 0 = true /\ xv (Prim2SF 0) <= bound)
    by (split; [reflexivity|cbn; lia]).
  rewrite ltb_spec. change (Prim2SF 0) with (S754_zero false).
  unfold nonneg64 in *. unfold finite64 in Fj. unfold magnitude in *.
  destruct (SFltb (Prim2SF (b + j)) (S754_zero false)) eqn:Hlt;
    [exact Hzero|].
  rewrite add_spec in *.
  destruct (Prim2SF b) as [sb|[|]| |[|] mb eb]; try discriminate Nb;
    destruct (Prim2SF j) as [sj|sj| |sj mj ej]; try discriminate Fj;
    cbn [SFabs xv] in *.
  - (* zero + zero *)
    cbn [SF64add SFadd]. destruct sb, sj; cbn [xv]; split; try reflexivity; lia.
  - (* zero + finite *)
    cbn [SF64add SFadd] in *. destruct sj; [discriminate Hlt|].
    cbn [xv]. split; [reflexivity|lia].
  - (* finite + zero *)
    cbn [SF64add SFadd] in *. cbn [xv]. split; [reflexivity|lia].
  - (* finite + finite *)
    destruct (valid_finite _ _ _ Vb) as [Heb _].
    destruct (valid_finite _ _ _ Vj) as [Hej _].
    unfold SF64add, SFadd in *. cbn [cond_Zopp] in *.
    set (ez := Z.min eb ej) in *.
    destruct (shl_align_general mb eb ez ltac:(unfold scale; lia)
                ltac:(unfold scale, ez; lia)) as [Vb' [_ Eb']].
    destruct (shl_align_general mj ej ez ltac:(unfold scale; lia)
                ltac:(unfold scale, ez; lia)) as [Vj' [_ Ej']].
    rewrite Eb' in Vb' by (unfold ez; lia).
    rewrite Ej' in Vj' by (unfold ez; lia).
    set (x := Zpos (fst (shl_align mb eb ez))) in *.
    set (y := Zpos (fst (shl_align mj ej ez))) in *.
    assert (Hp : 0 < 2 ^ (ez + scale))
      by (apply Z.pow_pos_nonneg; unfold scale, ez; lia).
    assert (Hx : 0 < x) by (unfold x; lia).
    assert (Hy : 0 < y) by (unfold y; lia).
    set (m := x + cond_Zopp sj y) in *.
    assert (Hm : Z.abs m * 2 ^ (ez + scale) <= bound).
    { unfold m. destruct sj; cbn [cond_Zopp]; clearbody x y; nia. }
    destruct (binary_normalize_bound m ez bound ltac:(unfold ez; lia) Vr Hm
                Hov Hex) as [Hmag Hsign].
    unfold magnitude in Hmag.
    destruct (binary_normalize prec emax m ez false) as [s|s| |s mr er];
      try contradiction; cbn [SFabs xv] in *.
    + split; [reflexivity|lia].
    + destruct s; [discriminate Hlt|]. split; [reflexivity|exact Hmag].
Qed.

(** A float between 0 and 1 is finite and worth at most a unit. *)
Lemma unit_interval_xv (c : float) :
  (0 <=? c)%float = true -> (c <=? 1)%float = true ->
  finite64 c = true /\ magnitude (Prim2SF c) <= xv (Prim2SF 1).
Proof.
  intros H0 H1. pose proof (leb_zero_nonneg c H0) as Nc.
  destruct (leb_xv c 1 Nc H1) as [_ Hle]. pose proof Hle as Hle'.
  rewrite xv_one in Hle'.
  assert (2 ^ scale < overflow)
    by (unfold overflow; apply Z.pow_lt_mono_r; unfold scale; lia).
  unfold finite64, magnitude.
  destruct (Prim2SF c) as [s|[|]| |[|] m e]; try discriminate Nc;
    cbn [SFabs xv] in *; try (split; [reflexivity|lia]).
  exfalso. lia.
Qed.

(** What the clamp leaves is a finite float that is not negative and
    not above [MaxBackoff]. *)
Lemma clamped_exponential_le_MaxBackoff (lib : Library) (attempt : Z)
    (config : Config) :
  0 <= InitialBackoff config < 2 ^ 63 ->
  0 <= MaxBackoff config < 2 ^ 53 ->
  (0 <=? math_Pow lib (BackoffFactor config) (float64_of_int attempt))%float
    = true ->
  (InitialBackoff config = 0 ->
   finite64 (math_Pow lib (BackoffFactor config) (float64_of_int attempt))
     = true) ->
  nonneg64 (clamped_exponential lib attempt config) = true /\
  xv (Prim2SF (clamped_exponential lib attempt config)) <=
    MaxBackoff config * 2 ^ scale.
Proof.
  intros Hinit Hmax Hp0 Hpz.
  pose proof (clamped_exponential_number lib attempt config Hinit
                ltac:(lia) Hp0 Hpz) as Nb.
  split; [exact Nb|].
  rewrite <- (float64_of_int_xv (MaxBackoff config)) by lia.
  destruct (float64_of_int_value (MaxBackoff config) ltac:(lia)) as [Nf _].
  unfold clamped_exponential, float64_min in *.
  set (fmax := float64_of_int (MaxBackoff config)) in *.
  set (raw := (float64_of_int (InitialBackoff config) *
               math_Pow lib (BackoffFactor config) (float64_of_int attempt))%float)
    in *.
  destruct (fmax <? raw)%float eqn:Hlt; [lia|].
  rewrite (ltb_xv fmax raw (nonneg_fin_ext _ (nonneg64_fin _ Nf))
             (nonneg_fin_ext _ (nonneg64_fin _ Nb))) in Hlt.
  apply Z.ltb_ge in Hlt. exact Hlt.
Qed.

(** A backoff of at most [maxBackoff] with its jitter, floored at zero
    and converted, is a duration between zero and one and a half times
    [maxBackoff]. *)
Lemma jittered_backoff_bound (u jitterFactor b : float) (maxBackoff : Z) :
  (0 <=? u)%float = true -> (u <? 1)%float = true ->
  (0 <=? jitterFactor)%float = true -> (jitterFactor <=? 1)%float = true ->
  0 <= maxBackoff < 2 ^ 51 ->
  nonneg64 b = true -> xv (Prim2SF b) <= maxBackoff * 2 ^ scale ->
  0 <= int64_of_float64
         (if (b + (u - 0.5) * jitterFactor * b <? 0)%float then 0%float
          else (b + (u - 0.5) * jitterFactor * b)%float) /\
  2 * int64_of_float64
        (if (b + (u - 0.5) * jitterFactor * b <? 0)%float then 0%float
         else (b + (u - 0.5) * jitterFactor * b)%float)
    <= 3 * maxBackoff.
Proof.
  intros Hu0 Hu1 Hj0 Hj1 Hmax Nb Hb.
  set (fmax := float64_of_int maxBackoff).
  destruct (float64_of_int_value maxBackoff ltac:(lia)) as [Nf _].
  fold fmax in Nf.
  pose proof (float64_of_int_xv maxBackoff ltac:(lia)) as Hf.
  fold fmax in Hf.
  assert (Hunit : 0 < 2 ^ scale) by (apply Z.pow_pos_nonneg; unfold scale; lia).
  assert (Hs : 2 ^ scale = 2 * 2 ^ (scale - 1)).
  { rewrite <- Z.pow_succ_r by (unfold scale; lia). f_equal. }
  assert (Hhu : 0 < 2 ^ (scale - 1)) by lia.
  assert (Hhov : 2 ^ (scale - 1) < overflow)
    by (unfold overflow; apply Z.pow_lt_mono_r; unfold scale; lia).
  (* the centred draw, times the jitter factor *)
  pose proof (draw_centred_finite u Hu0 Hu1) as F1.
  pose proof (draw_centred_magnitude u Hu0 Hu1) as M1.
  rewrite <- xv_half in M1.
  destruct (unit_interval_xv jitterFactor Hj0 Hj1) as [FJ MJ].
  assert (Ehalf : (0.5 * 1)%float = 0.5%float) by reflexivity.
  destruct (magnitude_mul_le (u - 0.5) jitterFactor 0.5 1
              F1 FJ eq_refl eq_refl M1 MJ
              ltac:(rewrite Ehalf, xv_half; exact Hhov)) as [F2 M2].
  rewrite Ehalf in M2.
  (* times the backoff *)
  assert (Mb : magnitude (Prim2SF b) <= xv (Prim2SF fmax)).
  { destruct (finite64_abs b (nonneg64_finite64 b Nb)) as [_ E].
    rewrite <- E, Hf. unfold nonneg64 in Nb. rewrite abs_spec.
    destruct (Prim2SF b) as [s|[|]| |[|] mb eb]; try discriminate Nb;
      exact Hb. }
  pose proof (half_float64_of_int_xv maxBackoff ltac:(lia)) as Hhf.
  fold fmax in Hhf.
  assert (Hmaxov : 3 * maxBackoff * 2 ^ (scale - 1) < overflow).
  { unfold overflow.
    assert (3 * maxBackoff * 2 ^ (scale - 1) < 2 ^ 53 * 2 ^ (scale - 1))
      by (apply Z.mul_lt_mono_pos_r; lia).
    rewrite <- Z.pow_add_r in H by (unfold scale; lia).
    assert (2 ^ (53 + (scale - 1)) < 2 ^ (1024 + scale))
      by (apply Z.pow_lt_mono_r; unfold scale; lia).
    lia. }
  destruct (magnitude_mul_le ((u - 0.5) * jitterFactor) b 0.5 fmax
              F2 (nonneg64_finite64 b Nb) eq_refl Nf M2 Mb
              ltac:(rewrite Hhf; nia)) as [F3 M3].
  rewrite Hhf in M3.
  (* the sum and the floor *)
  set (jitter := ((u - 0.5) * jitterFactor * b)%float) in *.
  assert (Hex : rne (3 * maxBackoff * 2 ^ (scale - 1)) =
                3 * maxBackoff * 2 ^ (scale - 1)).
  { destruct (Z.eq_dec maxBackoff 0) as [E|Hne].
    - rewrite E. reflexivity.
    - apply rne_halves. lia. }
  destruct (add_bound b jitter (3 * maxBackoff * 2 ^ (scale - 1))
              Nb F3 ltac:(nia) Hmaxov Hex) as [Nr Hr].
  rewrite (int64_of_float64_xv _ Nr).
  set (v := xv (Prim2SF (if (b + jitter <? 0)%float then 0%float
                         else (b + jitter)%float))) in *.
  assert (Hv0 : 0 <= v)
    by (apply xv_nonneg, nonneg_fin_ext, nonneg64_fin, Nr).
  assert (Hq0 : 0 <= v / 2 ^ scale) by (apply Z.div_pos; lia).
  assert (Hq : 2 * (v / 2 ^ scale) <= 3 * maxBackoff).
  { assert (2 * v <= 3 * maxBackoff * 2 ^ scale) by nia.
    pose proof (Z.mul_div_le v (2 ^ scale) Hunit) as Hd.
    assert (2 ^ scale * (2 * (v / 2 ^ scale)) <=
            2 ^ scale * (3 * maxBackoff)) by nia.
    apply Z.mul_le_mono_pos_l in H0; lia. }
  assert (Hlt : (v / 2 ^ scale <? 2 ^ 63) = true).
  { apply Z.ltb_lt. assert (2 ^ 51 < 2 ^ 62) by (apply Z.pow_lt_mono_r; lia).
    change (2 ^ 63) with (2 * 2 ^ 62). lia. }
  rewrite Hlt. split; [exact Hq0|exact Hq].
Qed.

(** X16. With a jitter factor between 0 and 1 the wait lies between
    zero and one and a half times [MaxBackoff], whatever the draw in
    [0, 1) and the attempt: for every policy whose [InitialBackoff] is
    not negative and whose [MaxBackoff] is not negative and below
    [2^51] nanoseconds, wherever the library's power of the growth
    factor is not negative (and finite when [InitialBackoff] is
    zero).  The jitter is applied after the clamp, so [MaxBackoff]
    itself is no bound. *)
Theorem calculateBackoff_jitter_bound (lib : Library) (u : float)
    (attempt : Z) (config : Config) :
  (0 <=? u)%float = true -> (u <? 1)%float = true ->
  (0 <=? JitterFactor config)%float = true ->
  (JitterFactor config <=? 1)%float = true ->
  0 <= InitialBackoff config < 2 ^ 63 ->
  0 <= MaxBackoff config < 2 ^ 51 ->
  (0 <=? math_Pow lib (BackoffFactor config) (float64_of_int attempt))%float
    = true ->
  (InitialBackoff config = 0 ->
   finite64 (math_Pow lib (BackoffFactor config) (float64_of_int attempt))
     = true) ->
  0 <= calculateBackoff lib u attempt config /\
  2 * calculateBackoff lib u attempt config <= 3 * MaxBackoff config.
Proof.
  intros Hu0 Hu1 Hj0 Hj1 Hinit Hmax Hp0 Hpz.
  destruct (clamped_exponential_le_MaxBackoff lib attempt config Hinit
              ltac:(lia) Hp0 Hpz) as [Nb Hb].
  unfold calculateBackoff.
  fold (float64_min
          (float64_of_int (InitialBackoff config) *
           math_Pow lib (BackoffFactor config) (float64_of_int attempt))
          (float64_of_int (MaxBackoff config))).
  fold (clamped_exponential lib attempt config).
  cbv zeta.
  apply jittered_backoff_bound; assumption.
Qed.

Lemma calculateBackoff_jitter_bound_witness :
  0 <= calculateBackoff golib 0.9375 2 NewRetryableHTTPClient /\
  2 * calculateBackoff golib 0.9375 2 NewRetryableHTTPClient <=
  3 * MaxBackoff NewRetryableHTTPClient.
Proof.
  apply calculateBackoff_jitter_bound; try reflexivity;
    (split; [discriminate|reflexivity]).
Defined.

(** *** Where the conversions leave the formula *)

(** The product of the floats of two integers whose product is below
    [2^53] is worth that product. *)
Lemma float64_of_int_mul_xv (i p : Z) :
  0 <= i < 2 ^ 63 -> 0 <= p < 2 ^ 53 -> i * p < 2 ^ 53 ->
  nonneg_ext (Prim2SF (float64_of_int i * float64_of_int p)) = true /\
  xv (Prim2SF (float64_of_int i * float64_of_int p)) = i * p * 2 ^ scale.
Proof.
  intros Hi Hp Hip.
  destruct (float64_of_int_value i Hi) as [Ni Hxi].
  destruct (float64_of_int_value p ltac:(lia)) as [Np _].
  pose proof (float64_of_int_xv p Hp) as Hxp.
  pose proof (Prim2SF_valid (float64_of_int i)) as Vi.
  pose proof (Prim2SF_valid (float64_of_int p)) as Vp.
  pose proof (Prim2SF_valid (float64_of_int i * float64_of_int p)) as Vr.
  assert (Hunit : 0 < 2 ^ scale) by (apply Z.pow_pos_nonneg; unfold scale; lia).
  rewrite mul_spec in *. unfold nonneg64 in Ni, Np.
  destruct (Prim2SF (float64_of_int p)) as [sp|[|]| |[|] mp ep];
    try discriminate Np; cbn [xv] in Hxp.
  - assert (p = 0) by nia. subst p.
    destruct (Prim2SF (float64_of_int i)) as [si|[|]| |[|] mi ei];
      try discriminate Ni; cbn [SF64mul SFmul nonneg_ext xv];
      (split; [reflexivity|lia]).
  - destruct (valid_finite_bounds _ _ _ Vp) as [[Hppos _] _].
    assert (Hp1 : 1 <= p) by nia.
    assert (Hi53 : i < 2 ^ 53) by nia.
    pose proof (float64_of_int_xv i ltac:(lia)) as Hxi'.
    destruct (Prim2SF (float64_of_int i)) as [si|[|]| |[|] mi ei];
      try discriminate Ni; cbn [xv] in Hxi'.
    + assert (i = 0) by nia. subst i.
      cbn [SF64mul SFmul nonneg_ext xv]. split; [reflexivity|lia].
    + destruct (valid_finite_bounds _ _ _ Vi) as [[Hipos _] _].
      assert (Hi1 : 1 <= i) by nia.
      pose proof (SF64mul_finite_value mi mp ei ep Vi Vp) as HR.
      rewrite Hxi', Hxp in HR.
      replace (i * 2 ^ scale * (p * 2 ^ scale) / 2 ^ scale)
        with (i * p * 2 ^ scale) in HR.
      2:{ rewrite Z.mul_assoc, Z.div_mul by lia. ring. }
      rewrite (rne_exact _ scale) in HR.
      * destruct (rounds_to_xv _ _ Vr HR) as [N Hr]. split; [exact N|].
        rewrite Hr.
        assert (i * p * 2 ^ scale < overflow).
        { unfold overflow.
          assert (i * p * 2 ^ scale < 2 ^ 53 * 2 ^ scale)
            by (apply Z.mul_lt_mono_pos_r; lia).
          rewrite <- Z.pow_add_r in H by (unfold scale; lia).
          assert (2 ^ (53 + scale) < 2 ^ (1024 + scale))
            by (apply Z.pow_lt_mono_r; unfold scale; lia).
          lia. }
        lia.
      * nia.
      * unfold grid_exp. rewrite log2_scaled by (unfold scale; nia).
        assert (Z.log2 (i * p) < 53) by (apply Z.log2_lt_pow2; nia).
        unfold min_grid, scale. lia.
      * apply Z.mod_mul. lia.
Qed.

(** Without jitter, where the library's power is the float of an
    integer [p] and neither the product nor [MaxBackoff] reaches
    [2^53], the wait is the smaller of [InitialBackoff * p] and
    [MaxBackoff]. *)
Lemma calculateBackoff_no_jitter_exact (lib : Library) (u : float)
    (config : Config) (attempt p : Z) :
  JitterFactor config = 0%float ->
  (0 <=? u)%float = true -> (u <? 1)%float = true ->
  0 <= InitialBackoff config < 2 ^ 63 ->
  0 <= MaxBackoff config < 2 ^ 53 ->
  0 <= p < 2 ^ 53 ->
  InitialBackoff config * p < 2 ^ 53 ->
  math_Pow lib (BackoffFactor config) (float64_of_int attempt) =
    float64_of_int p ->
  calculateBackoff lib u attempt config =
    Z.min (InitialBackoff config * p) (MaxBackoff config).
Proof.
  intros Hj Hu0 Hu1 Hinit Hmax Hp Hip Hpow.
  pose proof (draw_centred_finite u Hu0 Hu1) as Hu.
  destruct (float64_of_int_value p ltac:(lia)) as [Np _].
  assert (Hp0 : (0 <=? math_Pow lib (BackoffFactor config)
                         (float64_of_int attempt))%float = true).
  { rewrite Hpow. apply nonneg_ext_leb_zero, nonneg_fin_ext, nonneg64_fin, Np. }
  assert (Hfin : finite64 (math_Pow lib (BackoffFactor config)
                             (float64_of_int attempt)) = true)
    by (rewrite Hpow; apply nonneg64_finite64, Np).
  pose proof (clamped_exponential_number lib attempt config Hinit
                ltac:(lia) Hp0 (fun _ => Hfin)) as Nb.
  rewrite (calculateBackoff_clamped lib u attempt config Hj Hu Nb).
  rewrite (int64_of_float64_xv _ Nb).
  destruct (float64_of_int_mul_xv (InitialBackoff config) p Hinit Hp Hip)
    as [Nr Hr].
  destruct (float64_of_int_value (MaxBackoff config) ltac:(lia)) as [Nf _].
  unfold clamped_exponential. rewrite Hpow.
  rewrite (float64_min_xv _ _ Nr Nf), Hr,
    (float64_of_int_xv (MaxBackoff config) Hmax).
  assert (Hunit : 0 < 2 ^ scale) by (apply Z.pow_pos_nonneg; unfold scale; lia).
  rewrite Z.mul_min_distr_nonneg_r by lia.
  rewrite Z.div_mul by lia.
  assert (0 <= InitialBackoff config * p) by nia.
  assert ((Z.min (InitialBackoff config * p) (MaxBackoff config) <? 2 ^ 63)
          = true) as ->; [|reflexivity].
  apply Z.ltb_lt. assert (2 ^ 53 < 2 ^ 63) by (apply Z.pow_lt_mono_r; lia).
  lia.
Qed.

Lemma mul_nan_r (a b : float) :
  Prim2SF b = S754_nan -> Prim2SF (a * b) = S754_nan.
Proof.
  intro H. rewrite mul_spec, H. destruct (Prim2SF a); reflexivity.
Qed.

Lemma add_nan_l (a b : float) :
  Prim2SF a = S754_nan -> Prim2SF (a + b) = S754_nan.
Proof. intro H. rewrite add_spec, H. reflexivity. Qed.

Lemma ltb_nan_l (a b : float) :
  Prim2SF a = S754_nan -> (a <? b)%float = false.
Proof. intro H. rewrite ltb_spec, H. reflexivity. Qed.

Lemma ltb_nan_r (a b : float) :
  Prim2SF b = S754_nan -> (a <? b)%float = false.
Proof.
  intro H. rewrite ltb_spec, H. unfold SFltb.
  destruct (Prim2SF a); reflexivity.
Qed.

(** With [InitialBackoff] zero, a power that has overflowed to the
    infinity makes the product a NaN, which passes the clamp and the
    floor and is converted to [-2^63]: whatever the jitter and the draw. *)
Lemma calculateBackoff_zero_times_infinity (lib : Library) (u : float)
    (config : Config) (attempt : Z) :
  InitialBackoff config = 0 ->
  Prim2SF (math_Pow lib (BackoffFactor config) (float64_of_int attempt)) =
    S754_infinity false ->
  calculateBackoff lib u attempt config = - 2 ^ 63.
Proof.
  intros Hinit Hpow. unfold calculateBackoff. rewrite Hinit.
  set (a := math_Pow lib (BackoffFactor config) (float64_of_int attempt)) in *.
  assert (Hraw : Prim2SF (float64_of_int 0 * a) = S754_nan).
  { rewrite mul_spec, Hpow. reflexivity. }
  cbv zeta.
  rewrite (ltb_nan_r _ _ Hraw).
  set (raw := (float64_of_int 0 * a)%float) in *.
  pose proof (add_nan_l raw ((u - 0.5) * JitterFactor config * raw) Hraw)
    as Hfinal.
  rewrite (ltb_nan_l _ 0 Hfinal).
  unfold int64_of_float64. rewrite Hfinal. reflexivity.
Qed.

(** A [MaxBackoff] within 512 nanoseconds of the largest duration
    becomes [2^63] as a float: once the clamp applies, the wait without
    jitter is converted to [-2^63]. *)
Lemma calculateBackoff_clamp_overflows (lib : Library) (u : float)
    (config : Config) (attempt : Z) :
  JitterFactor config = 0%float ->
  (0 <=? u)%float = true -> (u <? 1)%float = true ->
  2 ^ 63 - 512 <= MaxBackoff config < 2 ^ 63 ->
  (float64_of_int (MaxBackoff config) <?
   float64_of_int (InitialBackoff config) *
   math_Pow lib (BackoffFactor config) (float64_of_int attempt))%float = true ->
  calculateBackoff lib u attempt config = - 2 ^ 63.
Proof.
  intros Hj Hu0 Hu1 Hmax Hlt.
  pose proof (draw_centred_finite u Hu0 Hu1) as Hu.
  destruct (float64_of_int_value (MaxBackoff config) ltac:(lia)) as [Nf Hxv].
  assert (Ec : clamped_exponential lib attempt config =
               float64_of_int (MaxBackoff config)).
  { unfold clamped_exponential, float64_min. rewrite Hlt. reflexivity. }
  rewrite (calculateBackoff_clamped lib u attempt config Hj Hu)
    by (rewrite Ec; exact Nf).
  rewrite Ec, (int64_of_float64_xv _ Nf), Hxv.
  assert (Hunit : 0 < 2 ^ scale) by (apply Z.pow_pos_nonneg; unfold scale; lia).
  destruct (Z.eqb_spec (MaxBackoff config) 0) as [E|_]; [lia|].
  assert (Hr : rne (MaxBackoff config * 2 ^ scale) = 2 ^ 63 * 2 ^ scale).
  { assert (Hlo : rne ((2 ^ 63 - 512) * 2 ^ scale) = 2 ^ 63 * 2 ^ scale)
      by (vm_compute; reflexivity).
    assert (Hhi : rne ((2 ^ 63 - 1) * 2 ^ scale) = 2 ^ 63 * 2 ^ scale)
      by (vm_compute; reflexivity).
    assert (H1 : rne ((2 ^ 63 - 512) * 2 ^ scale) <=
                 rne (MaxBackoff config * 2 ^ scale))
      by (apply rne_mono; nia).
    assert (H2 : rne (MaxBackoff config * 2 ^ scale) <=
                 rne ((2 ^ 63 - 1) * 2 ^ scale))
      by (apply rne_mono; nia).
    lia. }
  rewrite Hr, Z.div_mul by lia. rewrite Z.ltb_irrefl. reflexivity.
Qed.

Lemma uncapped_config_36 (u : float) :
  (0 <=? u)%float = true -> (u <? 1)%float = true ->
  calculateBackoff golib u 36 uncapped_config = 6871947673600000000.
Proof.
  intros Hu0 Hu1.
  rewrite (calculateBackoff_clamped golib u 36 uncapped_config eq_refl
             (draw_centred_finite u Hu0 Hu1));
    vm_compute; reflexivity.
Qed.

Lemma uncapped_config_37 (u : float) :
  (0 <=? u)%float = true -> (u <? 1)%float = true ->
  calculateBackoff golib u 37 uncapped_config = - 2 ^ 63.
Proof.
  intros Hu0 Hu1.
  apply calculateBackoff_clamp_overflows; try assumption.
  - reflexivity.
  - split; [discriminate|reflexivity].
  - vm_compute. reflexivity.
Qed.

Lemma zero_initial_config_1023 (u : float) :
  (0 <=? u)%float = true -> (u <? 1)%float = true ->
  calculateBackoff golib u 1023 zero_initial_config = 0.
Proof.
  intros Hu0 Hu1.
  rewrite (calculateBackoff_clamped golib u 1023 zero_initial_config eq_refl
             (draw_centred_finite u Hu0 Hu1));
    vm_compute; reflexivity.
Qed.

Lemma zero_initial_config_1024 (u : float) :
  calculateBackoff golib u 1024 zero_initial_config = - 2 ^ 63.
Proof.
  apply calculateBackoff_zero_times_infinity.
  - reflexivity.
  - vm_compute. reflexivity.
Qed.

Lemma golib_Pow_table (k : Z) :
  In k [0; 1; 2; 3; 10] ->
  math_Pow golib 2 (float64_of_int k) = float64_of_int (2 ^ k).
Proof.
  intro Hk. cbn in Hk.
  destruct Hk as [<-|[<-|[<-|[<-|[<-|[]]]]]]; vm_compute; reflexivity.
Qed.

(** C5. Without jitter the wait is
    [min(InitialBackoff * BackoffFactor^attempt, MaxBackoff)] where the
    float64 arithmetic is exact, and not at every attempt index of
    every policy.  [calculateBackoff] clamps the product to
    [MaxBackoff] and floors the result at zero, but neither comparison
    holds of a NaN, and the clamp itself is [2^63] as a float64 when
    [MaxBackoff] is within 512ns of the largest duration: the
    conversion to [time.Duration] then gives [-2^63] nanoseconds.
    With 100ms, factor 2 and the largest duration as [MaxBackoff], the
    wait at index 37 is [-2^63] where the minimum is [MaxBackoff]; with
    an [InitialBackoff] of 0 and a [MaxBackoff] of 5s the wait at index
    1024 is [-2^63] where the minimum is 0 (the power overflows to the
    infinity and 0 times the infinity is a NaN).  Both happen for every
    library and policy of those shapes.  Where the library's power is
    the float64 of an integer [p], with [p], [InitialBackoff * p] and
    [MaxBackoff] below [2^53], the wait is
    [min(InitialBackoff * p, MaxBackoff)] for every draw in [0, 1); so
    the policy with 100ms, 5s and factor 2 gives 100ms, 200ms, 400ms,
    800ms and (clamped) 5s at the indices 0, 1, 2, 3 and 10. *)
Theorem calculateBackoff_no_jitter_unguarded :
  (forall u, (0 <=? u)%float = true -> (u <? 1)%float = true ->
     calculateBackoff golib u 37 uncapped_config = - 2 ^ 63 /\
     Z.min (InitialBackoff uncapped_config * 2 ^ 37)
       (MaxBackoff uncapped_config) = 2 ^ 63 - 1) /\
  (forall u,
     calculateBackoff golib u 1024 zero_initial_config = - 2 ^ 63 /\
     Z.min (InitialBackoff zero_initial_config * 2 ^ 1024)
       (MaxBackoff zero_initial_config) = 0) /\
  (forall lib u config attempt,
     JitterFactor config = 0%float ->
     (0 <=? u)%float = true -> (u <? 1)%float = true ->
     2 ^ 63 - 512 <= MaxBackoff config < 2 ^ 63 ->
     (float64_of_int (MaxBackoff config) <?
      float64_of_int (InitialBackoff config) *
      math_Pow lib (BackoffFactor config) (float64_of_int attempt))%float
       = true ->
     calculateBackoff lib u attempt config = - 2 ^ 63) /\
  (forall lib u config attempt,
     InitialBackoff config = 0 ->
     Prim2SF (math_Pow lib (BackoffFactor config) (float64_of_int attempt)) =
       S754_infinity false ->
     calculateBackoff lib u attempt config = - 2 ^ 63) /\
  (forall lib u config attempt p,
     JitterFactor config = 0%float ->
     (0 <=? u)%float = true -> (u <? 1)%float = true ->
     0 <= InitialBackoff config < 2 ^ 63 ->
     0 <= MaxBackoff config < 2 ^ 53 ->
     0 <= p < 2 ^ 53 ->
     InitialBackoff config * p < 2 ^ 53 ->
     math_Pow lib (BackoffFactor config) (float64_of_int attempt) =
       float64_of_int p ->
     calculateBackoff lib u attempt config =
       Z.min (InitialBackoff config * p) (MaxBackoff config)) /\
  (forall lib u,
     (0 <=? u)%float = true -> (u <? 1)%float = true ->
     (forall k, In k [0; 1; 2; 3; 10] ->
        math_Pow lib 2 (float64_of_int k) = float64_of_int (2 ^ k)) ->
     map (fun attempt => calculateBackoff lib u attempt table_config)
       [0; 1; 2; 3; 10] =
     [100 * Millisecond; 200 * Millisecond; 400 * Millisecond;
      800 * Millisecond; 5 * Second]) /\
  (forall u,
     (0 <=? u)%float = true -> (u <? 1)%float = true ->
     map (fun attempt => calculateBackoff golib u attempt table_config)
       [0; 1; 2; 3; 10] =
     [100 * Millisecond; 200 * Millisecond; 400 * Millisecond;
      800 * Millisecond; 5 * Second]).
Proof.
  assert (Htable : forall lib u,
     (0 <=? u)%float = true -> (u <? 1)%float = true ->
     (forall k, In k [0; 1; 2; 3; 10] ->
        math_Pow lib 2 (float64_of_int k) = float64_of_int (2 ^ k)) ->
     map (fun attempt => calculateBackoff lib u attempt table_config)
       [0; 1; 2; 3; 10] =
     [100 * Millisecond; 200 * Millisecond; 400 * Millisecond;
      800 * Millisecond; 5 * Second]).
  { intros lib u Hu0 Hu1 Hpow.
    assert (Hat : forall k, In k [0; 1; 2; 3; 10] ->
              calculateBackoff lib u k table_config =
              Z.min (InitialBackoff table_config * 2 ^ k)
                (MaxBackoff table_config)).
    { intros k Hk.
      apply calculateBackoff_no_jitter_exact; try assumption;
        try reflexivity; try (apply (Hpow k Hk));
        cbn in Hk; destruct Hk as [<-|[<-|[<-|[<-|[<-|[]]]]]];
        try (split; [discriminate|reflexivity]); reflexivity. }
    cbn [map]. rewrite !Hat by (cbn; tauto). reflexivity. }
  repeat split.
  - apply uncapped_config_37; assumption.
  - apply zero_initial_config_1024.
  - intros lib u config attempt. apply calculateBackoff_clamp_overflows.
  - intros lib u config attempt. apply calculateBackoff_zero_times_infinity.
  - intros lib u config attempt p. apply calculateBackoff_no_jitter_exact.
  - exact Htable.
  - intros u Hu0 Hu1. apply Htable; try assumption. apply golib_Pow_table.
Qed.

(** C9. Without jitter and with a growth factor above 1 the wait is not
    non-decreasing at every policy: with 100ms, factor 2 and the
    largest duration as [MaxBackoff] it falls from 6871947673600000000ns
    at index 36 to [-2^63] at index 37, where the clamp is reached and
    converts to [-2^63]; with an [InitialBackoff] of 0 and a
    [MaxBackoff] of 5s it falls from 0 at index 1023 to [-2^63] at
    index 1024, where the power overflows.  Neither the clamp nor the
    floor at zero of [calculateBackoff] catches these.  For a policy
    whose [MaxBackoff] is below [2^53], and between two indices
    [n <= m] at which the library's power is not negative and does not
    decrease (and is finite when [InitialBackoff] is zero), the wait
    does not decrease, never exceeds [MaxBackoff], and stays at
    [MaxBackoff] once it has reached it; so it does for the policy with
    100ms, 5s and factor 2 at the indices 2, 3 and 10, 11. *)
Theorem calculateBackoff_monotone_unguarded :
  ((1 <? BackoffFactor uncapped_config)%float = true /\
   JitterFactor uncapped_config = 0%float /\
   0 <= InitialBackoff uncapped_config <= MaxBackoff uncapped_config /\
   forall u, (0 <=? u)%float = true -> (u <? 1)%float = true ->
     calculateBackoff golib u 36 uncapped_config = 6871947673600000000 /\
     calculateBackoff golib u 37 uncapped_config = - 2 ^ 63) /\
  ((1 <? BackoffFactor zero_initial_config)%float = true /\
   JitterFactor zero_initial_config = 0%float /\
   0 <= InitialBackoff zero_initial_config <= MaxBackoff zero_initial_config /\
   forall u, (0 <=? u)%float = true -> (u <? 1)%float = true ->
     calculateBackoff golib u 1023 zero_initial_config = 0 /\
     calculateBackoff golib u 1024 zero_initial_config = - 2 ^ 63) /\
  (forall lib u config n m,
     JitterFactor config = 0%float ->
     (0 <=? u)%float = true -> (u <? 1)%float = true ->
     n <= m ->
     0 <= InitialBackoff config < 2 ^ 63 ->
     0 <= MaxBackoff config < 2 ^ 53 ->
     (0 <=? math_Pow lib (BackoffFactor config) (float64_of_int n))%float
       = true ->
     (math_Pow lib (BackoffFactor config) (float64_of_int n) <=?
      math_Pow lib (BackoffFactor config) (float64_of_int m))%float = true ->
     (InitialBackoff config = 0 ->
      finite64 (math_Pow lib (BackoffFactor config) (float64_of_int m))
        = true) ->
     calculateBackoff lib u n config <= calculateBackoff lib u m config
       <= MaxBackoff config /\
     (calculateBackoff lib u n config = MaxBackoff config ->
      calculateBackoff lib u m config = MaxBackoff config)) /\
  (calculateBackoff golib 0.25 2 table_config <=
     calculateBackoff golib 0.25 3 table_config <= MaxBackoff table_config /\
   calculateBackoff golib 0.25 10 table_config = MaxBackoff table_config /\
   calculateBackoff golib 0.25 11 table_config = MaxBackoff table_config).
Proof.
  split; [|split; [|split]].
  - split; [reflexivity|]. split; [reflexivity|].
    split; [split; discriminate|].
    intros u Hu0 Hu1. split.
    + apply uncapped_config_36; assumption.
    + apply uncapped_config_37; assumption.
  - split; [reflexivity|]. split; [reflexivity|].
    split; [split; discriminate|].
    intros u Hu0 Hu1. split.
    + apply zero_initial_config_1023; assumption.
    + apply zero_initial_config_1024.
  - intros lib u config n m Hj Hu0 Hu1 _.
    apply calculateBackoff_monotone_where_exact; assumption.
  - assert (Hi : 0 <= InitialBackoff table_config < 2 ^ 63)
      by (split; [discriminate|reflexivity]).
    assert (Hm : 0 <= MaxBackoff table_config < 2 ^ 53)
      by (split; [discriminate|reflexivity]).
    split; [|split].
    + apply (calculateBackoff_monotone_where_exact golib 0.25 table_config 2 3
               eq_refl eq_refl eq_refl Hi Hm);
        try (intros _); vm_compute; reflexivity.
    + rewrite (calculateBackoff_clamped golib 0.25 10 table_config eq_refl);
        vm_compute; reflexivity.
    + rewrite (calculateBackoff_clamped golib 0.25 11 table_config eq_refl);
        vm_compute; reflexivity.
Qed.

(** *** The time a run spends waiting *)

(** A pass of [Do] waits at most once, for the backoff of its attempt. *)
Lemma Do_pass_wait (lib : Library) (env : Env) (config : Config) (i : nat) :
  total_wait (Do_pass lib env config i) = 0 \/
  total_wait (Do_pass lib env config i) =
    calculateBackoff lib (rand_Float64 env i) (Z.of_nat i) config.
Proof.
  unfold Do_pass. destruct (operation env i) as [err|]; [|left; reflexivity].
  destruct (IsRetryable err); [right|left; reflexivity].
  cbn [total_wait fold_right]. lia.
Qed.

Lemma total_wait_app (t1 t2 : list event) :
  total_wait (t1 ++ t2) = total_wait t1 + total_wait t2.
Proof.
  unfold total_wait. induction t1 as [|ev t1 IH]; [reflexivity|].
  cbn [app fold_right]. rewrite IH. destruct ev; lia.
Qed.

(** X17. A run of [Do] waits in all no longer than [MaxRetries] times
    one and a half times [MaxBackoff]: with a jitter factor between 0
    and 1, draws in [0, 1), an [InitialBackoff] that is not negative, a
    [MaxBackoff] that is not negative and below [2^51] nanoseconds, and
    a power of the growth factor that is not negative at the attempts
    from 0 on (and finite when [InitialBackoff] is zero). *)
Theorem Do_total_wait (lib : Library) (env : Env) (config : Config) :
  (forall i, (0 <=? rand_Float64 env i)%float = true /\
             (rand_Float64 env i <? 1)%float = true) ->
  (0 <=? JitterFactor config)%float = true ->
  (JitterFactor config <=? 1)%float = true ->
  0 <= InitialBackoff config < 2 ^ 63 ->
  0 <= MaxBackoff config < 2 ^ 51 ->
  (forall n, 0 <= n ->
     (0 <=? math_Pow lib (BackoffFactor config) (float64_of_int n))%float
       = true /\
     (InitialBackoff config = 0 ->
      finite64 (math_Pow lib (BackoffFactor config) (float64_of_int n))
        = true)) ->
  0 <= total_wait (trace (snd (Do lib env config))) /\
  2 * total_wait (trace (snd (Do lib env config))) <=
    3 * MaxBackoff config * Z.max 0 (MaxRetries config).
Proof.
  intros Hu Hj0 Hj1 Hinit Hmax Hpow.
  assert (Hpass : forall i,
             0 <= total_wait (Do_pass lib env config i) /\
             2 * total_wait (Do_pass lib env config i) <=
               3 * MaxBackoff config).
  { intro i. destruct (Do_pass_wait lib env config i) as [E|E]; rewrite E;
      [lia|].
    destruct (Hu i) as [Hu0 Hu1].
    destruct (Hpow (Z.of_nat i) ltac:(lia)) as [Hp0 Hpz].
    destruct (clamped_exponential_le_MaxBackoff lib (Z.of_nat i) config Hinit
                ltac:(lia) Hp0 Hpz) as [Nb Hb].
    unfold calculateBackoff.
    fold (float64_min
            (float64_of_int (InitialBackoff config) *
             math_Pow lib (BackoffFactor config) (float64_of_int (Z.of_nat i)))
            (float64_of_int (MaxBackoff config))).
    fold (clamped_exponential lib (Z.of_nat i) config).
    cbv zeta.
    apply jittered_backoff_bound; assumption. }
  assert (Hseq : forall k a,
             0 <= total_wait (flat_map (Do_pass lib env config) (seq a k)) /\
             2 * total_wait (flat_map (Do_pass lib env config) (seq a k)) <=
               3 * MaxBackoff config * Z.of_nat k).
  { induction k as [|k IH]; intro a.
    - cbn. lia.
    - cbn [seq flat_map]. rewrite total_wait_app.
      destruct (Hpass a) as [H1 H2]. destruct (IH (S a)) as [H3 H4]. lia. }
  unfold Do.
  destruct (Do_loop_trace lib env config (Z.to_nat (MaxRetries config))
              0 None start eq_refl eq_refl eq_refl ltac:(lia))
    as [_ [_ Ht]].
  pose proof (Do_loop_calls_le lib env config (Z.to_nat (MaxRetries config))
                0 None start) as Hc.
  rewrite Ht. cbn [start calls trace app Nat.add] in *. rewrite Nat.sub_0_r.
  destruct (Hseq (calls (snd (Do_loop lib env config
                                (Z.to_nat (MaxRetries config)) 0 None start)))
              0%nat) as [H1 H2].
  split; [exact H1|]. nia.
Qed.

Lemma Do_total_wait_witness :
  0 <= total_wait (trace (snd (Do golib failing_env steady_config))) /\
  2 * total_wait (trace (snd (Do golib failing_env steady_config))) <=
    3 * MaxBackoff steady_config * Z.max 0 (MaxRetries steady_config).
Proof.
  apply Do_total_wait; try reflexivity.
  - intro i. split; reflexivity.
  - split; [discriminate|reflexivity].
  - split; [discriminate|reflexivity].
  - intros n Hn. split; [|intro H; discriminate H].
    cbn [steady_config BackoffFactor golib math_Pow]. unfold Pow.
    change (1 =? 1)%float with true. rewrite orb_true_r. reflexivity.
Defined.

(** ** Properties of the callers *)

(** Every error of the function literal of the HTTP client is a
    [RetryableError]. *)
Lemma RetryableHTTPClient_operation_marked (rt : round_trip) (e : error) :
  RetryableHTTPClient_operation rt = Some e ->
  match rt with
  | Failed _ err => e = RetryableError err
  | Answered resp =>
      IsRetryableHTTPStatus (StatusCode resp) = true /\ IsRetryable e = true
  end.
Proof.
  destruct rt as [resp err|resp]; cbn [RetryableHTTPClient_operation].
  - intro H. injection H as <-. reflexivity.
  - destruct (IsRetryableHTTPStatus (StatusCode resp)); [|discriminate].
    intro H. injection H as <-. split; reflexivity.
Qed.

(** X18. [RetryableHTTPClient.Do] returns an error that [IsRetryable]
    rejects in two ways only.  Either reading the body of the request
    failed with an error that [IsRetryable] rejects: then no request is
    made, the response is nil and the error is
    [failed to read request body: ] around the error of the read.  Or,
    since the client marks every failure of a request as retryable, a
    request failed with a transport error in which [errors.Is] finds
    [context.Canceled]: then the error is [not retryable error: ]
    around that marked error, returned after the request that failed
    so, together with the response of that request. *)
Theorem RetryableHTTPClient_Do_not_retryable (lib : Library)
    (rand : nat -> float) (done : nat -> Duration -> bool)
    (retryConfig : Config) (read_body : option error)
    (client_Do : nat -> round_trip)
    (resp : option Response) (e : error) :
  1 <= MaxRetries retryConfig ->
  fst (RetryableHTTPClient_Do lib rand done retryConfig read_body client_Do) =
    (resp, Some e) ->
  IsRetryable e = false ->
  (exists err,
     read_body = Some err /\
     IsRetryable err = false /\
     resp = None /\
     calls (snd (RetryableHTTPClient_Do lib rand done retryConfig read_body
                   client_Do)) = 0%nat /\
     e = wrapError
           (String.append "failed to read request body: " (Error lib err))
           err) \/
  (read_body = None /\
   exists err,
     client_Do
       (pred (calls (snd (RetryableHTTPClient_Do lib rand done retryConfig
                            read_body client_Do)))) = Failed resp err /\
     Is err ctxCanceled = true /\
     e = Errorf lib "not retryable error: " (Some (RetryableError err)) /\
     e = wrapError (String.append "not retryable error: " (Error lib err))
           (RetryableError err)).
Proof.
  intros Hmax. destruct read_body as [err0|].
  - cbn [RetryableHTTPClient_Do fst snd start calls].
    intros Hres Hnr. injection Hres as Hresp He. left. exists err0.
    unfold Errorf in He. subst e resp.
    rewrite IsRetryable_wrapError in Hnr.
    repeat split. exact Hnr.
  - intros Hres Hnr. right. split; [reflexivity|]. revert Hres Hnr.
    unfold RetryableHTTPClient_Do, Do.
    set (env := caller_env rand done
                  (fun k => RetryableHTTPClient_operation (client_Do k))).
    destruct (Do_loop_last_call lib env retryConfig
                (Z.to_nat (MaxRetries retryConfig)) 0 None start
                ltac:(lia) ltac:(lia)) as [[Hz _]|[Hc Hm]]; [lia|].
    destruct (Do_loop lib env retryConfig (Z.to_nat (MaxRetries retryConfig)) 0
                None start) as [r w].
    cbn [fst snd start calls] in *.
    destruct (calls w) as [|k]; [lia|]. cbn [pred] in *.
    unfold env in Hm. cbn [operation caller_env] in Hm.
    intros Hres Hnr. injection Hres as Hresp He.
    destruct (RetryableHTTPClient_operation (client_Do k)) as [err|] eqn:Hop.
    + pose proof (RetryableHTTPClient_operation_marked _ _ Hop) as Hmk.
      destruct (IsRetryable err) eqn:Hr.
      * exfalso. destruct Hm as [Hm|Hm]; rewrite Hm in He;
          cbn [returned timed_out retries_exceeded] in He;
          injection He as <-; unfold Errorf in Hnr;
          rewrite IsRetryable_wrapError in Hnr; congruence.
      * destruct (client_Do k) as [resp' err'|resp'].
        -- subst err. rewrite IsRetryable_RetryableError in Hr.
           exists err'. cbn [response_of] in Hresp. subst resp'.
           split; [reflexivity|]. split.
           ++ destruct (Is err' ctxCanceled); [reflexivity|discriminate Hr].
           ++ rewrite Hm in He. cbn [returned not_retryable] in He.
              injection He as <-. split; reflexivity.
        -- destruct Hmk as [_ Hmk]. congruence.
    + rewrite Hm in He. discriminate He.
Qed.

Lemma RetryableHTTPClient_Do_not_retryable_witness :
  (exists err,
     cancelled_transport
       (pred (calls (snd (RetryableHTTPClient_Do golib (fun _ => 0.5%float)
                            (fun _ _ => false) NewRetryableHTTPClient None
                            cancelled_transport)))) = Failed None err /\
     Is err ctxCanceled = true) /\
  (exists err,
     Some (errorString "unexpected EOF") = Some err /\
     calls (snd (RetryableHTTPClient_Do golib (fun _ => 0.5%float)
                   (fun _ _ => false) NewRetryableHTTPClient
                   (Some (errorString "unexpected EOF"))
                   cancelled_transport)) = 0%nat).
Proof.
  assert (H : 1 <= MaxRetries NewRetryableHTTPClient) by discriminate.
  split.
  - destruct (RetryableHTTPClient_Do_not_retryable golib (fun _ => 0.5%float)
                (fun _ _ => false) NewRetryableHTTPClient None
                cancelled_transport None
                (Errorf golib "not retryable error: "
                   (Some (RetryableError
                            (wrapError "Post: context canceled" ctxCanceled))))
                H eq_refl eq_refl)
      as [[err [Hb _]]|[_ [err [Hk [Hc _]]]]]; [discriminate Hb|].
    exists err. split; [exact Hk|exact Hc].
  - destruct (RetryableHTTPClient_Do_not_retryable golib (fun _ => 0.5%float)
                (fun _ _ => false) NewRetryableHTTPClient
                (Some (errorString "unexpected EOF"))
                cancelled_transport None
                (wrapError "failed to read request body: unexpected EOF"
                   (errorString "unexpected EOF"))
                H eq_refl eq_refl)
      as [[err [Hb [_ [_ [Hc _]]]]]|[Hb _]]; [|discriminate Hb].
    exists err. split; [exact Hb|exact Hc].
Defined.

(** X19. When the server answers every request with a status that
    [IsRetryableHTTPStatus] accepts and the context is never done,
    [RetryableHTTPClient.Do] makes [MaxRetries] requests and returns
    the last response together with [retries exceeded] around the
    status error of that response: both results are non-nil. *)
Theorem RetryableHTTPClient_Do_exhausted (lib : Library)
    (rand : nat -> float) (done : nat -> Duration -> bool)
    (retryConfig : Config) (client_Do : nat -> round_trip) (last : Response) :
  1 <= MaxRetries retryConfig ->
  (forall k, exists resp,
      client_Do k = Answered resp /\
      IsRetryableHTTPStatus (StatusCode resp) = true) ->
  (forall k d, done k d = false) ->
  client_Do (pred (Z.to_nat (MaxRetries retryConfig))) = Answered last ->
  fst (RetryableHTTPClient_Do lib rand done retryConfig None client_Do) =
    (Some last,
     Some (Errorf lib "retries exceeded: "
             (RetryableHTTPClient_operation (Answered last)))) /\
  Z.of_nat
    (calls (snd (RetryableHTTPClient_Do lib rand done retryConfig None
                   client_Do))) = MaxRetries retryConfig.
Proof.
  intros Hmax Hsrv Hctx Hlast. unfold RetryableHTTPClient_Do, Do.
  set (env := caller_env rand done
                (fun k => RetryableHTTPClient_operation (client_Do k))).
  assert (Hfail : forall k, exists err,
             operation env k = Some err /\ IsRetryable err = true).
  { intro k. destruct (Hsrv k) as [resp [Hk Hst]].
    cbn [env operation caller_env]. rewrite Hk.
    cbn [RetryableHTTPClient_operation]. rewrite Hst.
    eexists. split; reflexivity. }
  destruct (Do_loop_exhausts lib env retryConfig Hfail Hctx
              (Z.to_nat (MaxRetries retryConfig)) 0 None start ltac:(lia))
    as [Hres [Hcalls _]].
  destruct (Do_loop lib env retryConfig (Z.to_nat (MaxRetries retryConfig)) 0
              None start) as [r w].
  cbn [fst snd start calls Nat.add] in *. rewrite Hcalls.
  destruct (Z.to_nat (MaxRetries retryConfig)) as [|k] eqn:Hn; [lia|].
  cbn [pred] in Hlast. rewrite Hlast. cbn [response_of].
  rewrite Hres. cbn [last_error start calls Nat.add returned retries_exceeded].
  cbn [env operation caller_env]. rewrite Hlast.
  split; [reflexivity|lia].
Qed.

Lemma RetryableHTTPClient_Do_exhausted_witness :
  fst (RetryableHTTPClient_Do golib (fun _ => 0.5%float) (fun _ _ => false)
         NewRetryableHTTPClient None (fun _ => Answered unavailable)) =
    (Some unavailable,
     Some (wrapError
             "retries exceeded: retryable HTTP status 503: Service temporarily unavailable"
             (RetryableError
                (errorString
                   "retryable HTTP status 503: Service temporarily unavailable")))).
Proof.
  assert (H : 1 <= MaxRetries NewRetryableHTTPClient) by discriminate.
  destruct (RetryableHTTPClient_Do_exhausted golib (fun _ => 0.5%float)
              (fun _ _ => false) NewRetryableHTTPClient
              (fun _ => Answered unavailable) unavailable H
              (fun _ => ex_intro _ unavailable (conj eq_refl eq_refl))
              (fun _ _ => eq_refl) eq_refl) as [Hr _].
  exact Hr.
Defined.

(** X20. After [k] requests that fail retryably, [k] below
    [MaxRetries], with the context not done during the waits,
    [RetryableHTTPClient.Do] returns the first response whose status
    [IsRetryableHTTPStatus] does not accept together with a nil error,
    having made [k + 1] requests: any such status, a 404 or a 501 as
    well as a 200, ends the run as a success. *)
Theorem RetryableHTTPClient_Do_answered (lib : Library)
    (rand : nat -> float) (done : nat -> Duration -> bool)
    (retryConfig : Config) (client_Do : nat -> round_trip) (k : nat)
    (resp : Response) :
  Z.of_nat k < MaxRetries retryConfig ->
  (forall i, (i < k)%nat ->
     exists err, RetryableHTTPClient_operation (client_Do i) = Some err /\
                 IsRetryable err = true) ->
  client_Do k = Answered resp ->
  IsRetryableHTTPStatus (StatusCode resp) = false ->
  (forall i d, (i < k)%nat -> done i d = false) ->
  fst (RetryableHTTPClient_Do lib rand done retryConfig None client_Do) =
    (Some resp, None) /\
  calls (snd (RetryableHTTPClient_Do lib rand done retryConfig None
                client_Do)) = S k.
Proof.
  intros Hk Hfail Hans Hst Hctx. unfold RetryableHTTPClient_Do, Do.
  set (env := caller_env rand done
                (fun k => RetryableHTTPClient_operation (client_Do k))).
  destruct (Do_loop_succeeds lib env retryConfig k
              (Z.to_nat (MaxRetries retryConfig)) 0 None start)
    as [Hres [Hcalls _]]; cbn [start calls selects Nat.add]; try lia.
  - exact Hfail.
  - cbn [env operation caller_env]. rewrite Hans.
    cbn [RetryableHTTPClient_operation]. rewrite Hst. reflexivity.
  - exact Hctx.
  - destruct (Do_loop lib env retryConfig (Z.to_nat (MaxRetries retryConfig))
                0 None start) as [r w].
    cbn [fst snd start calls Nat.add] in *. rewrite Hcalls, Hans, Hres.
    split; reflexivity.
Qed.

Lemma RetryableHTTPClient_Do_answered_witness :
  fst (RetryableHTTPClient_Do golib (fun _ => 0.5%float) (fun _ _ => false)
         NewRetryableHTTPClient None recovering_server) =
    (Some payment_processed, None) /\
  calls (snd (RetryableHTTPClient_Do golib (fun _ => 0.5%float)
                (fun _ _ => false) NewRetryableHTTPClient None
                recovering_server)) = 3%nat.
Proof.
  apply (RetryableHTTPClient_Do_answered golib (fun _ => 0.5%float)
           (fun _ _ => false) NewRetryableHTTPClient recovering_server 2
           payment_processed).
  - reflexivity.
  - intros i Hi. destruct i as [|[|i]]; [| |lia];
      (eexists; split; reflexivity).
  - reflexivity.
  - reflexivity.
  - reflexivity.
Defined.

(** X21. What the function literal of [CreateOrder] returns is
    classified so: when a call before the commit fails with [err], the
    error returned is retryable exactly when [errors.Is] does not find
    [context.Canceled] in [err] and either [isTransientDBError] accepts
    its message or [IsRetryable] accepts [err] itself; when the calls
    before the commit succeed, what [tx.Commit] returns is returned as
    it is, never marked. *)
Theorem CreateOrder_operation_classified (ToLower : string -> string)
    (lib : Library) (tx : Transaction) :
  match failed_before_Commit tx with
  | Some err =>
      exists e,
        CreateOrder_operation ToLower lib tx = Some e /\
        IsRetryable e =
          negb (Is err ctxCanceled) &&
          (isTransientDBError ToLower lib (Some err) || IsRetryable err)
  | None => CreateOrder_operation ToLower lib tx = Commit tx
  end.
Proof.
  assert (H : forall err,
             exists e,
               (if isTransientDBError ToLower lib (Some err)
                then Some (RetryableError err) else Some err) = Some e /\
               IsRetryable e =
                 negb (Is err ctxCanceled) &&
                 (isTransientDBError ToLower lib (Some err) || IsRetryable err)).
  { intro err. destruct (isTransientDBError ToLower lib (Some err)).
    - exists (RetryableError err). split; [reflexivity|].
      rewrite IsRetryable_RetryableError, andb_true_r. reflexivity.
    - exists err. split; [reflexivity|]. cbn [orb].
      destruct (IsRetryable err) eqn:Hr.
      + rewrite (IsRetryable_not_Canceled err Hr). reflexivity.
      + rewrite andb_false_r. reflexivity. }
  unfold failed_before_Commit, CreateOrder_operation.
  destruct (BeginTx tx) as [err|]; [apply H|].
  destruct (QueryRowContext_Scan tx) as [err|]; [apply H|].
  destruct (ExecContext tx) as [err|]; [apply H|]. reflexivity.
Qed.

(** X22. [IsRetryable] does not accept [ECONNREFUSED], but
    [CreateOrder] retries it: when the message of the errno holds
    [connection refused] and every [BeginTx] fails with it, with the
    context never done, [CreateOrder] runs [MaxRetries] times and
    returns [retries exceeded] around the marked errno. *)
Theorem CreateOrder_connection_refused (ToLower : string -> string)
    (lib : Library) (rand : nat -> float) (done : nat -> Duration -> bool)
    (retryConfig : Config) (db : nat -> Transaction) :
  1 <= MaxRetries retryConfig ->
  strings_Contains (ToLower (Errno_Error lib ECONNREFUSED))
    "connection refused" = true ->
  (forall k, BeginTx (db k) = Some (Errno ECONNREFUSED)) ->
  (forall k d, done k d = false) ->
  IsRetryable (Errno ECONNREFUSED) = false /\
  fst (CreateOrder ToLower lib rand done retryConfig db) =
    retries_exceeded lib (Some (RetryableError (Errno ECONNREFUSED))) /\
  Z.of_nat (calls (snd (CreateOrder ToLower lib rand done retryConfig db))) =
    MaxRetries retryConfig /\
  reason (fst (CreateOrder ToLower lib rand done retryConfig db)) =
    Exhausted /\
  returned (fst (CreateOrder ToLower lib rand done retryConfig db)) =
    Some (wrapError
            (String.append "retries exceeded: "
               (Errno_Error lib ECONNREFUSED))
            (RetryableError (Errno ECONNREFUSED))).
Proof.
  intros Hmax Htext Hdb Hctx.
  apply conj_with3; [intros [_ [-> _]]; split; reflexivity|].
  split; [reflexivity|].
  unfold CreateOrder, Do.
  set (env := caller_env rand done
                (fun k => CreateOrder_operation ToLower lib (db k))).
  assert (Hop : forall k,
             operation env k = Some (RetryableError (Errno ECONNREFUSED))).
  { intro k. cbn [env operation caller_env]. unfold CreateOrder_operation.
    rewrite Hdb. unfold isTransientDBError. cbn [Error].
    rewrite Htext. reflexivity. }
  assert (Hfail : forall k, exists err,
             operation env k = Some err /\ IsRetryable err = true).
  { intro k. eexists. split; [apply Hop|reflexivity]. }
  destruct (Do_loop_exhausts lib env retryConfig Hfail Hctx
              (Z.to_nat (MaxRetries retryConfig)) 0 None start ltac:(lia))
    as [Hres [Hcalls _]].
  rewrite Hres, Hcalls. cbn [start calls Nat.add].
  destruct (Z.to_nat (MaxRetries retryConfig)) as [|k] eqn:Hn; [lia|].
  cbn [last_error start calls Nat.add]. rewrite Hop.
  split; [reflexivity|lia].
Qed.

Lemma CreateOrder_connection_refused_witness :
  fst (CreateOrder ToLower_ASCII golib (fun _ => 0.5%float) (fun _ _ => false)
         NewOrderService refusing_db) =
    retries_exceeded golib (Some (RetryableError (Errno ECONNREFUSED))) /\
  calls (snd (CreateOrder ToLower_ASCII golib (fun _ => 0.5%float)
                (fun _ _ => false) NewOrderService refusing_db)) = 3%nat /\
  returned (fst (CreateOrder ToLower_ASCII golib (fun _ => 0.5%float)
                   (fun _ _ => false) NewOrderService refusing_db)) =
    Some (wrapError "retries exceeded: connection refused"
            (RetryableError (Errno ECONNREFUSED))).
Proof.
  assert (H : 1 <= MaxRetries NewOrderService) by discriminate.
  destruct (CreateOrder_connection_refused ToLower_ASCII golib
              (fun _ => 0.5%float) (fun _ _ => false) NewOrderService
              refusing_db H eq_refl (fun _ => eq_refl) (fun _ _ => eq_refl))
    as [_ [Hr [Hc [_ Hret]]]].
  split; [exact Hr|]. split; [apply Nat2Z.inj; exact Hc|exact Hret].
Defined.

(** X23. A failure of [tx.Commit] in the first run ends [CreateOrder]
    after that one run with [not retryable error] whenever
    [IsRetryable] does not accept the error, whatever
    [isTransientDBError] says of its message: a deadlock or a lost
    connection met at the commit is not retried. *)
Theorem CreateOrder_Commit_failure (ToLower : string -> string)
    (lib : Library) (rand : nat -> float) (done : nat -> Duration -> bool)
    (retryConfig : Config) (db : nat -> Transaction) (err : error) :
  1 <= MaxRetries retryConfig ->
  failed_before_Commit (db 0%nat) = None ->
  Commit (db 0%nat) = Some err ->
  IsRetryable err = false ->
  fst (CreateOrder ToLower lib rand done retryConfig db) =
    not_retryable lib (Some err) /\
  calls (snd (CreateOrder ToLower lib rand done retryConfig db)) = 1%nat /\
  reason (fst (CreateOrder ToLower lib rand done retryConfig db)) =
    NonRetryable /\
  returned (fst (CreateOrder ToLower lib rand done retryConfig db)) =
    Some (wrapError (String.append "not retryable error: " (Error lib err))
            err).
Proof.
  intros Hmax Hbefore Hcommit Hr.
  apply conj_with2; [intros [-> _]; split; reflexivity|].
  unfold CreateOrder, Do.
  set (env := caller_env rand done
                (fun k => CreateOrder_operation ToLower lib (db k))).
  assert (Hop : operation env 0%nat = Some err).
  { cbn [env operation caller_env].
    unfold failed_before_Commit in Hbefore. unfold CreateOrder_operation.
    destruct (BeginTx (db 0%nat)); [discriminate Hbefore|].
    destruct (QueryRowContext_Scan (db 0%nat)); [discriminate Hbefore|].
    rewrite Hbefore. exact Hcommit. }
  destruct (Z.to_nat (MaxRetries retryConfig)) as [|n] eqn:Hn; [lia|].
  cbn [Do_loop]. unfold bind.
  body_paths env start 0 retryConfig; cbn [start calls] in *; try congruence.
  assert (err0 = err) by congruence. subst err0. split; reflexivity.
Qed.

Lemma CreateOrder_Commit_failure_witness :
  isTransientDBError ToLower_ASCII golib
    (Some (errorString "pq: deadlock detected")) = true /\
  fst (CreateOrder ToLower_ASCII golib (fun _ => 0.5%float) (fun _ _ => false)
         NewOrderService deadlocked_commit_db) =
    not_retryable golib (Some (errorString "pq: deadlock detected")) /\
  calls (snd (CreateOrder ToLower_ASCII golib (fun _ => 0.5%float)
                (fun _ _ => false) NewOrderService deadlocked_commit_db))
  = 1%nat /\
  returned (fst (CreateOrder ToLower_ASCII golib (fun _ => 0.5%float)
                   (fun _ _ => false) NewOrderService deadlocked_commit_db)) =
    Some (wrapError "not retryable error: pq: deadlock detected"
            (errorString "pq: deadlock detected")).
Proof.
  assert (H : 1 <= MaxRetries NewOrderService) by discriminate.
  split; [reflexivity|].
  destruct (CreateOrder_Commit_failure ToLower_ASCII golib
              (fun _ => 0.5%float) (fun _ _ => false) NewOrderService
              deadlocked_commit_db (errorString "pq: deadlock detected")
              H eq_refl eq_refl eq_refl) as [Hr [Hc [_ Hret]]].
  split; [exact Hr|]. split; [exact Hc|exact Hret].
Defined.
